(** * Merging and repairing OpenAPI documents

    A shallow embedding of [merge_schemas.py] and [fix_merged_schema.py]:
    the two scripts read YAML documents into Python dicts, lists and
    scalars, transform them and write the result back with the insertion
    order of mapping keys preserved.  The embedding works on the loaded
    trees; reading and writing the files and the progress messages are
    left out. *)

From Stdlib Require Import List String Ascii Bool Arith ZArith Lia.
Import ListNotations.
Open Scope string_scope.
Open Scope list_scope.

(** ** Python strings *)

Module Str.

(** [s[n:]] *)
Fixpoint drop (n : nat) (s : string) : string :=
  match n, s with
  | O, _ => s
  | S _, EmptyString => EmptyString
  | S k, String _ r => drop k r
  end.

(** The scan of [str.replace] for a non-empty pattern: left to right,
    an occurrence is replaced and the scan resumes after it; [skip]
    counts the characters of a replaced occurrence still to be passed. *)
Fixpoint replace_from (skip : nat) (old new s : string) : string :=
  match s with
  | EmptyString => EmptyString
  | String c r =>
      match skip with
      | S k => replace_from k old new r
      | O =>
          if prefix old s
          then new ++ replace_from (length old - 1) old new r
          else String c (replace_from 0 old new r)
      end
  end.

(** With an empty pattern Python puts [new] before every character and
    at the end. *)
Fixpoint around_each (new s : string) : string :=
  match s with
  | EmptyString => new
  | String c r => new ++ String c (around_each new r)
  end.

(** [s.replace(old, new)] *)
Definition replace (old new s : string) : string :=
  match old with
  | EmptyString => around_each new s
  | String _ _ => replace_from 0 old new s
  end.

(** [pat in s] *)
Fixpoint contains (pat s : string) : bool :=
  prefix pat s ||
  match s with
  | EmptyString => false
  | String _ r => contains pat r
  end.

(** [s.startswith(pat)] *)
Definition startswith (s pat : string) : bool := prefix pat s.

(** [c in s] for a single character *)
Fixpoint has_char (c : ascii) (s : string) : bool :=
  match s with
  | EmptyString => false
  | String d r => Ascii.eqb c d || has_char c r
  end.

(** The two strings differ at a position both have. *)
Fixpoint diverge (a b : string) : bool :=
  match a, b with
  | String c a', String d b' => negb (Ascii.eqb c d) || diverge a' b'
  | _, _ => false
  end.

End Str.

(** ** [merge_schemas.normalize_path] *)

Definition param_replacements : list (string * string) :=
  [ ("{oid}", "{orgId}");
    ("{wid}", "{workspaceId}");
    ("{attId}", "{attachmentId}");
    ("{uid}", "{userId}");
    ("{said}", "{serviceAccountId}");
    ("{vsId}", "{formId}") ].

(** The loop [for old, new in param_replacements.items()]. *)
Definition rename_tokens (path : string) : string :=
  fold_left (fun p on => Str.replace (fst on) (snd on) p)
            param_replacements path.

Definition normalize_path (path : string) : string :=
  let path := Str.replace "/api/" "/" path in
  let path := Str.replace "/api" "/" path in
  rename_tokens path.

(** ** Exceptions *)

Inductive exn : Set := KeyError | TypeError | AttributeError | IndexError.

Inductive result (A : Type) : Type :=
| Ok (a : A)
| Raise (e : exn).
Arguments Ok {A} a.
Arguments Raise {A} e.

Definition bind {A B : Type} (r : result A) (k : A -> result B) : result B :=
  match r with
  | Ok a => k a
  | Raise e => Raise e
  end.

Notation "x <- r ;; k" := (bind r (fun x => k))
  (at level 61, r at next level, right associativity).

(** A [for] loop whose body may raise, collecting one value per item. *)
Fixpoint mapM {A B : Type} (f : A -> result B) (l : list A) : result (list B) :=
  match l with
  | [] => Ok []
  | a :: r => b <- f a ;; bs <- mapM f r ;; Ok (b :: bs)
  end.

(** A [for] loop updating an accumulator. *)
Fixpoint foldM {A S : Type} (f : S -> A -> result S) (l : list A) (s : S)
  : result S :=
  match l with
  | [] => Ok s
  | a :: r => s' <- f s a ;; foldM f r s'
  end.

(** A list comprehension with a condition that may raise. *)
Fixpoint filterM {A : Type} (f : A -> result bool) (l : list A)
  : result (list A) :=
  match l with
  | [] => Ok []
  | a :: r => b <- f a ;; k <- filterM f r ;; Ok (if b then a :: k else k)
  end.

(** ** The tree model

    What [yaml.safe_load] returns: [None], booleans, integers, floats
    (whose value no function here looks at, kept as a bit pattern),
    strings, lists and dicts.  A dict is the list of its entries in
    insertion order; its keys are strings and distinct.  Sharing between
    nodes (YAML aliases) is not represented: the functions here build new
    values, or repair a node to the same result however often they come
    to it. *)

#[local] Unset Elimination Schemes.
Inductive yaml : Type :=
| YNull
| YBool (b : bool)
| YInt (n : Z)
| YFloat (bits : Z)
| YStr (s : string)
| YList (items : list yaml)
| YDict (entries : list (string * yaml)).
#[local] Set Elimination Schemes.

(** Induction on a tree, with the hypothesis on every item of a list
    and on every value of a dict. *)
Section YamlInd.
Variable P : yaml -> Prop.
Hypothesis Hnull : P YNull.
Hypothesis Hbool : forall b, P (YBool b).
Hypothesis Hint : forall n, P (YInt n).
Hypothesis Hfloat : forall x, P (YFloat x).
Hypothesis Hstr : forall s, P (YStr s).
Hypothesis Hlist : forall l, Forall P l -> P (YList l).
Hypothesis Hdict : forall d, Forall (fun kv => P (snd kv)) d -> P (YDict d).

Fixpoint yaml_ind (t : yaml) : P t :=
  match t with
  | YNull => Hnull
  | YBool b => Hbool b
  | YInt n => Hint n
  | YFloat x => Hfloat x
  | YStr s => Hstr s
  | YList l =>
      Hlist l ((fix items (l : list yaml) : Forall P l :=
                  match l with
                  | [] => Forall_nil _
                  | x :: r => Forall_cons x (yaml_ind x) (items r)
                  end) l)
  | YDict d =>
      Hdict d ((fix entries (d : list (string * yaml)) : Forall (fun kv => P (snd kv)) d :=
                  match d with
                  | [] => Forall_nil _
                  | kv :: r => Forall_cons kv (yaml_ind (snd kv)) (entries r)
                  end) d)
  end.
End YamlInd.

Definition dict : Type := list (string * yaml).

Definition keys (d : dict) : list string := map fst d.

Fixpoint dict_get (k : string) (d : dict) : option yaml :=
  match d with
  | [] => None
  | (k', v) :: r => if String.eqb k k' then Some v else dict_get k r
  end.

Definition dict_has (k : string) (d : dict) : bool :=
  match dict_get k d with Some _ => true | None => false end.

(** [d[k] = v]: an existing key keeps its place, a new one goes last. *)
Fixpoint dict_set (k : string) (v : yaml) (d : dict) : dict :=
  match d with
  | [] => [(k, v)]
  | (k', v') :: r =>
      if String.eqb k k' then (k, v) :: r else (k', v') :: dict_set k v r
  end.

(** [del d[k]] *)
Fixpoint dict_del (k : string) (d : dict) : dict :=
  match d with
  | [] => []
  | (k', v') :: r =>
      if String.eqb k k' then r else (k', v') :: dict_del k r
  end.

Definition mem (k : string) (l : list string) : bool :=
  existsb (String.eqb k) l.

Definition is_str (s : string) (v : yaml) : bool :=
  match v with YStr s' => String.eqb s s' | _ => false end.

Definition is_null (v : yaml) : bool :=
  match v with YNull => true | _ => false end.

Fixpoint chars (s : string) : list yaml :=
  match s with
  | EmptyString => []
  | String c r => YStr (String c EmptyString) :: chars r
  end.

(** *** Python operations on a loaded value, with a string key *)

(** [k in v] *)
Definition py_in (k : string) (v : yaml) : result bool :=
  match v with
  | YDict d => Ok (dict_has k d)
  | YList l => Ok (existsb (is_str k) l)
  | YStr s => Ok (Str.contains k s)
  | _ => Raise TypeError
  end.

(** [v[k]] *)
Definition py_getitem (v : yaml) (k : string) : result yaml :=
  match v with
  | YDict d => match dict_get k d with Some x => Ok x | None => Raise KeyError end
  | _ => Raise TypeError
  end.

(** [v[k] = x] *)
Definition py_setitem (v : yaml) (k : string) (x : yaml) : result yaml :=
  match v with
  | YDict d => Ok (YDict (dict_set k x d))
  | _ => Raise TypeError
  end.

(** [v.get(k, default)] *)
Definition py_get (v : yaml) (k : string) (default : yaml) : result yaml :=
  match v with
  | YDict d => Ok (match dict_get k d with Some x => x | None => default end)
  | _ => Raise AttributeError
  end.

(** [v.keys()] *)
Definition py_keys (v : yaml) : result (list string) :=
  match v with
  | YDict d => Ok (keys d)
  | _ => Raise AttributeError
  end.

(** [v.items()] *)
Definition py_items (v : yaml) : result dict :=
  match v with
  | YDict d => Ok d
  | _ => Raise AttributeError
  end.

(** [len(v)] *)
Definition py_len (v : yaml) : result nat :=
  match v with
  | YList l => Ok (List.length l)
  | YDict d => Ok (List.length d)
  | YStr s => Ok (String.length s)
  | _ => Raise TypeError
  end.

(** [v[0]]; no dict has the key [0], its keys being strings. *)
Definition py_index0 (v : yaml) : result yaml :=
  match v with
  | YList (x :: _) => Ok x
  | YList [] => Raise IndexError
  | YStr (String c _) => Ok (YStr (String c EmptyString))
  | YStr EmptyString => Raise IndexError
  | YDict _ => Raise KeyError
  | _ => Raise TypeError
  end.

(** [for x in v] *)
Definition py_iter (v : yaml) : result (list yaml) :=
  match v with
  | YList l => Ok l
  | YDict d => Ok (map YStr (keys d))
  | YStr s => Ok (chars s)
  | _ => Raise TypeError
  end.

(** [hash(v)], needed of the members of a set and of a dict lookup. *)
Definition py_hashable (v : yaml) : result yaml :=
  match v with
  | YList _ | YDict _ => Raise TypeError
  | _ => Ok v
  end.

(** [outer[k1][k2] = x]: the inner object is changed in place, which
    shows in [outer] at the entry [k1]. *)
Definition setitem_in (outer : yaml) (k1 k2 : string) (x : yaml)
  : result yaml :=
  inner <- py_getitem outer k1 ;;
  inner' <- py_setitem inner k2 x ;;
  py_setitem outer k1 inner'.

(** Nesting depth, the measure of the recursive walks. *)
Fixpoint depth (t : yaml) : nat :=
  match t with
  | YList l => S (list_max (map depth l))
  | YDict d => S (list_max (map (fun kv => depth (snd kv)) d))
  | _ => 0
  end.

(** ** [merge_schemas.py] *)

Definition param_map : list (string * string) :=
  [ ("OrgId", "orgIdPathParam");
    ("WorkspaceId", "workspaceIdPathParam");
    ("DocId", "docIdPathParam");
    ("TableId", "tableIdPathParam");
    ("AttachmentId", "attachmentIdPathParam");
    ("UserId", "userIdPathParam") ].

(** The inner loop of [convert_param_refs] on the string of a ["$ref"]. *)
Definition rewrite_ref (value : string) : string :=
  fold_left
    (fun value on =>
       if Str.contains ("parameters/" ++ fst on) value
       then Str.replace ("parameters/" ++ fst on) ("parameters/" ++ snd on) value
       else value)
    param_map value.

(** [convert_param_refs]: the recursive call on the rewritten string of
    a ["$ref"] returns that string, every other value is walked. *)
Fixpoint convert_param_refs (obj : yaml) : yaml :=
  match obj with
  | YDict d =>
      YDict (map (fun kv =>
                    (fst kv,
                     match snd kv with
                     | YStr value =>
                         if String.eqb (fst kv) "$ref"
                         then YStr (rewrite_ref value)
                         else YStr value
                     | _ => convert_param_refs (snd kv)
                     end)) d)
  | YList l => YList (map convert_param_refs l)
  | _ => obj
  end.

Definition param_name_map : list (string * string) :=
  [ ("oid", "orgId");
    ("wid", "workspaceId");
    ("docId", "docId");
    ("tableId", "tableId");
    ("attId", "attachmentId");
    ("uid", "userId");
    ("said", "serviceAccountId");
    ("vsId", "formId");
    ("colId", "colId");
    ("webhookId", "webhookId");
    ("proposalId", "proposalId") ].

Fixpoint assoc (k : string) (m : list (string * string)) : option string :=
  match m with
  | [] => None
  | (k', v) :: r => if String.eqb k k' then Some v else assoc k r
  end.

(** The body of [for param in value]: [old_name in param_name_map]
    hashes [old_name], which raises on a list or a dict. *)
Definition rename_param (param : yaml) : result yaml :=
  match param with
  | YDict d =>
      match dict_get "name" d with
      | Some old_name =>
          h <- py_hashable old_name ;;
          match h with
          | YStr s =>
              match assoc s param_name_map with
              | Some new_name => Ok (YDict (dict_set "name" (YStr new_name) d))
              | None => Ok param
              end
          | _ => Ok param
          end
      | None => Ok param
      end
  | _ => Ok param
  end.

(** [if key == 'parameters' and isinstance(value, list)]: the renamed
    parameter list, or the value as it is. *)
Definition rename_params (key : string) (value : yaml) : result yaml :=
  match value with
  | YList params =>
      if String.eqb key "parameters"
      then new_params <- mapM rename_param params ;; Ok (YList new_params)
      else Ok value
  | _ => Ok value
  end.

(** [convert_param_names_in_path], by recursion on a bound of the
    nesting depth: the walk goes on in the renamed parameter list. *)
Fixpoint convert_param_names_upto (fuel : nat) (path_obj : yaml)
  : result yaml :=
  match fuel with
  | O => Ok path_obj
  | S fuel =>
      match path_obj with
      | YDict d =>
          new_obj <-
            mapM (fun kv =>
                    value <- rename_params (fst kv) (snd kv) ;;
                    converted <- convert_param_names_upto fuel value ;;
                    Ok (fst kv, converted)) d ;;
          Ok (YDict new_obj)
      | YList l =>
          items <- mapM (convert_param_names_upto fuel) l ;;
          Ok (YList items)
      | _ => Ok path_obj
      end
  end.

Definition convert_param_names_in_path (path_obj : yaml) : result yaml :=
  convert_param_names_upto (S (depth path_obj)) path_obj.

(** The value stored for a dict entry by [convert_param_names_in_path]. *)
Definition converted_value (key : string) (value : yaml) : result yaml :=
  value <- rename_params key value ;; convert_param_names_in_path value.

(** The set of path keys, as the list of the keys. *)
Definition get_paths_from_schema (schema : yaml) : result (list string) :=
  b <- py_in "paths" schema ;;
  if b then paths <- py_getitem schema "paths" ;; py_keys paths
  else Ok [].

(** The body of the loop over [comprehensive['paths'].items()]. *)
Definition stage (official_paths : list string) (missing_paths : dict)
    (entry : string * yaml) : result dict :=
  let normalized_path := normalize_path (fst entry) in
  if mem normalized_path official_paths then Ok missing_paths
  else
    converted_obj <- convert_param_names_in_path (snd entry) ;;
    let converted_obj := convert_param_refs converted_obj in
    Ok (dict_set normalized_path converted_obj missing_paths).

Definition tag (name description : string) : yaml :=
  YDict [("name", YStr name); ("description", YStr description)].

Definition new_tags : list yaml :=
  [ tag "admin" "Installation administration endpoints";
    tag "profile" "User profile management";
    tag "sessions" "Session management";
    tag "service-accounts" "Service account management for API access";
    tag "templates" "Template documents";
    tag "snapshots" "Document version snapshots";
    tag "proposals" "Document change proposals";
    tag "forms" "Grist forms";
    tag "timing" "Document timing and performance";
    tag "ai" "AI assistant features" ].

(** [{tag['name'] for tag in official.get('tags', [])}] *)
Definition existing_tags (official : yaml) : result (list yaml) :=
  tags <- py_get official "tags" (YList []) ;;
  elems <- py_iter tags ;;
  mapM (fun t => name <- py_getitem t "name" ;; py_hashable name) elems.

(** [official.setdefault('tags', []).append(tag)] *)
Definition append_tag (official : yaml) (t : yaml) : result yaml :=
  match official with
  | YDict d =>
      match dict_get "tags" d with
      | Some (YList l) => Ok (YDict (dict_set "tags" (YList (l ++ [t])) d))
      | Some _ => Raise AttributeError
      | None => Ok (YDict (dict_set "tags" (YList [t]) d))
      end
  | _ => Raise AttributeError
  end.

Definition add_tag (existing : list yaml) (official : yaml) (t : yaml)
  : result yaml :=
  name <- py_getitem t "name" ;;
  if existsb (fun e => match name with YStr s => is_str s e | _ => false end)
             existing
  then Ok official
  else append_tag official t.

(** [main] up to [yaml.dump]: from the two loaded documents to the
    document written. *)
Definition merge (official comprehensive : yaml) : result yaml :=
  official_paths <- get_paths_from_schema official ;;
  source_paths <- py_getitem comprehensive "paths" ;;
  items <- py_items source_paths ;;
  missing_paths <- foldM (stage official_paths) items [] ;;
  official <- foldM (fun official entry =>
                       setitem_in official "paths" (fst entry) (snd entry))
                    missing_paths official ;;
  existing <- existing_tags official ;;
  foldM (add_tag existing) new_tags official.

(** [main] to its end: once the document is written, the last report
    evaluates [len(official['paths'])]. *)
Definition merge_main (official comprehensive : yaml) : result yaml :=
  official <- merge official comprehensive ;;
  paths <- py_getitem official "paths" ;;
  _ <- py_len paths ;;
  Ok official.

(** ** [fix_merged_schema.py] *)

(** [outer[0] = x] seen from [outer], for the first item changed in place. *)
Definition set_first (outer : yaml) (x : yaml) : yaml :=
  match outer with
  | YList (_ :: r) => YList (x :: r)
  | _ => outer
  end.

(** Fix 1: server variables. *)
Definition fix_server (schema : yaml) : result yaml :=
  b <- py_in "servers" schema ;;
  if b then
    servers <- py_getitem schema "servers" ;;
    n <- py_len servers ;;
    if Nat.ltb 0 n then
      server <- py_index0 servers ;;
      server <- py_setitem server "url"
                  (YStr "https://{subdomain}.getgrist.com/api") ;;
      server <- py_setitem server "description" (YStr "Grist API server") ;;
      py_setitem schema "servers" (set_first servers server)
    else Ok schema
  else Ok schema.

(** [schema['paths'][path]['post'][field] = x], under the two tests
    [path in schema.get('paths', {})] and ['post' in schema['paths'][path]];
    the shape shared by Fix 2 and Fix 6. *)
Definition set_post_field (path field : string) (x : yaml) (schema : yaml)
  : result yaml :=
  paths <- py_get schema "paths" (YDict []) ;;
  b <- py_in path paths ;;
  if b then
    paths <- py_getitem schema "paths" ;;
    endpoint <- py_getitem paths path ;;
    b <- py_in "post" endpoint ;;
    if b then
      endpoint <- setitem_in endpoint "post" field x ;;
      paths <- py_setitem paths path endpoint ;;
      py_setitem schema "paths" paths
    else Ok schema
  else Ok schema.

(** Fix 2: the responses of [/docs/{docId}/states/remove]. *)
Definition fix_responses (schema : yaml) : result yaml :=
  set_post_field "/docs/{docId}/states/remove" "responses"
    (YDict [("200", YDict [("description", YStr "Success")])]) schema.

(** [del outer[k1][k2]] *)
Definition delitem_in (outer : yaml) (k1 k2 : string) : result yaml :=
  inner <- py_getitem outer k1 ;;
  match inner with
  | YDict d =>
      if dict_has k2 d then py_setitem outer k1 (YDict (dict_del k2 d))
      else Raise KeyError
  | _ => Raise TypeError
  end.

(** Fix 3: SCIM endpoints. *)
Definition remove_scim_paths (schema : yaml) : result yaml :=
  paths <- py_get schema "paths" (YDict []) ;;
  ks <- py_keys paths ;;
  let scim_paths := filter (fun k => Str.startswith k "/scim/") ks in
  foldM (fun schema path => delitem_in schema "paths" path) scim_paths schema.

(** Fix 4: the SCIM tag. *)
Definition remove_scim_tag (schema : yaml) : result yaml :=
  b <- py_in "tags" schema ;;
  if b then
    tags <- py_getitem schema "tags" ;;
    elems <- py_iter tags ;;
    kept <- filterM (fun t => name <- py_get t "name" YNull ;;
                              Ok (negb (is_str "scim" name))) elems ;;
    py_setitem schema "tags" (YList kept)
  else Ok schema.

(** Fixes 3 and 4 together: the removal of the SCIM endpoints and tag. *)
Definition fix_scim (schema : yaml) : result yaml :=
  schema <- remove_scim_paths schema ;;
  remove_scim_tag schema.

(** ['enum' in obj and isinstance(obj['enum'], list) and None in obj['enum']] *)
Definition null_enum (d : dict) : option (list yaml) :=
  match dict_get "enum" d with
  | Some (YList l) => if existsb is_null l then Some l else None
  | _ => None
  end.

(** The [if] that opens the dict case of [fix_null_enums]. *)
Definition repair_enum (d : dict) : dict :=
  match null_enum d with
  | Some l =>
      let d := dict_set "enum" (YList (filter (fun v => negb (is_null v)) l)) d in
      if dict_has "nullable" d then d
      else dict_set "nullable" (YBool true) d
  | None => d
  end.

(** Fix 5: [fix_null_enums], by recursion on a bound of the nesting
    depth: the walk goes on in the repaired dict. *)
Fixpoint fix_null_enums_upto (fuel : nat) (obj : yaml) : yaml :=
  match fuel with
  | O => obj
  | S fuel =>
      match obj with
      | YDict d =>
          YDict (map (fun kv => (fst kv, fix_null_enums_upto fuel (snd kv)))
                     (repair_enum d))
      | YList l => YList (map (fix_null_enums_upto fuel) l)
      | _ => obj
      end
  end.

Definition fix_null_enums (obj : yaml) : yaml :=
  fix_null_enums_upto (S (depth obj)) obj.

(** Fix 6: the duplicate operationId. *)
Definition fix_operation_id (schema : yaml) : result yaml :=
  set_post_field "/docs" "operationId" (YStr "createOrImportDoc") schema.

(** [find_schema_refs] and [find_param_refs] are one walk, for the
    pointer prefix of their category. *)
Fixpoint find_refs (pointer : string) (obj : yaml) : list string :=
  match obj with
  | YDict d =>
      flat_map (fun kv =>
                  match snd kv with
                  | YStr value =>
                      if String.eqb (fst kv) "$ref" && Str.startswith value pointer
                      then [Str.replace pointer "" value]
                      else []
                  | _ => find_refs pointer (snd kv)
                  end) d
  | YList l => flat_map (find_refs pointer) l
  | _ => []
  end.

Definition find_schema_refs : yaml -> list string :=
  find_refs "#/components/schemas/".

Definition find_param_refs : yaml -> list string :=
  find_refs "#/components/parameters/".

(** [doc.get('components', {}).get(category, {})] *)
Definition definitions (category : string) (doc : yaml) : result yaml :=
  components <- py_get doc "components" (YDict []) ;;
  py_get components category (YDict []).

(** [schema.setdefault('components', {}).setdefault(category, {})[name] = x] *)
Definition add_definition (category name : string) (x : yaml) (schema : yaml)
  : result yaml :=
  components <- py_get schema "components" (YDict []) ;;
  defs <- py_get components category (YDict []) ;;
  defs <- py_setitem defs name x ;;
  components <- py_setitem components category defs ;;
  py_setitem schema "components" components.

(** The body of the loops of Fix 7 and Fix 8. *)
Definition copy_missing (category : string) (comprehensive : yaml)
    (schema : yaml) (name : string) : result yaml :=
  target <- definitions category schema ;;
  b <- py_in name target ;;
  if b then Ok schema
  else
    source <- definitions category comprehensive ;;
    b <- py_in name source ;;
    if b then
      components <- py_getitem comprehensive "components" ;;
      defs <- py_getitem components category ;;
      x <- py_getitem defs name ;;
      add_definition category name x schema
    else Ok schema.

Section Main.

(** The order in which Python iterates over [set(refs)] is not fixed:
    some list of the distinct names. *)
Variable set_order : list string -> list string.

(** Fixes 7 and 8. *)
Definition copy_missing_definitions (category : string)
    (find : yaml -> list string) (comprehensive schema : yaml)
  : result yaml :=
  paths <- py_get schema "paths" (YDict []) ;;
  foldM (copy_missing category comprehensive) (set_order (find paths)) schema.

(** The repairs of [main], in the order of the script. *)
Definition repairs (schema : yaml) : result yaml :=
  schema <- fix_server schema ;;
  schema <- fix_responses schema ;;
  schema <- fix_scim schema ;;
  schema <- Ok (fix_null_enums schema) ;;
  fix_operation_id schema.

Definition fix_main (schema comprehensive : yaml) : result yaml :=
  schema <- repairs schema ;;
  schema <- copy_missing_definitions "schemas" find_schema_refs
              comprehensive schema ;;
  copy_missing_definitions "parameters" find_param_refs comprehensive schema.

End Main.

(** ** Notions used in the statements *)

(** [n] is a node of the tree [t]. *)
Inductive subnode (n : yaml) : yaml -> Prop :=
| sub_here : subnode n n
| sub_item (x : yaml) (l : list yaml) :
    In x l -> subnode n x -> subnode n (YList l)
| sub_entry (k : string) (v : yaml) (d : dict) :
    In (k, v) d -> subnode n v -> subnode n (YDict d).

(** A scalar other than [None]. *)
Definition plain_value (v : yaml) : bool :=
  match v with
  | YBool _ | YInt _ | YFloat _ | YStr _ => true
  | _ => false
  end.

(** A step down a tree, and the node a path of steps leads to. *)
Inductive step : Set :=
| Key (k : string)
| Idx (i : nat).

Definition child (s : step) (t : yaml) : option yaml :=
  match s, t with
  | Key k, YDict d => dict_get k d
  | Idx i, YList l => nth_error l i
  | _, _ => None
  end.

Fixpoint node_at (p : list step) (t : yaml) : option yaml :=
  match p with
  | [] => Some t
  | s :: r =>
      match child s t with
      | Some c => node_at r c
      | None => None
      end
  end.

(** The name of a parameter entry can be hashed. *)
Definition param_ok (p : yaml) : bool :=
  match p with
  | YDict d =>
      match dict_get "name" d with
      | Some (YList _) | Some (YDict _) => false
      | _ => true
      end
  | _ => true
  end.

Definition params_ok (key : string) (value : yaml) : bool :=
  match value with
  | YList params =>
      if String.eqb key "parameters" then forallb param_ok params else true
  | _ => true
  end.

(** Every entry of every ["parameters"] list of the tree has a name
    that can be hashed (or none). *)
Fixpoint names_ok (t : yaml) : bool :=
  match t with
  | YDict d =>
      forallb (fun kv => names_ok (snd kv) && params_ok (fst kv) (snd kv)) d
  | YList l => forallb names_ok l
  | _ => true
  end.

(** What [convert_param_refs] stores for the entry [key] of a dict. *)
Definition converted_ref (key : string) (value : yaml) : yaml :=
  match value with
  | YStr value =>
      if String.eqb key "$ref" then YStr (rewrite_ref value) else YStr value
  | _ => convert_param_refs value
  end.

(** A tag is a dict with a name that can be hashed. *)
Definition tag_ok (t : yaml) : bool :=
  match t with
  | YDict d =>
      match dict_get "name" d with
      | Some (YList _) | Some (YDict _) | None => false
      | Some _ => true
      end
  | _ => false
  end.

(** The tags of a document, when it has the key, are a list of tags. *)
Definition tags_ok (d : dict) : bool :=
  match dict_get "tags" d with
  | None => true
  | Some (YList l) => forallb tag_ok l
  | Some _ => false
  end.

(** The PathItems of a paths dict all have parameter names that can be
    hashed. *)
Definition items_ok (paths : dict) : bool :=
  forallb (fun entry => names_ok (snd entry)) paths.

(** The definitions of a category after the loop of Fix 7 or Fix 8 over
    [names], from the definitions [target] of the document and [source]
    of the comprehensive one. *)
Definition copied (source : dict) (names : list string) (target : dict) : dict :=
  fold_left
    (fun target name =>
       if dict_has name target then target
       else match dict_get name source with
            | Some x => dict_set name x target
            | None => target
            end)
    names target.

(** ** The repairs as updates under a key

    Each targeted repair reads and writes one entry of the document;
    on a dict it is [at_key] of the update of the value of that entry. *)

Definition at_key (k : string) (f : yaml -> result yaml) (schema : yaml)
  : result yaml :=
  match schema with
  | YDict d =>
      match dict_get k d with
      | Some v => v' <- f v ;; Ok (YDict (dict_set k v' d))
      | None => Ok schema
      end
  | _ => Raise TypeError
  end.

(** Fix 1 on the value of ["servers"]. *)
Definition server_value (servers : yaml) : result yaml :=
  n <- py_len servers ;;
  if Nat.ltb 0 n then
    server <- py_index0 servers ;;
    server <- py_setitem server "url"
                (YStr "https://{subdomain}.getgrist.com/api") ;;
    server <- py_setitem server "description" (YStr "Grist API server") ;;
    Ok (set_first servers server)
  else Ok servers.

(** Fixes 2 and 6 on the value of ["paths"], and on that of the path. *)
Definition endpoint_value (field : string) (x : yaml) (endpoint : yaml)
  : result yaml :=
  b <- py_in "post" endpoint ;;
  if b then setitem_in endpoint "post" field x else Ok endpoint.

Definition post_field_value (path field : string) (x : yaml) (paths : yaml)
  : result yaml :=
  b <- py_in path paths ;;
  if b then
    endpoint <- py_getitem paths path ;;
    endpoint <- endpoint_value field x endpoint ;;
    py_setitem paths path endpoint
  else Ok paths.

Definition not_scim (kv : string * yaml) : bool :=
  negb (Str.startswith (fst kv) "/scim/").

(** Fix 3 on the value of ["paths"]. *)
Definition scim_paths_value (paths : yaml) : result yaml :=
  match paths with
  | YDict d => Ok (YDict (filter not_scim d))
  | _ => Raise AttributeError
  end.

(** Fix 4 on the value of ["tags"]. *)
Definition scim_tag_value (tags : yaml) : result yaml :=
  elems <- py_iter tags ;;
  kept <- filterM (fun t => name <- py_get t "name" YNull ;;
                            Ok (negb (is_str "scim" name))) elems ;;
  Ok (YList kept).

(** The deletions of Fix 3 on the paths dict itself. *)
Definition del_keys (ks : list string) (paths : dict) : result dict :=
  foldM (fun acc k => if dict_has k acc then Ok (dict_del k acc)
                      else Raise KeyError) ks paths.

(** Fixes 3 and 4 as updates under ["paths"] and ["tags"]. *)
Definition scim_at (schema : yaml) : result yaml :=
  schema <- at_key "paths" scim_paths_value schema ;;
  at_key "tags" scim_tag_value schema.

(** The results of a repair are dicts, so what follows it matters on
    dicts only. *)
Definition dict_valued (X : yaml -> result yaml) : Prop :=
  forall (s : yaml) (g h : yaml -> result yaml),
    (forall d, g (YDict d) = h (YDict d)) -> bind (X s) g = bind (X s) h.

(** ** Commuting repairs *)

(** The same document, or an exception on both sides. *)
Definition same_outcome (x y : result yaml) : Prop :=
  match x, y with
  | Ok a, Ok b => a = b
  | Raise _, Raise _ => True
  | _, _ => False
  end.

Definition commute_at (X Y : yaml -> result yaml) (schema : yaml) : Prop :=
  same_outcome (s <- X schema ;; Y s) (s <- Y schema ;; X s).

Definition fix_enum (schema : yaml) : result yaml := Ok (fix_null_enums schema).

Definition targeted_repairs : list (yaml -> result yaml) :=
  [fix_server; fix_responses; fix_scim; fix_operation_id].

(** The enum repair adds the key ["nullable"] to the dict: its enum
    has a null and it has no ["nullable"] entry. *)
Definition adds_nullable (d : dict) : bool :=
  match null_enum d with
  | Some _ => negb (dict_has "nullable" d)
  | None => false
  end.

(** Of a repair that writes [fields] into the dict and the enum repair,
    at most one adds a key to it: the enum repair adds none, or the
    dict has the fields already. *)
Definition one_adds (fields : list string) (d : dict) : bool :=
  negb (adds_nullable d) || forallb (fun f => dict_has f d) fields.

(** The node at [path], when it is a dict, is such a dict. *)
Definition one_adds_at (fields : list string) (path : list step)
    (schema : yaml) : Prop :=
  forall d, node_at path schema = Some (YDict d) -> one_adds fields d = true.

(** So are the three dicts the targeted repairs write into. *)
Definition appends_apart (schema : yaml) : Prop :=
  one_adds_at ["url"; "description"] [Key "servers"; Idx 0] schema
  /\ one_adds_at ["responses"]
       [Key "paths"; Key "/docs/{docId}/states/remove"; Key "post"] schema
  /\ one_adds_at ["operationId"] [Key "paths"; Key "/docs"; Key "post"] schema.

(** ** Sample documents *)

Module Sample.

(** Two source entries with one normalized path. *)
Definition empty_target : yaml := YDict [("paths", YDict [])].

Definition colliding_source : yaml :=
  YDict [("paths", YDict [("/api/x", YDict [("get", YStr "first")]);
                          ("/x", YDict [("get", YStr "second")])])].

(** A document with a path of the comprehensive convention. *)
Definition api_doc : yaml :=
  YDict [("paths", YDict [("/api/x", YDict [])]); ("components", YDict [])].

(** A document whose paths are in the official convention. *)
Definition official_doc : dict :=
  [("paths", YDict [("/orgs/{orgId}", YDict []); ("/docs", YDict [])]);
   ("components", YDict [("schemas", YDict [])])].

(** A target whose tags are strings. *)
Definition string_tags_target : yaml :=
  YDict [("paths", YDict []); ("components", YDict []);
         ("tags", YList [YStr "admin"])].

Definition bare_source : yaml :=
  YDict [("paths", YDict []); ("components", YDict [])].

(** A PathItem with a path parameter, a pointer to a parameter, and an
    operation with a query parameter and a pointer to a schema. *)
Definition workspaces_item : yaml :=
  YDict
    [("parameters",
      YList [YDict [("name", YStr "oid"); ("in", YStr "path")];
             YDict [("$ref", YStr "#/components/parameters/OrgId")]]);
     ("get",
      YDict
        [("parameters",
          YList [YDict [("name", YStr "uid"); ("in", YStr "query")]]);
         ("responses",
          YDict [("200",
                  YDict [("schema",
                          YDict [("$ref",
                                  YStr "#/components/schemas/Workspace")])])])])].

Definition workspaces_source : dict :=
  [("paths", YDict [("/api/orgs/{oid}/workspaces", workspaces_item)]);
   ("components",
    YDict [("schemas",
            YDict [("Workspace", YDict [("type", YStr "object")])]);
           ("parameters",
            YDict [("OrgId", YDict [("name", YStr "oid")])])])].

Definition docs_target : dict :=
  [("paths", YDict [("/docs", YDict [("post", YDict [])])])].

(** A node with a null in its enum, inside a schema. *)
Definition enum_node : dict :=
  [("type", YStr "string"); ("enum", YList [YStr "a"; YStr "b"; YNull])].

Definition enum_doc : yaml :=
  YDict [("components", YDict [("schemas", YDict [("Kind", YDict enum_node)])])].

(** A PathItem with pointers the two rename tables treat differently. *)
Definition refs_item : yaml :=
  YDict [("parameters",
          YList [YDict [("$ref", YStr "#/components/parameters/oid")];
                 YDict [("$ref", YStr "#/components/parameters/OrgId")];
                 YDict [("$ref", YStr "#/components/parameters/OrgIdentifier")]])].

Definition refs_source : yaml :=
  YDict [("paths", YDict [("/api/orgs/{oid}", refs_item)])].

(** A source whose only path is a SCIM endpoint referring to a schema. *)
Definition scim_source : yaml :=
  YDict [("paths",
          YDict [("/api/scim/Users",
                  YDict [("get",
                          YDict [("$ref", YStr "#/components/schemas/User")])])]);
         ("components",
          YDict [("schemas", YDict [("User", YDict [("type", YStr "object")])])])].

(** A document whose [/docs] operation has an enum with a null of its
    own. *)
Definition enum_operation_doc : yaml :=
  YDict [("paths",
          YDict [("/docs", YDict [("post", YDict [("enum", YList [YNull])])])])].

(** A document with a server, the two targeted operations, a SCIM path
    and tag, and a schema with a null in its enum. *)
Definition full_doc : dict :=
  [("servers", YList [YDict [("url", YStr "https://{gristhost}/api")]]);
   ("paths",
    YDict [("/docs", YDict [("post", YDict [("operationId", YStr "createDoc")])]);
           ("/docs/{docId}/states/remove", YDict [("post", YDict [])]);
           ("/scim/Users", YDict [])]);
   ("tags", YList [YDict [("name", YStr "scim")];
                   YDict [("name", YStr "docs")]]);
   ("components", YDict [("schemas", YDict [("Kind", YDict enum_node)])])].

End Sample.

(** ** Notions used in the further properties *)

(** No suffix of [z] starts like [t]: each differs from [t] at a
    position both have. *)
Fixpoint apart (t z : string) : bool :=
  match z with
  | "" => true
  | String _ r => Str.diverge t z && apart t r
  end.

(** A tag whose name is ["scim"]. *)
Definition named_scim (t : yaml) : bool :=
  match node_at [Key "name"] t with
  | Some name => is_str "scim" name
  | None => false
  end.

(** The names of a list of tags, as [existing_tags] collects them. *)
Definition names_of (tags : list yaml) : list yaml :=
  map (fun t => match node_at [Key "name"] t with
                | Some name => name
                | None => YNull
                end) tags.

(** The tag has a string name that is among [names]. *)
Definition has_name (names : list yaml) (t : yaml) : bool :=
  match node_at [Key "name"] t with
  | Some (YStr s) => existsb (is_str s) names
  | _ => false
  end.

(** The curated tags a merge appends to tags named [names]. *)
Definition tags_to_add (names : list yaml) : list yaml :=
  filter (fun t => negb (has_name names t)) new_tags.

(** What Fix 2 and Fix 6 do to a document [s], giving [s']: the field
    of the [post] operation of the path is [x], if the operation is
    there, and nothing else differs. *)
Definition writes_post_field (path field : string) (x : yaml) (s s' : yaml)
  : Prop :=
  (forall post,
     node_at [Key "paths"; Key path; Key "post"] s = Some post ->
     node_at [Key "paths"; Key path; Key "post"; Key field] s' = Some x
     /\ forall k, k <> field ->
                  node_at [Key "paths"; Key path; Key "post"; Key k] s'
                  = node_at [Key "paths"; Key path; Key "post"; Key k] s)
  /\ (node_at [Key "paths"; Key path; Key "post"] s = None -> s' = s)
  /\ (forall m, m <> "post" ->
                node_at [Key "paths"; Key path; Key m] s'
                = node_at [Key "paths"; Key path; Key m] s)
  /\ (forall p, p <> path ->
                node_at [Key "paths"; Key p] s' = node_at [Key "paths"; Key p] s)
  /\ (forall k, k <> "paths" -> node_at [Key k] s' = node_at [Key k] s).

(** A scalar that is not a string the table of parameter names changes. *)
Definition not_renamed (v : yaml) : Prop :=
  depth v = 0
  /\ forall s new, v = YStr s -> assoc s param_name_map = Some new -> new = s.

(** The document has no SCIM endpoint and no SCIM tag. *)
Definition no_scim (s : yaml) : Prop :=
  (forall k v, node_at [Key "paths"; Key k] s = Some v ->
               Str.startswith k "/scim/" = false)
  /\ (forall i t, node_at [Key "tags"; Idx i] s = Some t ->
                  node_at [Key "name"] t <> Some (YStr "scim")).

(** The document shape the repairs expect. *)
Definition is_dict (v : yaml) : bool :=
  match v with YDict _ => true | _ => false end.

(** The PathItem of [path], if any, is a dict whose [post], if any, is
    a dict. *)
Definition operation_ok (path : string) (paths : yaml) : bool :=
  match paths with
  | YDict tp =>
      match dict_get path tp with
      | None => true
      | Some (YDict ed) =>
          match dict_get "post" ed with
          | None | Some (YDict _) => true
          | Some _ => false
          end
      | Some _ => false
      end
  | _ => false
  end.

Definition operation_ok_in (path : string) (d : dict) : bool :=
  match dict_get "paths" d with
  | None => true
  | Some paths => operation_ok path paths
  end.

(** Servers, when present, are a list whose first item is a dict; the
    two operations the repairs write into are dicts; tags, when
    present, are a list of dicts. *)
Definition document_ok (d : dict) : bool :=
  match dict_get "servers" d with
  | None | Some (YList []) | Some (YList (YDict _ :: _)) => true
  | Some _ => false
  end
  && (operation_ok_in "/docs/{docId}/states/remove" d
      && operation_ok_in "/docs" d)
  && match dict_get "tags" d with
     | None => true
     | Some (YList l) => forallb is_dict l
     | Some _ => false
     end.

(** The names one entry of a dict contributes to [find_refs]. *)
Definition entry_refs (pointer : string) (kv : string * yaml) : list string :=
  match snd kv with
  | YStr value =>
      if String.eqb (fst kv) "$ref" && Str.startswith value pointer
      then [Str.replace pointer "" value]
      else []
  | _ => find_refs pointer (snd kv)
  end.

(** * Properties *)

(** ** Strings *)

Module StrFacts.
Import Str.
#[local] Open Scope string_scope.

Lemma prefix_app (p r : string) : prefix p (p ++ r) = true.
Proof.
  induction p as [|c p IH]; simpl.
  - destruct r; reflexivity.
  - destruct (ascii_dec c c); [exact IH | congruence].
Qed.

Lemma prefix_nil (s : string) : prefix "" s = true.
Proof. destruct s; reflexivity. Qed.

Lemma prefix_cons (c d : ascii) (p s : string) :
  prefix (String c p) (String d s) = Ascii.eqb c d && prefix p s.
Proof.
  simpl. destruct (ascii_dec c d) as [->|n].
  - rewrite Ascii.eqb_refl. reflexivity.
  - apply Ascii.eqb_neq in n. rewrite n. reflexivity.
Qed.

Lemma prefix_split (p s : string) :
  prefix p s = true -> s = p ++ drop (length p) s.
Proof.
  revert s. induction p as [|c p IH]; intros s H.
  - reflexivity.
  - destruct s as [|d s]; [discriminate|].
    rewrite prefix_cons in H. apply andb_prop in H as [Hc Hp].
    apply Ascii.eqb_eq in Hc. subst d. simpl. f_equal. apply IH, Hp.
Qed.

Lemma drop_app (p r : string) : drop (length p) (p ++ r) = r.
Proof. induction p; simpl; auto. Qed.

Lemma length_app (a b : string) : length (a ++ b) = length a + length b.
Proof. induction a; simpl; auto. Qed.

Lemma app_assoc (a b c : string) : (a ++ b) ++ c = a ++ b ++ c.
Proof. induction a; simpl; congruence. Qed.

Lemma app_nil_r (a : string) : a ++ "" = a.
Proof. induction a; simpl; congruence. Qed.

Lemma replace_from_skip (old new : string) (k : nat) (s : string) :
  replace_from k old new s = replace_from 0 old new (drop k s).
Proof.
  revert k. induction s as [|c s IH]; intros [|k]; simpl; auto.
Qed.

Section Scan.
(** A non-empty pattern, [String c0 o]. *)
Variables (c0 : ascii) (o new : string).
Let old := String c0 o.

Lemma replace_empty : replace old new "" = "".
Proof. reflexivity. Qed.

Lemma replace_hit (r : string) :
  replace old new (old ++ r) = new ++ replace old new r.
Proof.
  unfold replace, old. cbn [append replace_from].
  change (String c0 (o ++ r)) with (String c0 o ++ r).
  rewrite prefix_app. f_equal.
  rewrite replace_from_skip.
  replace (length (String c0 o) - 1) with (length o) by (simpl; lia).
  rewrite drop_app. reflexivity.
Qed.

Lemma replace_miss (c : ascii) (r : string) :
  prefix old (String c r) = false ->
  replace old new (String c r) = String c (replace old new r).
Proof.
  intros H. unfold replace, old in *. cbn [replace_from]. rewrite H.
  reflexivity.
Qed.

(** Induction along the scan. *)
Lemma scan_ind (P : string -> Prop) :
  P "" ->
  (forall r, P r -> P (old ++ r)) ->
  (forall c r, prefix old (String c r) = false -> P r -> P (String c r)) ->
  forall s, P s.
Proof.
  intros H0 Hhit Hmiss s.
  remember (length s) as n eqn:Hn.
  revert s Hn. induction n as [n IH] using lt_wf_ind. intros s Hn.
  destruct s as [|c r]; [exact H0|].
  destruct (prefix old (String c r)) eqn:Hp.
  - apply prefix_split in Hp. rewrite Hp. apply Hhit.
    apply (IH (length (drop (length old) (String c r)))); [|reflexivity].
    subst n. rewrite Hp at 2. rewrite length_app. unfold old. simpl. lia.
  - apply Hmiss; [exact Hp|]. apply (IH (length r)); [|reflexivity].
    subst n. simpl. lia.
Qed.

Lemma replace_absent (s : string) :
  contains old s = false -> replace old new s = s.
Proof.
  induction s as [|c r IH]; intros H.
  - reflexivity.
  - cbn [contains] in H. apply orb_false_elim in H as [Hp Hc].
    rewrite replace_miss by exact Hp. f_equal. apply IH, Hc.
Qed.

Lemma prefix_app_nochar (p a : string) (c : ascii) (r : string) :
  has_char c p = false -> prefix p (a ++ String c r) = prefix p a.
Proof.
  revert a. induction p as [|d p IH]; intros a H.
  - rewrite !prefix_nil. reflexivity.
  - cbn [has_char] in H. apply orb_false_elim in H as [Hd Hp].
    destruct a as [|e a].
    + cbn [append]. rewrite prefix_cons.
      rewrite Ascii.eqb_sym, Hd. reflexivity.
    + cbn [append]. rewrite !prefix_cons. rewrite IH by exact Hp.
      reflexivity.
Qed.

(** No occurrence straddles a character that is not in the tail of
    the pattern. *)
Lemma replace_app_at (c : ascii) (a r : string) :
  has_char c o = false ->
  replace old new (a ++ String c r)
  = replace old new a ++ replace old new (String c r).
Proof.
  intros Hc. induction a as [| a IH | d a Hp IH] using scan_ind.
  - reflexivity.
  - rewrite app_assoc, !replace_hit, IH, app_assoc. reflexivity.
  - cbn [append]. rewrite (replace_miss d (a ++ String c r)).
    + rewrite (replace_miss d a Hp), IH. reflexivity.
    + unfold old in *. rewrite prefix_cons in *.
      rewrite prefix_app_nochar by exact Hc. exact Hp.
Qed.

(** Characters other than the first of the pattern are copied. *)
Lemma replace_copy (t b : string) :
  has_char c0 t = false ->
  replace old new (t ++ b) = t ++ replace old new b.
Proof.
  induction t as [|d t IH]; intros H.
  - reflexivity.
  - cbn [has_char] in H. apply orb_false_elim in H as [Hd Ht].
    cbn [append]. rewrite replace_miss.
    + rewrite IH by exact Ht. reflexivity.
    + unfold old. rewrite prefix_cons, Hd. reflexivity.
Qed.

End Scan.

Lemma contains_nil_l (t : string) : contains t "" = prefix t "".
Proof. simpl. apply orb_false_r. Qed.

Lemma contains_app_r (t a b : string) :
  contains t b = true -> contains t (a ++ b) = true.
Proof.
  intros H. induction a as [|c a IH]; [exact H|].
  cbn [append contains]. rewrite IH. apply orb_true_r.
Qed.

Lemma contains_intro (t a b : string) : contains t (a ++ t ++ b) = true.
Proof.
  apply contains_app_r. destruct t as [|c t].
  - destruct b; reflexivity.
  - cbn [append contains].
    change (String c (t ++ b)) with (String c t ++ b).
    rewrite prefix_app. reflexivity.
Qed.

Lemma contains_elim (t s : string) :
  contains t s = true -> exists a b, s = a ++ t ++ b.
Proof.
  induction s as [|c s IH]; cbn [contains]; intros H.
  - rewrite orb_false_r in H. apply prefix_split in H.
    exists "", (drop (length t) ""). exact H.
  - apply orb_prop in H as [H|H].
    + apply prefix_split in H. exists "", (drop (length t) (String c s)).
      exact H.
    + destruct (IH H) as (a & b & ->). exists (String c a), b. reflexivity.
Qed.

Lemma prefix_app_l (p x s : string) :
  prefix (p ++ x) s = true -> prefix p s = true.
Proof.
  revert s. induction p as [|c p IH]; intros s H.
  - apply prefix_nil.
  - destruct s as [|d s]; [discriminate|]. cbn [append] in H.
    rewrite prefix_cons in *. apply andb_prop in H as [H1 H2].
    rewrite H1. apply IH, H2.
Qed.

Lemma contains_longer (p x s : string) :
  contains p s = false -> contains (p ++ x) s = false.
Proof.
  induction s as [|c s IH]; cbn [contains]; intros H;
    apply orb_false_elim in H as [H1 H2].
  - destruct (prefix (p ++ x) "") eqn:E; [|reflexivity].
    apply prefix_app_l in E. congruence.
  - rewrite (IH H2), orb_false_r.
    destruct (prefix (p ++ x) (String c s)) eqn:E; [|reflexivity].
    apply prefix_app_l in E. congruence.
Qed.

Lemma diverge_prefix (a b w : string) :
  diverge a b = true -> prefix a (b ++ w) = false.
Proof.
  revert b. induction a as [|c a IH]; intros [|d b] H; try discriminate.
  cbn [diverge] in H. cbn [append]. rewrite prefix_cons.
  destruct (Ascii.eqb c d); [|reflexivity]. apply IH, H.
Qed.

Lemma diverge_sym (a b : string) : diverge a b = diverge b a.
Proof.
  revert b. induction a as [|c a IH]; intros [|d b]; try reflexivity.
  cbn [diverge]. rewrite IH, (Ascii.eqb_sym c d). reflexivity.
Qed.

Section Tokens.
(** Pattern and replacement both start with [c0], which occurs
    nowhere else in the replacement. *)
Variables (c0 : ascii) (o z : string).
Let old := String c0 o.
Let new := String c0 z.

Lemma replace_prefix_nochar (u s : string) :
  has_char c0 u = false ->
  prefix u (replace old new s) = prefix u s.
Proof.
  revert s. induction u as [|d u IH]; intros s H.
  - rewrite !prefix_nil. reflexivity.
  - cbn [has_char] in H. apply orb_false_elim in H as [Hd Hu].
    destruct s as [|e r]; [reflexivity|].
    destruct (prefix old (String e r)) eqn:Hp.
    + assert (He : e = c0).
      { unfold old in Hp. rewrite prefix_cons in Hp.
        apply andb_prop in Hp as [Hp _]. apply Ascii.eqb_eq in Hp. auto. }
      apply prefix_split in Hp. rewrite Hp at 1.
      unfold old. rewrite replace_hit. subst e. unfold new. cbn [append].
      rewrite !prefix_cons, (Ascii.eqb_sym d c0), Hd. reflexivity.
    + unfold old in *. rewrite replace_miss by exact Hp.
      rewrite !prefix_cons, (IH r Hu). reflexivity.
Qed.

Lemma contains_skip_nochar (u t w : string) :
  has_char c0 t = false ->
  contains (String c0 u) (t ++ w) = contains (String c0 u) w.
Proof.
  induction t as [|d t IH]; intros H; [reflexivity|].
  cbn [has_char] in H. apply orb_false_elim in H as [Hd Ht].
  cbn [append contains]. rewrite prefix_cons, Hd. apply IH, Ht.
Qed.

(** A token that is the pattern, or is absent, is absent from the
    result. *)
Lemma replace_token_absent (u s : string) :
  has_char c0 u = false ->
  has_char c0 z = false ->
  diverge (String c0 u) new = true ->
  String c0 u = old \/ contains (String c0 u) s = false ->
  contains (String c0 u) (replace old new s) = false.
Proof.
  unfold old, new. intros Hu Hz Hdiv.
  induction s as [| r IH | c r Hp IH] using (scan_ind c0 o); intros Hs.
  - reflexivity.
  - rewrite replace_hit.
    assert (Hr : String c0 u = String c0 o \/ contains (String c0 u) r = false).
    { destruct Hs as [Hs|Hs]; [left; exact Hs|right].
      destruct (contains (String c0 u) r) eqn:E; [|reflexivity].
      rewrite (contains_app_r _ (String c0 o) _ E) in Hs. discriminate. }
    specialize (IH Hr).
    pose proof (diverge_prefix _ _ (replace (String c0 o) (String c0 z) r) Hdiv)
      as Hd.
    cbn [append] in *. cbn [contains]. rewrite Hd. cbn [orb].
    rewrite contains_skip_nochar by exact Hz. exact IH.
  - rewrite replace_miss by exact Hp.
    assert (Hr : String c0 u = String c0 o \/ contains (String c0 u) r = false).
    { destruct Hs as [Hs|Hs]; [left; exact Hs|right].
      cbn [contains] in Hs. apply orb_false_elim in Hs as [_ H2]. exact H2. }
    cbn [contains]. rewrite (IH Hr), orb_false_r.
    rewrite prefix_cons.
    pose proof (replace_prefix_nochar u r Hu) as Hq.
    unfold old, new in Hq. rewrite Hq, <- prefix_cons.
    destruct Hs as [Hs|Hs].
    + rewrite Hs. exact Hp.
    + cbn [contains] in Hs. apply orb_false_elim in Hs as [H1 _]. exact H1.
Qed.

End Tokens.

Section Keep.
Variables (c0 : ascii) (o new : string).
Let old := String c0 o.

(** An occurrence of the pattern becomes one of the replacement. *)
Lemma replace_makes (s : string) :
  has_char c0 o = false ->
  contains old s = true -> contains new (replace old new s) = true.
Proof.
  intros Ho H. apply contains_elim in H as (a & b & ->).
  unfold old. cbn [append].
  rewrite replace_app_at by exact Ho.
  change (String c0 (o ++ b)) with (String c0 o ++ b).
  rewrite replace_hit. apply contains_intro.
Qed.

(** A string none of whose characters starts the pattern, and whose
    first character is not in the pattern's tail, stays. *)
Lemma replace_keeps_foreign (t0 : ascii) (tx s : string) :
  has_char t0 o = false ->
  has_char c0 (String t0 tx) = false ->
  contains (String t0 tx) s = true ->
  contains (String t0 tx) (replace old new s) = true.
Proof.
  intros Ht Hc H. apply contains_elim in H as (a & b & ->).
  unfold old. cbn [append].
  rewrite replace_app_at by exact Ht.
  change (String t0 (tx ++ b)) with (String t0 tx ++ b).
  rewrite replace_copy by exact Hc. apply contains_intro.
Qed.

(** Another token with the same opening character stays. *)
Lemma replace_keeps_token (tx s : string) :
  has_char c0 o = false ->
  has_char c0 tx = false ->
  diverge old (String c0 tx) = true ->
  contains (String c0 tx) s = true ->
  contains (String c0 tx) (replace old new s) = true.
Proof.
  intros Ho Hx Hdiv H. apply contains_elim in H as (a & b & ->).
  unfold old. cbn [append].
  rewrite replace_app_at by exact Ho.
  rewrite replace_miss.
  - rewrite replace_copy by exact Hx.
    apply (contains_intro (String c0 tx) (replace (String c0 o) new a)).
  - change (String c0 (tx ++ b)) with (String c0 tx ++ b).
    apply diverge_prefix, Hdiv.
Qed.

End Keep.

End StrFacts.

(** ** [normalize_path] *)

Section NormalizePath.
Import Str StrFacts.
#[local] Open Scope string_scope.

Lemma rename_tokens_unfold (p : string) :
rename_tokens p
= replace "{vsId}" "{formId}"
    (replace "{said}" "{serviceAccountId}"
       (replace "{uid}" "{userId}"
          (replace "{attId}" "{attachmentId}"
             (replace "{wid}" "{workspaceId}"
                (replace "{oid}" "{orgId}" p))))).
Proof. reflexivity. Qed.

Ltac token_absent :=
first
  [ apply replace_token_absent;
    [reflexivity | reflexivity | reflexivity | left; reflexivity]
  | apply replace_token_absent;
    [reflexivity | reflexivity | reflexivity | right; token_absent] ].

(** No short token is left by the renaming loop. *)
Lemma rename_tokens_absent (p old : string) :
In old (map fst param_replacements) ->
contains old (rename_tokens p) = false.
Proof.
intros H. rewrite rename_tokens_unfold.
cbn in H.
repeat (destruct H as [<-|H]; [token_absent|]).
destruct H.
Qed.

Lemma rename_tokens_fixed (q : string) :
(forall old, In old (map fst param_replacements) -> contains old q = false) ->
rename_tokens q = q.
Proof.
intros H. rewrite rename_tokens_unfold.
rewrite (replace_absent "{" "oid}" _ q) by (apply H; cbn; tauto).
rewrite (replace_absent "{" "wid}" _ q) by (apply H; cbn; tauto).
rewrite (replace_absent "{" "attId}" _ q) by (apply H; cbn; tauto).
rewrite (replace_absent "{" "uid}" _ q) by (apply H; cbn; tauto).
rewrite (replace_absent "{" "said}" _ q) by (apply H; cbn; tauto).
apply (replace_absent "{" "vsId}" _ q). apply H; cbn; tauto.
Qed.

Lemma rename_tokens_idem (p : string) :
rename_tokens (rename_tokens p) = rename_tokens p.
Proof. apply rename_tokens_fixed. intros old. apply rename_tokens_absent. Qed.

(** Re-normalizing changes nothing once no ["/api"] is left. *)
Lemma normalize_path_fixed (p : string) :
contains "/api" (normalize_path p) = false ->
normalize_path (normalize_path p) = normalize_path p.
Proof.
intros H. unfold normalize_path at 1.
rewrite (replace_absent "/" "api/" "/" (normalize_path p))
  by (apply (contains_longer "/api" "/"), H).
rewrite (replace_absent "/" "api" "/" (normalize_path p)) by exact H.
apply rename_tokens_idem.
Qed.

(** A ["{oid}"] of the path ends as ["{orgId}"]. *)
Lemma normalize_path_oid (p : string) :
contains "{oid}" p = true ->
contains "{orgId}" (normalize_path p) = true.
Proof.
intros H. unfold normalize_path. rewrite rename_tokens_unfold.
do 5 (apply replace_keeps_token; [reflexivity | reflexivity | reflexivity |]).
apply replace_makes; [reflexivity|].
do 2 (apply replace_keeps_foreign; [reflexivity | reflexivity |]).
exact H.
Qed.

Lemma normalize_path_no_oid (p : string) :
contains "{oid}" (normalize_path p) = false.
Proof. apply rename_tokens_absent. cbn. tauto. Qed.

(** A first segment that only begins with the letters [api] loses them. *)
Lemma normalize_path_api_letters (w : string) :
has_char "/" w = false -> has_char "{" w = false ->
normalize_path ("/api" ++ w) = "/" ++ w.
Proof.
intros Hs Hb. unfold normalize_path.
assert (H1 : replace "/api/" "/" ("/api" ++ w) = "/api" ++ w).
{ cbn [append]. rewrite replace_miss.
  - f_equal. change (String "a" (String "p" (String "i" w))) with ("api" ++ w).
    rewrite <- (app_nil_r ("api" ++ w)) at 1.
    rewrite replace_copy; [apply app_nil_r|].
    cbn [append has_char]. rewrite Hs. reflexivity.
  - rewrite !prefix_cons. cbn.
    destruct w as [|c w]; [reflexivity|].
    cbn [has_char] in Hs. apply orb_false_elim in Hs as [Hs _].
    rewrite prefix_cons, Hs. reflexivity. }
rewrite H1.
assert (H2 : replace "/api" "/" ("/api" ++ w) = "/" ++ w).
{ rewrite replace_hit. f_equal.
  rewrite <- (app_nil_r w) at 1. rewrite replace_copy by exact Hs.
  apply app_nil_r. }
rewrite H2.
apply rename_tokens_fixed. intros old Hin.
cbn in Hin.
assert (Hno : forall u, contains (String "{" u) ("/" ++ w) = false).
{ intros u. rewrite <- (app_nil_r ("/" ++ w)).
  rewrite contains_skip_nochar; [reflexivity|].
  cbn [append has_char]. rewrite Hb. reflexivity. }
repeat (destruct Hin as [<-|Hin]; [apply Hno|]). destruct Hin.
Qed.

End NormalizePath.

(** ** The tree model *)

Lemma list_max_in (A : Type) (f : A -> nat) (x : A) (l : list A) :
  In x l -> f x <= list_max (map f l).
Proof.
  induction l as [|a l IH]; intros H; [destruct H|].
  simpl. destruct H as [->|H]; [lia|].
  specialize (IH H). lia.
Qed.

Lemma depth_item (x : yaml) (l : list yaml) :
  In x l -> depth x < depth (YList l).
Proof. intros H. apply (list_max_in _ depth) in H. cbn [depth]. lia. Qed.

Lemma depth_entry (kv : string * yaml) (d : dict) :
  In kv d -> depth (snd kv) < depth (YDict d).
Proof.
  intros H. apply (list_max_in _ (fun kv => depth (snd kv))) in H.
  cbn [depth]. lia.
Qed.

(** Induction on the nesting depth. *)
Lemma depth_ind (P : yaml -> Prop) :
  (forall t, (forall t', depth t' < depth t -> P t') -> P t) ->
  forall t, P t.
Proof.
  intros H t. remember (depth t) as n eqn:Hn. revert t Hn.
  induction n as [n IH] using lt_wf_ind. intros t ->.
  apply H. intros t' Hlt. apply (IH (depth t') Hlt t' eq_refl).
Qed.

(** ** Loops *)

Lemma mapM_ext_in (A B : Type) (f g : A -> result B) (l : list A) :
  (forall a, In a l -> f a = g a) -> mapM f l = mapM g l.
Proof.
  induction l as [|a l IH]; intros H; [reflexivity|].
  cbn [mapM]. rewrite (H a (or_introl eq_refl)).
  rewrite IH; [reflexivity|]. intros b Hb. apply H. right. exact Hb.
Qed.

Lemma mapM_pure (A B : Type) (f : A -> B) (l : list A) :
  mapM (fun a => Ok (f a)) l = Ok (map f l).
Proof.
  induction l as [|a l IH]; [reflexivity|]. cbn [mapM map bind].
  rewrite IH. reflexivity.
Qed.

Lemma mapM_ok_inv (A B : Type) (f : A -> result B) (a : A) (l : list A)
    (r : list B) :
  mapM f (a :: l) = Ok r ->
  exists b bs, f a = Ok b /\ mapM f l = Ok bs /\ r = b :: bs.
Proof.
  cbn [mapM]. destruct (f a) as [b|e]; cbn [bind]; [|discriminate].
  destruct (mapM f l) as [bs|e]; cbn [bind]; [|discriminate].
  intros [= <-]. exists b, bs. auto.
Qed.

Lemma mapM_total (A B : Type) (f : A -> result B) (l : list A) :
  Forall (fun a => exists b, f a = Ok b) l -> exists r, mapM f l = Ok r.
Proof.
  induction 1 as [|a l [b Hb] _ [r Hr]]; [exists []; reflexivity|].
  exists (b :: r). cbn [mapM]. rewrite Hb, Hr. reflexivity.
Qed.

Lemma bind_ok (A B : Type) (a : A) (k : A -> result B) : bind (Ok a) k = k a.
Proof. reflexivity. Qed.

Lemma bind_ok_inv (A B : Type) (r : result A) (k : A -> result B) (b : B) :
  bind r k = Ok b -> exists a, r = Ok a /\ k a = Ok b.
Proof. destruct r as [a|e]; [eauto|discriminate]. Qed.

(** ** Dicts *)

Lemma dict_set_depth (k : string) (x : yaml) (d : dict) :
  list_max (map (fun kv => depth (snd kv)) (dict_set k x d))
  <= Nat.max (depth x) (list_max (map (fun kv => depth (snd kv)) d)).
Proof.
  induction d as [|[k' v'] d IH]; simpl.
  - lia.
  - destruct (String.eqb k k'); simpl; lia.
Qed.

Lemma dict_get_in (k : string) (v : yaml) (d : dict) :
  dict_get k d = Some v -> exists k', In (k', v) d.
Proof.
  induction d as [|[k' v'] d IH]; simpl; [discriminate|].
  destruct (String.eqb k k').
  - intros [= ->]. exists k'. left. reflexivity.
  - intros H. destruct (IH H) as [k'' Hin]. exists k''. right. exact Hin.
Qed.

Lemma dict_get_set_same (k : string) (x : yaml) (d : dict) :
  dict_get k (dict_set k x d) = Some x.
Proof.
  induction d as [|[k' v'] d IH]; simpl.
  - rewrite String.eqb_refl. reflexivity.
  - destruct (String.eqb k k') eqn:E; simpl.
    + rewrite String.eqb_refl. reflexivity.
    + rewrite E. exact IH.
Qed.

Lemma dict_get_set_other (k k' : string) (x : yaml) (d : dict) :
  k <> k' -> dict_get k (dict_set k' x d) = dict_get k d.
Proof.
  intros Hne. induction d as [|[k2 v2] d IH]; simpl.
  - apply String.eqb_neq in Hne. rewrite Hne. reflexivity.
  - destruct (String.eqb k' k2) eqn:E; simpl.
    + apply String.eqb_eq in E. subst k2.
      apply String.eqb_neq in Hne. rewrite Hne. reflexivity.
    + destruct (String.eqb k k2); [reflexivity|exact IH].
Qed.

Lemma dict_get_map (f : string -> yaml -> yaml) (k : string) (d : dict) :
  dict_get k (map (fun kv => (fst kv, f (fst kv) (snd kv))) d)
  = option_map (f k) (dict_get k d).
Proof.
  induction d as [|[k' v'] d IH]; simpl; [reflexivity|].
  destruct (String.eqb k k') eqn:E; [|exact IH].
  apply String.eqb_eq in E. subst k'. reflexivity.
Qed.

(** ** The recursive walks do not depend on the bound *)

Lemma rename_param_depth (p p' : yaml) :
  rename_param p = Ok p' -> depth p' <= depth p.
Proof.
  destruct p as [| | | | |l|d]; cbn [rename_param]; try (intros [= <-]; lia).
  destruct (dict_get "name" d) as [old_name|]; [|intros [= <-]; lia].
  destruct old_name; cbn [py_hashable bind]; try (intros [= <-]; lia);
    try discriminate.
  destruct (assoc s param_name_map); intros [= <-]; [|lia].
  cbn [depth]. pose proof (dict_set_depth "name" (YStr s0) d) as H.
  cbn [depth] in H. lia.
Qed.

Lemma mapM_rename_depth (ps ps' : list yaml) :
  mapM rename_param ps = Ok ps' ->
  list_max (map depth ps') <= list_max (map depth ps).
Proof.
  revert ps'. induction ps as [|p ps IH]; intros ps' H.
  - injection H as <-. reflexivity.
  - apply mapM_ok_inv in H as (b & bs & Hb & Hbs & ->).
    apply rename_param_depth in Hb. specialize (IH bs Hbs). simpl. lia.
Qed.

Lemma rename_params_depth (key : string) (v v' : yaml) :
  rename_params key v = Ok v' -> depth v' <= depth v.
Proof.
  destruct v; cbn [rename_params]; try (intros [= <-]; lia).
  destruct (String.eqb key "parameters"); [|intros [= <-]; lia].
  intros H. apply bind_ok_inv in H as (ps' & H & [= <-]).
  apply mapM_rename_depth in H. cbn [depth]. lia.
Qed.

Lemma convert_param_names_upto_stable (n m : nat) (t : yaml) :
  depth t < n -> depth t < m ->
  convert_param_names_upto n t = convert_param_names_upto m t.
Proof.
  revert m t. induction n as [|n IH]; intros m t Hn Hm; [lia|].
  destruct m as [|m]; [lia|].
  destruct t as [| | | | |l|d]; try reflexivity; cbn [convert_param_names_upto].
  - f_equal. apply mapM_ext_in. intros x Hx. apply depth_item in Hx.
    apply IH; lia.
  - f_equal. apply mapM_ext_in. intros kv Hkv. apply depth_entry in Hkv.
    destruct (rename_params (fst kv) (snd kv)) as [v|e] eqn:E; [|reflexivity].
    apply rename_params_depth in E. cbn [bind]. rewrite (IH m v); [reflexivity| |]; lia.
Qed.

Lemma convert_param_names_dict (d : dict) :
  convert_param_names_in_path (YDict d)
  = new_obj <- mapM (fun kv =>
                       value <- rename_params (fst kv) (snd kv) ;;
                       converted <- convert_param_names_in_path value ;;
                       Ok (fst kv, converted)) d ;;
    Ok (YDict new_obj).
Proof.
  unfold convert_param_names_in_path at 1. cbn [convert_param_names_upto].
  f_equal. apply mapM_ext_in. intros kv Hkv. apply depth_entry in Hkv.
  destruct (rename_params (fst kv) (snd kv)) as [v|e] eqn:E; [|reflexivity].
  apply rename_params_depth in E. cbn [bind].
  unfold convert_param_names_in_path.
  rewrite (convert_param_names_upto_stable (depth (YDict d)) (S (depth v)));
    [reflexivity| |]; lia.
Qed.

Lemma convert_param_names_list (l : list yaml) :
  convert_param_names_in_path (YList l)
  = items <- mapM convert_param_names_in_path l ;; Ok (YList items).
Proof.
  unfold convert_param_names_in_path at 1. cbn [convert_param_names_upto].
  f_equal. apply mapM_ext_in. intros x Hx. apply depth_item in Hx.
  unfold convert_param_names_in_path.
  apply convert_param_names_upto_stable; lia.
Qed.

Lemma convert_param_names_scalar (t : yaml) :
  depth t = 0 -> convert_param_names_in_path t = Ok t.
Proof. destruct t; try reflexivity; cbn [depth]; discriminate. Qed.

Lemma repair_enum_depth (d : dict) (kv : string * yaml) :
  In kv (repair_enum d) -> depth (snd kv) < depth (YDict d).
Proof.
  unfold repair_enum, null_enum.
  destruct (dict_get "enum" d) as [[| | | | |l|]|] eqn:E;
    try apply depth_entry.
  destruct (existsb is_null l); [|apply depth_entry].
  set (l' := filter (fun v => negb (is_null v)) l).
  assert (Hl : depth (YList l') <= list_max (map (fun kv => depth (snd kv)) d)).
  { destruct (dict_get_in _ _ _ E) as [k' Hin].
    apply (list_max_in _ (fun kv => depth (snd kv))) in Hin. cbn [snd] in Hin.
    assert (Hsub : list_max (map depth l') <= list_max (map depth l)).
    { subst l'. clear. induction l as [|x l IH]; [reflexivity|]. simpl.
      destruct (is_null x); simpl; lia. }
    cbn [depth] in *. lia. }
  intros Hin.
  assert (Hmax : list_max (map (fun kv => depth (snd kv))
                              (dict_set "enum" (YList l') d))
                 <= list_max (map (fun kv => depth (snd kv)) d)).
  { pose proof (dict_set_depth "enum" (YList l') d). lia. }
  destruct (dict_has "nullable" (dict_set "enum" (YList l') d)).
  - apply (list_max_in _ (fun kv => depth (snd kv))) in Hin. cbn [depth]. lia.
  - apply (list_max_in _ (fun kv => depth (snd kv))) in Hin.
    pose proof (dict_set_depth "nullable" (YBool true)
                  (dict_set "enum" (YList l') d)) as H2.
    cbn [depth] in *. lia.
Qed.

Lemma fix_null_enums_upto_stable (n m : nat) (t : yaml) :
  depth t < n -> depth t < m ->
  fix_null_enums_upto n t = fix_null_enums_upto m t.
Proof.
  revert m t. induction n as [|n IH]; intros m t Hn Hm; [lia|].
  destruct m as [|m]; [lia|].
  destruct t as [| | | | |l|d]; try reflexivity; cbn [fix_null_enums_upto].
  - f_equal. apply map_ext_in. intros x Hx. apply depth_item in Hx.
    apply IH; lia.
  - f_equal. apply map_ext_in. intros kv Hkv. apply repair_enum_depth in Hkv.
    f_equal. apply IH; lia.
Qed.

Lemma fix_null_enums_dict (d : dict) :
  fix_null_enums (YDict d)
  = YDict (map (fun kv => (fst kv, fix_null_enums (snd kv))) (repair_enum d)).
Proof.
  unfold fix_null_enums at 1. cbn [fix_null_enums_upto].
  f_equal. apply map_ext_in. intros kv Hkv. apply repair_enum_depth in Hkv.
  f_equal. unfold fix_null_enums. apply fix_null_enums_upto_stable; lia.
Qed.

Lemma fix_null_enums_list (l : list yaml) :
  fix_null_enums (YList l) = YList (map fix_null_enums l).
Proof.
  unfold fix_null_enums at 1. cbn [fix_null_enums_upto].
  f_equal. apply map_ext_in. intros x Hx. apply depth_item in Hx.
  unfold fix_null_enums. apply fix_null_enums_upto_stable; lia.
Qed.

Lemma fix_null_enums_scalar (t : yaml) :
  depth t = 0 -> fix_null_enums t = t.
Proof. destruct t; try reflexivity; cbn [depth]; discriminate. Qed.

(** ** The enum repair *)

Lemma fix_null_enums_is_null (v : yaml) :
  is_null (fix_null_enums v) = is_null v.
Proof.
  destruct v; reflexivity.
Qed.

Lemma existsb_is_null_fix (l : list yaml) :
  existsb is_null (map fix_null_enums l) = existsb is_null l.
Proof.
  induction l as [|x l IH]; [reflexivity|]. cbn [map existsb].
  rewrite fix_null_enums_is_null, IH. reflexivity.
Qed.

Lemma existsb_is_null_filter (l : list yaml) :
  existsb is_null (filter (fun v => negb (is_null v)) l) = false.
Proof.
  induction l as [|x l IH]; [reflexivity|]. cbn [filter].
  destruct (is_null x) eqn:E; cbn [negb]; [exact IH|].
  cbn [existsb]. rewrite E, IH. reflexivity.
Qed.

Lemma dict_has_set_other (k k' : string) (x : yaml) (d : dict) :
  k <> k' -> dict_has k (dict_set k' x d) = dict_has k d.
Proof. intros H. unfold dict_has. rewrite dict_get_set_other by exact H. reflexivity. Qed.

Lemma dict_set_in (kv : string * yaml) (k : string) (x : yaml) (d : dict) :
  In kv d ->
  In kv (dict_set k x d) \/ (fst kv = k /\ dict_get k d = Some (snd kv)).
Proof.
  induction d as [|[k' v'] d IH]; intros H; [destruct H|].
  cbn [dict_set dict_get]. destruct (String.eqb k k') eqn:E.
  - destruct H as [<-|H]; [|left; right; exact H].
    right. apply String.eqb_eq in E. auto.
  - destruct H as [<-|H]; [left; left; reflexivity|].
    destruct (IH H) as [H'|H']; [left; right; exact H'|right; exact H'].
Qed.

Lemma dict_set_in_new (k : string) (x : yaml) (d : dict) :
  In (k, x) (dict_set k x d).
Proof.
  induction d as [|[k' v'] d IH]; cbn [dict_set]; [left; reflexivity|].
  destruct (String.eqb k k'); [left; reflexivity|right; exact IH].
Qed.

(** What the repaired dict holds under ["enum"]. *)
Lemma repair_enum_get_enum (d : dict) :
  dict_get "enum" (repair_enum d)
  = match null_enum d with
    | Some l => Some (YList (filter (fun v => negb (is_null v)) l))
    | None => dict_get "enum" d
    end.
Proof.
  unfold repair_enum. destruct (null_enum d) as [l|]; [|reflexivity].
  destruct (dict_has "nullable" _).
  - apply dict_get_set_same.
  - rewrite dict_get_set_other by discriminate. apply dict_get_set_same.
Qed.

Lemma null_enum_repaired (d : dict) :
  null_enum (map (fun kv => (fst kv, fix_null_enums (snd kv))) (repair_enum d))
  = None.
Proof.
  unfold null_enum at 1.
  rewrite (dict_get_map (fun _ => fix_null_enums)), repair_enum_get_enum.
  unfold null_enum.
  destruct (dict_get "enum" d) as [[| | | | |l|e]|]; try reflexivity.
  destruct (existsb is_null l) eqn:E; cbn [option_map].
  - rewrite fix_null_enums_list, existsb_is_null_fix, existsb_is_null_filter.
    reflexivity.
  - rewrite fix_null_enums_list, existsb_is_null_fix, E. reflexivity.
Qed.

Lemma fix_null_enums_idem (t : yaml) :
  fix_null_enums (fix_null_enums t) = fix_null_enums t.
Proof.
  induction t as [t IH] using depth_ind.
  destruct t as [| | | | |l|d]; try reflexivity.
  - rewrite fix_null_enums_list, fix_null_enums_list, map_map. f_equal.
    apply map_ext_in. intros x Hx. apply IH, depth_item, Hx.
  - rewrite fix_null_enums_dict, fix_null_enums_dict.
    unfold repair_enum at 1. rewrite null_enum_repaired.
    rewrite map_map. f_equal. apply map_ext_in. intros kv Hkv. cbn [fst snd].
    f_equal. apply IH, repair_enum_depth, Hkv.
Qed.

Lemma subnode_dict_null (d : dict) : ~ subnode (YDict d) YNull.
Proof. intros H. inversion H. Qed.

(** The repaired node is a node of the repaired tree. *)
Lemma fix_null_enums_subnode (n : dict) (t : yaml) :
  subnode (YDict n) t ->
  subnode (fix_null_enums (YDict n)) (fix_null_enums t).
Proof.
  induction t as [t IH] using depth_ind. intros H.
  inversion H as [Heq | x l Hx Hsub Heq | k v d Hkv Hsub Heq]; subst.
  - constructor.
  - rewrite (fix_null_enums_list l).
    apply (sub_item _ (fix_null_enums x)); [apply in_map, Hx|].
    apply IH; [apply depth_item, Hx|exact Hsub].
  - rewrite (fix_null_enums_dict d).
    assert (Hin : In (k, v) (repair_enum d) \/
                  exists l x, v = YList l /\ In x l /\ subnode (YDict n) x /\
                    In ("enum", YList (filter (fun v => negb (is_null v)) l))
                       (repair_enum d)).
    { unfold repair_enum. destruct (null_enum d) as [l|] eqn:E; [|left; exact Hkv].
      set (l' := filter (fun v => negb (is_null v)) l).
      destruct (dict_set_in _ "enum" (YList l') d Hkv) as [Hin|[Hk Hget]].
      - left. destruct (dict_has "nullable" _) eqn:Hh; [exact Hin|].
        destruct (dict_set_in _ "nullable" (YBool true) _ Hin) as [Hin'|[_ Hget]];
          [exact Hin'|].
        unfold dict_has in Hh. rewrite Hget in Hh. discriminate.
      - right. cbn [fst snd] in *. subst k.
        unfold null_enum in E. rewrite Hget in E.
        destruct v as [| | | | |lv|]; try discriminate.
        destruct (existsb is_null lv); [|discriminate]. injection E as <-.
        inversion Hsub as [Heq | x l0 Hx Hsub' Heq | ]; subst.
        exists lv, x. repeat split; auto.
        destruct (dict_has "nullable" _).
        + apply dict_set_in_new.
        + destruct (dict_set_in ("enum", YList l') "nullable" (YBool true)
                      (dict_set "enum" (YList l') d) (dict_set_in_new _ _ _))
            as [Hin'|[Hk _]]; [exact Hin'|discriminate]. }
    destruct Hin as [Hin | (l & x & -> & Hx & Hsubx & Hin)].
    + apply (sub_entry _ k (fix_null_enums v)).
      * apply (in_map (fun kv => (fst kv, fix_null_enums (snd kv))) _ _ Hin).
      * apply IH; [apply depth_entry in Hkv; exact Hkv|exact Hsub].
    + apply (sub_entry _ "enum"
               (fix_null_enums (YList (filter (fun v => negb (is_null v)) l)))).
      * apply (in_map (fun kv => (fst kv, fix_null_enums (snd kv))) _ _ Hin).
      * rewrite fix_null_enums_list.
        apply (sub_item _ (fix_null_enums x)).
        -- apply in_map, filter_In. split; [exact Hx|].
           destruct x; try reflexivity. destruct (subnode_dict_null _ Hsubx).
        -- apply IH; [|exact Hsubx].
           apply depth_entry in Hkv. apply depth_item in Hx. cbn [snd] in Hkv. lia.
Qed.

(** The repair of a node with [enum: [a, b, null]] and no [nullable]. *)
Lemma fix_null_enums_node (n : dict) (a b : yaml) :
  dict_get "enum" n = Some (YList [a; b; YNull]) ->
  plain_value a = true -> plain_value b = true ->
  dict_get "nullable" n = None ->
  exists n', fix_null_enums (YDict n) = YDict n'
             /\ dict_get "enum" n' = Some (YList [a; b])
             /\ dict_get "nullable" n' = Some (YBool true).
Proof.
  intros He Ha Hb Hn. eexists. split; [apply fix_null_enums_dict|].
  rewrite !(dict_get_map (fun _ => fix_null_enums)).
  assert (Hnull : null_enum n = Some [a; b; YNull]).
  { unfold null_enum. rewrite He. cbn [existsb is_null].
    rewrite !orb_true_r. reflexivity. }
  assert (Hf : filter (fun v => negb (is_null v)) [a; b; YNull] = [a; b]).
  { destruct a; try discriminate; destruct b; try discriminate; reflexivity. }
  split.
  - rewrite repair_enum_get_enum, Hnull, Hf. cbn [option_map].
    rewrite fix_null_enums_list. cbn [map].
    rewrite !fix_null_enums_scalar; [reflexivity| |].
    + destruct b; try discriminate; reflexivity.
    + destruct a; try discriminate; reflexivity.
  - unfold repair_enum. rewrite Hnull.
    rewrite dict_has_set_other by discriminate. unfold dict_has. rewrite Hn.
    rewrite dict_get_set_same. reflexivity.
Qed.

(** C6: a node with [enum: [a, b, null]] and no [nullable] key,
    anywhere in a tree, is repaired to [enum: [a, b]] with
    [nullable: true], and the repair applied twice gives what it gives
    applied once. *)
Theorem enum_repair (t : yaml) (n : dict) (a b : yaml) :
  subnode (YDict n) t ->
  dict_get "enum" n = Some (YList [a; b; YNull]) ->
  plain_value a = true -> plain_value b = true ->
  dict_get "nullable" n = None ->
  (exists n', subnode (YDict n') (fix_null_enums t)
              /\ fix_null_enums (YDict n) = YDict n'
              /\ dict_get "enum" n' = Some (YList [a; b])
              /\ dict_get "nullable" n' = Some (YBool true))
  /\ forall doc, fix_null_enums (fix_null_enums doc) = fix_null_enums doc.
Proof.
  intros Hsub He Ha Hb Hn. split; [|apply fix_null_enums_idem].
  destruct (fix_null_enums_node n a b He Ha Hb Hn) as (n' & Hfix & H1 & H2).
  exists n'. rewrite <- Hfix. repeat split; auto.
  apply fix_null_enums_subnode, Hsub.
Qed.

(** ** The conversion of parameter names *)

Lemma mapM_forall2 (A B : Type) (f : A -> result B) (l : list A) (l' : list B) :
  mapM f l = Ok l' -> Forall2 (fun a b => f a = Ok b) l l'.
Proof.
  revert l'. induction l as [|a l IH]; intros l' H.
  - injection H as <-. constructor.
  - apply mapM_ok_inv in H as (b & bs & Hb & Hbs & ->).
    constructor; auto.
Qed.

Lemma mapM_fixed (A : Type) (f : A -> result A) (l : list A) :
  Forall (fun a => f a = Ok a) l -> mapM f l = Ok l.
Proof.
  induction 1 as [|a l Ha _ IH]; [reflexivity|].
  cbn [mapM]. rewrite Ha, IH. reflexivity.
Qed.

Lemma mapM_nth_error (A B : Type) (f : A -> result B) (l : list A)
    (l' : list B) (i : nat) :
  mapM f l = Ok l' ->
  match nth_error l i with
  | Some x => exists y, f x = Ok y /\ nth_error l' i = Some y
  | None => nth_error l' i = None
  end.
Proof.
  intros H. apply mapM_forall2 in H. revert i.
  induction H as [|a b l l' Hab _ IH]; intros [|i]; cbn [nth_error]; eauto;
    apply IH.
Qed.

Lemma mapM_dict_get (g : string -> yaml -> result yaml)
    (f : string * yaml -> result (string * yaml)) (d d' : dict) (k : string) :
  (forall kv, f kv = v <- g (fst kv) (snd kv) ;; Ok (fst kv, v)) ->
  mapM f d = Ok d' ->
  match dict_get k d with
  | Some v => exists v', g k v = Ok v' /\ dict_get k d' = Some v'
  | None => dict_get k d' = None
  end.
Proof.
  intros Hf H. apply mapM_forall2 in H.
  induction H as [|[k1 v1] [k2 v2] l l' Hab _ IH]; [reflexivity|].
  rewrite Hf in Hab. cbn [fst snd] in Hab.
  apply bind_ok_inv in Hab as (v' & Hg & [= <- <-]).
  cbn [dict_get]. destruct (String.eqb k k1) eqn:E; [|exact IH].
  apply String.eqb_eq in E. subst k1. eauto.
Qed.

Lemma convert_entry_shape (kv : string * yaml) :
  (value <- rename_params (fst kv) (snd kv) ;;
   converted <- convert_param_names_in_path value ;;
   Ok (fst kv, converted))
  = v <- converted_value (fst kv) (snd kv) ;; Ok (fst kv, v).
Proof.
  unfold converted_value.
  destruct (rename_params (fst kv) (snd kv)); reflexivity.
Qed.

Lemma convert_dict_inv (d : dict) (t' : yaml) :
  convert_param_names_in_path (YDict d) = Ok t' ->
  exists d', t' = YDict d' /\
    mapM (fun kv => v <- converted_value (fst kv) (snd kv) ;; Ok (fst kv, v)) d
    = Ok d'.
Proof.
  rewrite convert_param_names_dict. intros H.
  apply bind_ok_inv in H as (d' & H & [= <-]).
  exists d'. split; [reflexivity|]. rewrite <- H.
  apply mapM_ext_in. intros kv _. symmetry. apply convert_entry_shape.
Qed.

Lemma convert_list_inv (l : list yaml) (t' : yaml) :
  convert_param_names_in_path (YList l) = Ok t' ->
  exists l', t' = YList l' /\ mapM convert_param_names_in_path l = Ok l'.
Proof.
  rewrite convert_param_names_list. intros H.
  apply bind_ok_inv in H as (l' & H & [= <-]). eauto.
Qed.

Lemma node_at_scalar (q : list step) (t : yaml) :
  depth t = 0 -> q <> [] -> node_at q t = None.
Proof.
  intros Ht Hq. destruct q as [|s q]; [congruence|].
  destruct t; try discriminate; destruct s; reflexivity.
Qed.

Lemma rename_param_cases (p r : yaml) :
  rename_param p = Ok r ->
  r = p \/ exists d s new, p = YDict d /\ dict_get "name" d = Some (YStr s)
                           /\ assoc s param_name_map = Some new
                           /\ r = YDict (dict_set "name" (YStr new) d).
Proof.
  destruct p as [| | | | |l|d]; cbn [rename_param]; try (intros [= <-]; auto).
  destruct (dict_get "name" d) as [old_name|] eqn:E; [|intros [= <-]; auto].
  destruct old_name; cbn [py_hashable bind]; try (intros [= <-]; auto);
    try discriminate.
  destruct (assoc s param_name_map) as [new|] eqn:Ea; intros [= <-]; auto.
  right. exists d, s, new. auto.
Qed.

(** Renaming a parameter changes nothing two steps or more below it. *)
Lemma rename_param_node_at (p r : yaml) (q : list step) :
  rename_param p = Ok r -> 2 <= List.length q -> node_at q r = node_at q p.
Proof.
  intros H Hq. apply rename_param_cases in H as [->|(d & s & new & -> & Hn & _ & ->)];
    [reflexivity|].
  destruct q as [|[k|i] q]; cbn [List.length] in Hq; [lia| |reflexivity].
  cbn [node_at child]. destruct (String.eqb_spec k "name") as [->|Hne].
  - rewrite dict_get_set_same, Hn.
    rewrite !node_at_scalar; auto; destruct q; cbn in *; try lia; discriminate.
  - rewrite dict_get_set_other by exact Hne. reflexivity.
Qed.

Lemma rename_params_node_at (key : string) (v v2 : yaml) (q : list step) :
  rename_params key v = Ok v2 -> 3 <= List.length q ->
  node_at q v2 = node_at q v.
Proof.
  destruct v as [| | | | |ps|]; cbn [rename_params]; try (intros [= <-]; auto).
  destruct (String.eqb key "parameters"); [|intros [= <-]; auto].
  intros H Hq. apply bind_ok_inv in H as (ps2 & H & [= <-]).
  destruct q as [|[k|i] q]; cbn [List.length] in Hq; [lia|reflexivity|].
  cbn [node_at child]. pose proof (mapM_nth_error _ _ _ _ _ i H) as Hi.
  destruct (nth_error ps i) as [x|].
  - destruct Hi as (y & Hy & ->). apply rename_param_node_at; [exact Hy|lia].
  - rewrite Hi. reflexivity.
Qed.

(** The name of a parameter entry of a ["parameters"] list, at any
    depth, is renamed after the table. *)
Lemma convert_renames_at (path : list step) (i : nat) (old new : string) :
  assoc old param_name_map = Some new ->
  forall t t',
    convert_param_names_in_path t = Ok t' ->
    node_at (path ++ [Key "parameters"; Idx i; Key "name"]) t = Some (YStr old) ->
    node_at (path ++ [Key "parameters"; Idx i; Key "name"]) t' = Some (YStr new).
Proof.
  intros Hmap. induction path as [|s path IH]; intros t t' Hc Hn.
  - cbn [app node_at] in *.
    destruct t as [| | | | |l|d]; try discriminate. cbn [child] in Hn.
    apply convert_dict_inv in Hc as (d' & -> & Hd').
    pose proof (mapM_dict_get converted_value _ _ _ "parameters"
                  (fun kv => eq_refl) Hd') as Hp.
    destruct (dict_get "parameters" d) as [v|]; [|discriminate].
    destruct Hp as (v' & Hv' & Hget). cbn [child]. rewrite Hget.
    destruct v as [| | | | |ps|]; try discriminate. cbn [child] in Hn.
    unfold converted_value in Hv'. cbn [rename_params String.eqb Ascii.eqb Bool.eqb] in Hv'.
    apply bind_ok_inv in Hv' as (v2 & Hv2 & Hcv).
    apply bind_ok_inv in Hv2 as (ps2 & Hps2 & [= <-]).
    apply convert_list_inv in Hcv as (ps3 & -> & Hps3). cbn [child].
    pose proof (mapM_nth_error _ _ _ _ _ i Hps2) as H2.
    destruct (nth_error ps i) as [p|]; [|discriminate].
    destruct H2 as (r & Hr & Hnth2).
    pose proof (mapM_nth_error _ _ _ _ _ i Hps3) as H3. rewrite Hnth2 in H3.
    destruct H3 as (c & Hcr & ->).
    destruct p as [| | | | |l|pd]; try discriminate. cbn [child] in Hn.
    destruct (dict_get "name" pd) as [nv|] eqn:En; [|discriminate].
    injection Hn as ->.
    cbn [rename_param] in Hr. rewrite En in Hr. cbn [py_hashable bind] in Hr.
    rewrite Hmap in Hr. injection Hr as <-.
    apply convert_dict_inv in Hcr as (cd & -> & Hcd).
    pose proof (mapM_dict_get converted_value _ _ _ "name"
                  (fun kv => eq_refl) Hcd) as Hname.
    rewrite dict_get_set_same in Hname. destruct Hname as (v' & Hv' & Hget').
    cbn [child]. rewrite Hget'. f_equal. cbn in Hv'. congruence.
  - cbn [app node_at] in *.
    destruct (child s t) as [c|] eqn:Ec; [|discriminate].
    destruct s as [k|j]; destruct t as [| | | | |l|d]; try discriminate;
      cbn [child] in Ec.
    + apply convert_dict_inv in Hc as (d' & -> & Hd').
      pose proof (mapM_dict_get converted_value _ _ _ k (fun kv => eq_refl) Hd')
        as Hk.
      rewrite Ec in Hk. destruct Hk as (c' & Hc' & Hget). cbn [child].
      rewrite Hget. unfold converted_value in Hc'.
      apply bind_ok_inv in Hc' as (c2 & Hc2 & Hcc).
      apply (IH c2 c' Hcc).
      rewrite (rename_params_node_at _ _ _ _ Hc2); [exact Hn|].
      rewrite length_app. cbn. lia.
    + apply convert_list_inv in Hc as (l' & -> & Hl').
      pose proof (mapM_nth_error _ _ _ _ _ j Hl') as Hj. rewrite Ec in Hj.
      destruct Hj as (c' & Hc' & Hnth). cbn [child]. rewrite Hnth.
      apply (IH c c' Hc' Hn).
Qed.

Lemma dict_set_same (k : string) (x : yaml) (d : dict) :
  dict_get k d = Some x -> dict_set k x d = d.
Proof.
  induction d as [|[k' v'] d IH]; cbn [dict_get dict_set]; [discriminate|].
  destruct (String.eqb k k') eqn:E.
  - intros [= ->]. apply String.eqb_eq in E. subst k'. reflexivity.
  - intros H. rewrite (IH H). reflexivity.
Qed.

Lemma dict_set_set (k : string) (x y : yaml) (d : dict) :
  dict_set k x (dict_set k y d) = dict_set k x d.
Proof.
  induction d as [|[k' v'] d IH]; cbn [dict_set].
  - rewrite String.eqb_refl. reflexivity.
  - destruct (String.eqb k k') eqn:E; cbn [dict_set].
    + rewrite String.eqb_refl. reflexivity.
    + rewrite E, IH. reflexivity.
Qed.

Lemma forallb_dict_set (Q : string * yaml -> bool) (k : string) (x : yaml)
    (d : dict) :
  forallb Q d = true -> Q (k, x) = true -> forallb Q (dict_set k x d) = true.
Proof.
  intros Hd Hx. induction d as [|[k' v'] d IH]; cbn [dict_set forallb].
  - rewrite Hx. reflexivity.
  - cbn [forallb] in Hd. apply andb_prop in Hd as [H1 H2].
    destruct (String.eqb k k'); cbn [forallb].
    + rewrite Hx, H2. reflexivity.
    + rewrite H1, (IH H2). reflexivity.
Qed.

(** What a short name is renamed to is not renamed again. *)
Lemma param_name_map_closed (s new : string) :
  assoc s param_name_map = Some new ->
  assoc new param_name_map = None \/ assoc new param_name_map = Some new.
Proof.
  unfold param_name_map. cbn [assoc]. intros H.
  repeat (match type of H with
          | (if ?b then _ else _) = _ =>
              destruct b; [injection H as <-; cbn; auto|]
          end).
  discriminate.
Qed.

Lemma rename_param_total (p : yaml) :
  param_ok p = true -> exists r, rename_param p = Ok r.
Proof.
  destruct p as [| | | | |l|d]; cbn [rename_param param_ok]; eauto.
  destruct (dict_get "name" d) as [nv|]; eauto.
  destruct nv; cbn [py_hashable bind]; eauto; try discriminate.
  destruct (assoc s param_name_map); eauto.
Qed.

Lemma rename_param_names_ok (p r : yaml) :
  rename_param p = Ok r -> names_ok p = true -> names_ok r = true.
Proof.
  intros H Hp.
  apply rename_param_cases in H as [->|(d & s & new & -> & _ & _ & ->)];
    [exact Hp|].
  cbn [names_ok] in *. apply forallb_dict_set; [exact Hp|reflexivity].
Qed.

Lemma rename_params_total (key : string) (v : yaml) :
  params_ok key v = true -> names_ok v = true ->
  exists v2, rename_params key v = Ok v2 /\ names_ok v2 = true.
Proof.
  destruct v as [| | | | |ps|]; cbn [rename_params params_ok]; eauto.
  destruct (String.eqb key "parameters"); eauto.
  intros Hps Hn. cbn [names_ok] in Hn.
  assert (H : exists ps2, mapM rename_param ps = Ok ps2
                          /\ forallb names_ok ps2 = true).
  { induction ps as [|p ps IH]; [exists []; auto|].
    cbn [forallb] in *. apply andb_prop in Hps as [Hp Hps].
    apply andb_prop in Hn as [Hnp Hn].
    destruct (rename_param_total p Hp) as [r Hr].
    destruct (IH Hps Hn) as (ps2 & H2 & Hn2).
    exists (r :: ps2). cbn [mapM forallb]. rewrite Hr, H2. cbn [bind].
    rewrite (rename_param_names_ok p r Hr Hnp), Hn2. auto. }
  destruct H as (ps2 & H2 & Hn2). exists (YList ps2). rewrite H2. auto.
Qed.

(** The conversion raises on no tree whose parameter names can be hashed. *)
Lemma convert_param_names_total (t : yaml) :
  names_ok t = true -> exists t', convert_param_names_in_path t = Ok t'.
Proof.
  induction t as [t IH] using depth_ind. intros Hn.
  destruct t as [| | | | |l|d]; try (eexists; reflexivity).
  - rewrite convert_param_names_list.
    destruct (mapM_total _ _ convert_param_names_in_path l) as [l' Hl'].
    + apply Forall_forall. intros x Hx. apply IH; [apply depth_item, Hx|].
      cbn [names_ok] in Hn. rewrite forallb_forall in Hn. apply Hn, Hx.
    + rewrite Hl'. eexists. reflexivity.
  - rewrite convert_param_names_dict.
    destruct (mapM_total _ _
                (fun kv => value <- rename_params (fst kv) (snd kv) ;;
                           converted <- convert_param_names_in_path value ;;
                           Ok (fst kv, converted)) d) as [d' Hd'].
    + apply Forall_forall. intros kv Hkv.
      cbn [names_ok] in Hn. rewrite forallb_forall in Hn.
      specialize (Hn kv Hkv). apply andb_prop in Hn as [H1 H2].
      destruct (rename_params_total _ _ H2 H1) as (v2 & Hv2 & Hn2).
      rewrite Hv2. cbn [bind].
      destruct (IH v2) as [c Hc]; [|exact Hn2|].
      * apply rename_params_depth in Hv2. apply depth_entry in Hkv. lia.
      * rewrite Hc. eexists. reflexivity.
    + rewrite Hd'. eexists. reflexivity.
Qed.

Lemma rename_param_idem (p r : yaml) :
  rename_param p = Ok r -> rename_param r = Ok r.
Proof.
  intros H.
  destruct (rename_param_cases _ _ H) as [->|(d & s & new & -> & _ & Ha & ->)];
    [exact H|].
  cbn [rename_param]. rewrite dict_get_set_same. cbn [py_hashable bind].
  destruct (param_name_map_closed _ _ Ha) as [-> | ->]; [reflexivity|].
  rewrite dict_set_set. reflexivity.
Qed.

Lemma rename_param_converted (r c : yaml) :
  rename_param r = Ok r -> convert_param_names_in_path r = Ok c ->
  rename_param c = Ok c.
Proof.
  intros Hr Hc. destruct r as [| | | | |l|d];
    try (injection Hc as <-; reflexivity).
  - apply convert_list_inv in Hc as (l' & -> & _). reflexivity.
  - apply convert_dict_inv in Hc as (cd & -> & Hcd).
    pose proof (mapM_dict_get converted_value _ _ _ "name"
                  (fun kv => eq_refl) Hcd) as Hname.
    cbn [rename_param] in *.
    destruct (dict_get "name" d) as [nv|] eqn:En; [|rewrite Hname; reflexivity].
    destruct Hname as (nv' & Hnv' & Hget). rewrite Hget.
    destruct nv; cbn [py_hashable bind] in Hr; try discriminate;
      cbn in Hnv'; injection Hnv' as <-; cbn [py_hashable bind];
      try reflexivity.
    destruct (assoc s param_name_map) as [new|]; [|reflexivity].
    injection Hr as Hr.
    assert (Hs : dict_get "name" d = Some (YStr new))
      by (rewrite <- Hr; apply dict_get_set_same).
    rewrite En in Hs. injection Hs as ->.
    rewrite dict_set_same; [reflexivity|exact Hget].
Qed.

Lemma mapM_rename_converted (ps ps2 cs : list yaml) :
  mapM rename_param ps = Ok ps2 ->
  mapM convert_param_names_in_path ps2 = Ok cs ->
  mapM rename_param cs = Ok cs.
Proof.
  revert ps2 cs. induction ps as [|p ps IH]; intros ps2 cs H2 Hc.
  - injection H2 as <-. injection Hc as <-. reflexivity.
  - apply mapM_ok_inv in H2 as (r & rs & Hr & Hrs & ->).
    apply mapM_ok_inv in Hc as (c & cs' & Hc & Hcs & ->).
    cbn [mapM].
    rewrite (rename_param_converted r c (rename_param_idem p r Hr) Hc).
    rewrite (IH rs cs' Hrs Hcs). reflexivity.
Qed.

Lemma rename_params_converted (key : string) (v v2 c : yaml) :
  rename_params key v = Ok v2 ->
  convert_param_names_in_path v2 = Ok c ->
  rename_params key c = Ok c.
Proof.
  intros H2 Hc.
  destruct (String.eqb key "parameters") eqn:Ek.
  - destruct v as [| | | | |ps|d]; cbn [rename_params] in H2;
      try (injection H2 as <-; injection Hc as <-; reflexivity).
    + rewrite Ek in H2. apply bind_ok_inv in H2 as (ps2 & Hps2 & [= <-]).
      apply convert_list_inv in Hc as (cs & -> & Hcs).
      cbn [rename_params]. rewrite Ek.
      rewrite (mapM_rename_converted ps ps2 cs Hps2 Hcs). reflexivity.
    + injection H2 as <-. apply convert_dict_inv in Hc as (cd & -> & _).
      reflexivity.
  - destruct c; cbn [rename_params]; try reflexivity. rewrite Ek. reflexivity.
Qed.

Lemma Forall2_right (A B : Type) (R : A -> B -> Prop) (Q : B -> Prop)
    (l : list A) (l' : list B) :
  Forall2 R l l' -> (forall a b, In a l -> R a b -> Q b) -> Forall Q l'.
Proof.
  induction 1 as [|a b l l' Hab _ IH]; intros H; constructor.
  - apply (H a b); [left; reflexivity|exact Hab].
  - apply IH. intros a' b' Hin. apply H. right. exact Hin.
Qed.

(** Converting a converted tree changes nothing. *)
Lemma convert_param_names_idem (t t' : yaml) :
  convert_param_names_in_path t = Ok t' ->
  convert_param_names_in_path t' = Ok t'.
Proof.
  revert t'. induction t as [t IH] using depth_ind. intros t' H.
  destruct t as [| | | | |l|d]; try (injection H as <-; reflexivity).
  - apply convert_list_inv in H as (l' & -> & Hl').
    rewrite convert_param_names_list. rewrite mapM_fixed; [reflexivity|].
    apply mapM_forall2 in Hl'.
    apply (Forall2_right _ _ _ _ _ _ Hl'). intros a b Hin Hab.
    apply (IH a); [apply depth_item, Hin|exact Hab].
  - apply convert_dict_inv in H as (d' & -> & Hd').
    rewrite convert_param_names_dict. rewrite mapM_fixed; [reflexivity|].
    apply mapM_forall2 in Hd'.
    apply (Forall2_right _ _ _ _ _ _ Hd'). intros kv kv' Hin Hkv.
    apply bind_ok_inv in Hkv as (c & Hc & [= <-]). cbn [fst snd].
    unfold converted_value in Hc. apply bind_ok_inv in Hc as (v2 & Hv2 & Hc).
    rewrite (rename_params_converted _ _ _ _ Hv2 Hc). cbn [bind].
    assert (Hlt : depth v2 < depth (YDict d)).
    { apply rename_params_depth in Hv2. apply depth_entry in Hin. lia. }
    rewrite (IH v2 Hlt c Hc). reflexivity.
Qed.

(** ** The claims on the path normalizer and the parameter names *)

(** C9: the prefix is stripped by plain substring replacement, first of
    every ["/api/"], then of every ["/api"] left, whatever the segments
    are: a first segment that only begins with the letters [api] loses
    them, as ["/apikeys"] which becomes ["/keys"]. *)
Theorem normalize_path_substring :
  (forall path,
     normalize_path path
     = rename_tokens (Str.replace "/api" "/" (Str.replace "/api/" "/" path)))
  /\ (forall w, Str.has_char "/" w = false -> Str.has_char "{" w = false ->
                normalize_path ("/api" ++ w)%string = ("/" ++ w)%string)
  /\ normalize_path "/apikeys" = "/keys".
Proof.
  split; [reflexivity|]. split; [apply normalize_path_api_letters|reflexivity].
Qed.

(** C10: the renaming applies under every key ["parameters"] at any
    depth of the converted tree: whatever the path to a ["parameters"]
    list, the name of its entry [i] is renamed after the table when it
    is in it, whether the entry is a path parameter or not and whether
    the list is the PathItem's own or an operation's; so the query
    parameter [uid] of the operation of the sample PathItem becomes
    [userId]. *)
Theorem param_names_any_depth :
  (forall (path_obj converted : yaml) (path : list step) (i : nat)
          (old new : string),
     convert_param_names_in_path path_obj = Ok converted ->
     assoc old param_name_map = Some new ->
     node_at (path ++ [Key "parameters"; Idx i; Key "name"]) path_obj
     = Some (YStr old) ->
     node_at (path ++ [Key "parameters"; Idx i; Key "name"]) converted
     = Some (YStr new))
  /\ exists converted,
       convert_param_names_in_path Sample.workspaces_item = Ok converted
       /\ node_at [Key "get"; Key "parameters"; Idx 0; Key "in"]
                  Sample.workspaces_item = Some (YStr "query")
       /\ node_at [Key "get"; Key "parameters"; Idx 0; Key "name"]
                  Sample.workspaces_item = Some (YStr "uid")
       /\ node_at [Key "get"; Key "parameters"; Idx 0; Key "name"] converted
          = Some (YStr "userId").
Proof.
  split.
  - intros path_obj converted path i old new Hc Hmap Hn.
    exact (convert_renames_at path i old new Hmap _ _ Hc Hn).
  - eexists. split; [vm_compute; reflexivity|]. repeat split.
Qed.

(** C5, as the code has it: a path with the token ["{oid}"] is
    normalized to one with ["{orgId}"] and no ["{oid}"], and the
    converted PathItem has the name [orgId] where the entry of its
    ["parameters"] list had [oid]; converting the converted PathItem
    again changes nothing; normalizing the normalized path again
    changes nothing when no ["/api"] is left in it. *)
Theorem normalize_oid (P : string) (path_item : yaml) (i : nat) :
  Str.contains "{oid}" P = true ->
  node_at [Key "parameters"; Idx i; Key "name"] path_item = Some (YStr "oid") ->
  names_ok path_item = true ->
  Str.contains "{orgId}" (normalize_path P) = true
  /\ Str.contains "{oid}" (normalize_path P) = false
  /\ (Str.contains "/api" (normalize_path P) = false ->
      normalize_path (normalize_path P) = normalize_path P)
  /\ exists converted,
       convert_param_names_in_path path_item = Ok converted
       /\ node_at [Key "parameters"; Idx i; Key "name"] converted
          = Some (YStr "orgId")
       /\ convert_param_names_in_path converted = Ok converted.
Proof.
  intros HP Hitem Hok.
  split; [apply normalize_path_oid, HP|].
  split; [apply normalize_path_no_oid|].
  split; [apply normalize_path_fixed|].
  destruct (convert_param_names_total path_item Hok) as [converted Hc].
  exists converted. split; [exact Hc|]. split.
  - apply (convert_renames_at [] i "oid" "orgId" eq_refl _ _ Hc Hitem).
  - apply (convert_param_names_idem _ _ Hc).
Qed.

(** C5, as stated, fails: this path of the comprehensive convention has
    the token ["{oid}"] and its normalized form is normalized further. *)
Lemma normalize_not_idempotent :
  Str.contains "{oid}" "/api/apiapi/{oid}" = true
  /\ normalize_path "/api/apiapi/{oid}" = "/api/{orgId}"
  /\ normalize_path (normalize_path "/api/apiapi/{oid}") = "/{orgId}"
  /\ normalize_path (normalize_path "/api/apiapi/{oid}")
     <> normalize_path "/api/apiapi/{oid}".
Proof. repeat split; try reflexivity. discriminate. Qed.

(** ** The rewriting of reference pointers *)

Lemma convert_param_refs_dict (d : dict) :
  convert_param_refs (YDict d)
  = YDict (map (fun kv => (fst kv, converted_ref (fst kv) (snd kv))) d).
Proof.
  cbn [convert_param_refs]. apply (f_equal YDict). apply map_ext.
  intros [k v]. cbn [fst snd]. destruct v; reflexivity.
Qed.

Lemma child_key_convert_param_refs (k : string) (t : yaml) :
  child (Key k) (convert_param_refs t)
  = option_map (converted_ref k) (child (Key k) t).
Proof.
  destruct t as [| | | | |l|d]; try reflexivity.
  rewrite convert_param_refs_dict. cbn [child].
  apply (dict_get_map converted_ref).
Qed.

Lemma child_idx_convert_param_refs (i : nat) (t : yaml) :
  child (Idx i) (convert_param_refs t)
  = option_map convert_param_refs (child (Idx i) t).
Proof.
  destruct t as [| | | | |l|d]; try reflexivity.
  cbn [convert_param_refs child]. apply nth_error_map.
Qed.

Lemma converted_ref_inner (k : string) (c : yaml) (q : list step) (v : yaml) :
  q <> [] -> node_at q c = Some v -> converted_ref k c = convert_param_refs c.
Proof.
  intros Hq H. destruct c; try reflexivity.
  rewrite node_at_scalar in H; [discriminate|reflexivity|exact Hq].
Qed.

(** The string of a ["$ref"] entry is rewritten. *)
Lemma convert_param_refs_at_ref (path : list step) (s : string) :
  forall t,
    node_at (path ++ [Key "$ref"]) t = Some (YStr s) ->
    node_at (path ++ [Key "$ref"]) (convert_param_refs t)
    = Some (YStr (rewrite_ref s)).
Proof.
  induction path as [|s0 path IH]; intros t H; cbn [app node_at] in *.
  - rewrite child_key_convert_param_refs.
    destruct (child (Key "$ref") t) as [c|]; [|discriminate].
    injection H as ->. reflexivity.
  - destruct s0 as [k|j].
    + rewrite child_key_convert_param_refs.
      destruct (child (Key k) t) as [c|]; [|discriminate]. cbn [option_map].
      rewrite (converted_ref_inner k c (path ++ [Key "$ref"]) (YStr s));
        [apply IH, H| |exact H].
      destruct path; discriminate.
    + rewrite child_idx_convert_param_refs.
      destruct (child (Idx j) t) as [c|]; [|discriminate]. apply IH, H.
Qed.

(** A scalar that is not the value of a ["$ref"] entry stays. *)
Lemma convert_param_refs_elsewhere (path : list step) (s : step) (v : yaml) :
  depth v = 0 -> s <> Key "$ref" ->
  forall t,
    node_at (path ++ [s]) t = Some v ->
    node_at (path ++ [s]) (convert_param_refs t) = Some v.
Proof.
  intros Hv Hs. induction path as [|s0 path IH]; intros t H;
    cbn [app node_at] in *.
  - destruct s as [k|j].
    + rewrite child_key_convert_param_refs.
      destruct (child (Key k) t) as [c|]; [|discriminate]. injection H as ->.
      cbn [option_map]. f_equal. destruct v; try discriminate; try reflexivity.
      cbn [converted_ref]. destruct (String.eqb_spec k "$ref"); [|reflexivity].
      subst k. congruence.
    + rewrite child_idx_convert_param_refs.
      destruct (child (Idx j) t) as [c|]; [|discriminate]. injection H as ->.
      cbn [option_map]. f_equal. destruct v; try discriminate; reflexivity.
  - destruct s0 as [k|j].
    + rewrite child_key_convert_param_refs.
      destruct (child (Key k) t) as [c|]; [|discriminate]. cbn [option_map].
      rewrite (converted_ref_inner k c (path ++ [s]) v); [apply IH, H| |exact H].
      destruct path; discriminate.
    + rewrite child_idx_convert_param_refs.
      destruct (child (Idx j) t) as [c|]; [|discriminate]. apply IH, H.
Qed.

Lemma rewrite_ref_exact (old new : string) :
  In (old, new) param_map ->
  rewrite_ref ("#/components/parameters/" ++ old)
  = ("#/components/parameters/" ++ new)%string.
Proof.
  intros H. cbn in H.
  repeat (destruct H as [[= <- <-]|H]; [reflexivity|]). destruct H.
Qed.

Lemma rewrite_ref_no_match (s : string) :
  (forall old new, In (old, new) param_map ->
                   Str.contains ("parameters/" ++ old) s = false) ->
  rewrite_ref s = s.
Proof.
  intros H. unfold rewrite_ref.
  assert (Hgen : forall m, incl m param_map ->
            fold_left
              (fun value on =>
                 if Str.contains ("parameters/" ++ fst on) value
                 then Str.replace ("parameters/" ++ fst on)
                                  ("parameters/" ++ snd on) value
                 else value) m s = s).
  { induction m as [|[old new] m IH]; intros Hm; [reflexivity|].
    cbn [fold_left fst snd].
    rewrite (H old new) by (apply Hm; left; reflexivity).
    apply IH. intros x Hx. apply Hm. right. exact Hx. }
  apply Hgen, incl_refl.
Qed.

Lemma stage_staged (official_paths : list string) (missing missing' : dict)
    (path : string) (path_obj : yaml) :
  mem (normalize_path path) official_paths = false ->
  stage official_paths missing (path, path_obj) = Ok missing' ->
  exists converted,
    convert_param_names_in_path path_obj = Ok converted
    /\ missing' = dict_set (normalize_path path) (convert_param_refs converted)
                           missing.
Proof.
  unfold stage. cbn [fst snd]. intros -> H.
  apply bind_ok_inv in H as (converted & Hc & [= <-]). eauto.
Qed.

(** C4, as the code has it: a staged PathItem is stored with its
    pointers rewritten by [convert_param_refs], whose table is its own
    ([OrgId] to [orgIdPathParam], ...), not the normalizer's: the
    string of every ["$ref"] entry goes through [rewrite_ref], which
    turns a pointer to a parameter of the table into the pointer to its
    new name, the text before the name kept, and leaves a string
    without any ["parameters/<old>"] as it is; scalars elsewhere are
    left as they are. *)
Theorem staged_refs_rewritten (official_paths : list string)
    (missing missing' : dict) (path : string) (path_obj : yaml) :
  mem (normalize_path path) official_paths = false ->
  stage official_paths missing (path, path_obj) = Ok missing' ->
  exists converted,
    convert_param_names_in_path path_obj = Ok converted
    /\ dict_get (normalize_path path) missing'
       = Some (convert_param_refs converted)
    /\ (forall where_ s,
          node_at (where_ ++ [Key "$ref"]) converted = Some (YStr s) ->
          node_at (where_ ++ [Key "$ref"]) (convert_param_refs converted)
          = Some (YStr (rewrite_ref s)))
    /\ (forall where_ s v,
          depth v = 0 -> s <> Key "$ref" ->
          node_at (where_ ++ [s]) converted = Some v ->
          node_at (where_ ++ [s]) (convert_param_refs converted) = Some v)
    /\ (forall old new,
          In (old, new) param_map ->
          rewrite_ref ("#/components/parameters/" ++ old)
          = ("#/components/parameters/" ++ new)%string)
    /\ (forall s,
          (forall old new, In (old, new) param_map ->
                           Str.contains ("parameters/" ++ old) s = false) ->
          rewrite_ref s = s).
Proof.
  intros Hmem H.
  destruct (stage_staged _ _ _ _ _ Hmem H) as (converted & Hc & ->).
  exists converted. split; [exact Hc|].
  split; [apply dict_get_set_same|].
  split; [intros w s; apply convert_param_refs_at_ref|].
  split; [intros w s v Hv Hs; apply convert_param_refs_elsewhere; assumption|].
  split; [apply rewrite_ref_exact|apply rewrite_ref_no_match].
Qed.

(** ** The merge *)

Lemma mem_in (k : string) (l : list string) : mem k l = true <-> In k l.
Proof.
  unfold mem. rewrite existsb_exists. split.
  - intros (x & Hx & E). apply String.eqb_eq in E. subst x. exact Hx.
  - intros H. exists k. split; [exact H|apply String.eqb_refl].
Qed.

Lemma mem_not_in (k : string) (l : list string) : mem k l = false <-> ~ In k l.
Proof.
  rewrite <- mem_in. destruct (mem k l); split; intros H; congruence.
Qed.

Lemma dict_get_none (k : string) (d : dict) :
  dict_get k d = None <-> ~ In k (keys d).
Proof.
  induction d as [|[k' v'] d IH]; cbn [dict_get keys map fst In].
  - tauto.
  - destruct (String.eqb_spec k k') as [->|Hne].
    + split; [discriminate|tauto].
    + fold (keys d). rewrite IH. split; [intros H [E|E]; congruence|tauto].
Qed.

Lemma dict_get_app (k : string) (a b : dict) :
  dict_get k (a ++ b)
  = match dict_get k a with Some v => Some v | None => dict_get k b end.
Proof.
  induction a as [|[k' v'] a IH]; cbn [app dict_get]; [reflexivity|].
  destruct (String.eqb k k'); [reflexivity|exact IH].
Qed.

Lemma keys_app (a b : dict) : keys (a ++ b) = keys a ++ keys b.
Proof. apply map_app. Qed.

Lemma dict_set_fresh (k : string) (v : yaml) (d : dict) :
  ~ In k (keys d) -> dict_set k v d = d ++ [(k, v)].
Proof.
  induction d as [|[k' v'] d IH]; cbn [dict_set keys map fst In app];
    intros H; [reflexivity|].
  destruct (String.eqb_spec k k') as [->|Hne]; [tauto|].
  rewrite IH; [reflexivity|]. fold (keys d) in H. tauto.
Qed.

Lemma keys_dict_set (k k' : string) (v : yaml) (d : dict) :
  In k' (keys (dict_set k v d)) <-> k' = k \/ In k' (keys d).
Proof.
  induction d as [|[k2 v2] d IH]; cbn [dict_set keys map fst In].
  - intuition congruence.
  - destruct (String.eqb_spec k k2) as [->|Hne]; cbn [map fst In].
    + fold (keys d). intuition congruence.
    + fold (keys d) in *. fold (keys (dict_set k v d)). rewrite IH. tauto.
Qed.

Lemma keys_dict_set_nodup (k : string) (v : yaml) (d : dict) :
  NoDup (keys d) -> NoDup (keys (dict_set k v d)).
Proof.
  induction d as [|[k2 v2] d IH]; cbn [dict_set keys map fst]; intros H.
  - constructor; [intros []|constructor].
  - inversion H as [|? ? Hnin Hd]; subst.
    destruct (String.eqb_spec k k2) as [->|Hne]; cbn [map fst].
    + constructor; assumption.
    + constructor; [|apply IH, Hd].
      fold (keys (dict_set k v d)). rewrite keys_dict_set.
      fold (keys d) in Hnin. intros [E|E]; congruence.
Qed.

Lemma foldM_app (A S : Type) (f : S -> A -> result S) (l1 l2 : list A) (s : S) :
  foldM f (l1 ++ l2) s = s' <- foldM f l1 s ;; foldM f l2 s'.
Proof.
  revert s. induction l1 as [|a l1 IH]; intros s; cbn [app foldM]; [reflexivity|].
  destruct (f s a); cbn [bind]; [apply IH|reflexivity].
Qed.

Lemma get_paths_present (od tp : dict) :
  dict_get "paths" od = Some (YDict tp) ->
  get_paths_from_schema (YDict od) = Ok (keys tp).
Proof.
  intros H. unfold get_paths_from_schema. cbn [py_in bind]. unfold dict_has.
  rewrite H. cbn [py_getitem bind]. rewrite H. reflexivity.
Qed.

Lemma get_paths_absent (od : dict) :
  dict_get "paths" od = None -> get_paths_from_schema (YDict od) = Ok [].
Proof.
  intros H. unfold get_paths_from_schema. cbn [py_in bind]. unfold dict_has.
  rewrite H. reflexivity.
Qed.

Section Stage.
Variable official_paths : list string.

Lemma stage_skip (missing : dict) (entry : string * yaml) :
  mem (normalize_path (fst entry)) official_paths = true ->
  stage official_paths missing entry = Ok missing.
Proof. unfold stage. intros ->. reflexivity. Qed.

Lemma stage_cases (missing missing' : dict) (entry : string * yaml) :
  stage official_paths missing entry = Ok missing' ->
  (mem (normalize_path (fst entry)) official_paths = true /\ missing' = missing)
  \/ (mem (normalize_path (fst entry)) official_paths = false
      /\ exists converted,
           convert_param_names_in_path (snd entry) = Ok converted
           /\ missing' = dict_set (normalize_path (fst entry))
                                  (convert_param_refs converted) missing).
Proof.
  unfold stage. destruct (mem _ official_paths).
  - intros [= <-]. left. auto.
  - intros H. apply bind_ok_inv in H as (c & Hc & [= <-]). right. eauto.
Qed.

Lemma stage_total (missing : dict) (entry : string * yaml) :
  names_ok (snd entry) = true ->
  exists missing', stage official_paths missing entry = Ok missing'.
Proof.
  intros H. unfold stage. destruct (mem _ official_paths); [eauto|].
  destruct (convert_param_names_total _ H) as [c ->]. cbn [bind]. eauto.
Qed.

Lemma stage_all_total (items missing : dict) :
  items_ok items = true ->
  exists missing', foldM (stage official_paths) items missing = Ok missing'.
Proof.
  revert missing. induction items as [|e items IH]; intros missing H;
    cbn [foldM]; [eauto|].
  cbn [items_ok forallb] in H. apply andb_prop in H as [He H].
  destruct (stage_total missing e He) as [m' ->]. cbn [bind]. apply IH, H.
Qed.

Lemma stage_all_skip (items missing : dict) :
  (forall k, In k (keys items) -> In (normalize_path k) official_paths) ->
  foldM (stage official_paths) items missing = Ok missing.
Proof.
  induction items as [|e items IH]; intros H; cbn [foldM]; [reflexivity|].
  rewrite stage_skip.
  - cbn [bind]. apply IH. intros k Hk. apply H. right. exact Hk.
  - apply mem_in, H. left. reflexivity.
Qed.

Lemma stage_all_keys (items missing missing' : dict) :
  foldM (stage official_paths) items missing = Ok missing' ->
  forall k, In k (keys missing') <->
            In k (keys missing)
            \/ (In k (map normalize_path (keys items))
                /\ ~ In k official_paths).
Proof.
  revert missing. induction items as [|e items IH]; intros missing H k;
    cbn [foldM] in H.
  - injection H as <-. cbn. tauto.
  - apply bind_ok_inv in H as (m1 & H1 & H).
    rewrite (IH _ H k). cbn [keys map In]. fold (keys items).
    apply stage_cases in H1 as [[Hm ->]|[Hm (c & _ & ->)]].
    + apply mem_in in Hm. intuition (subst; tauto).
    + apply mem_not_in in Hm. rewrite keys_dict_set.
      intuition (subst; tauto).
Qed.

Lemma stage_all_nodup (items missing missing' : dict) :
  foldM (stage official_paths) items missing = Ok missing' ->
  NoDup (keys missing) -> NoDup (keys missing').
Proof.
  revert missing. induction items as [|e items IH]; intros missing H Hn;
    cbn [foldM] in H.
  - injection H as <-. exact Hn.
  - apply bind_ok_inv in H as (m1 & H1 & H). apply (IH _ H).
    apply stage_cases in H1 as [[_ ->]|[_ (c & _ & ->)]]; [exact Hn|].
    apply keys_dict_set_nodup, Hn.
Qed.

Lemma stage_all_keeps (items missing missing' : dict) (k : string) :
  foldM (stage official_paths) items missing = Ok missing' ->
  (forall e, In e items -> normalize_path (fst e) <> k) ->
  dict_get k missing' = dict_get k missing.
Proof.
  revert missing. induction items as [|e items IH]; intros missing H Hk;
    cbn [foldM] in H.
  - injection H as <-. reflexivity.
  - apply bind_ok_inv in H as (m1 & H1 & H).
    rewrite (IH _ H) by (intros e' He'; apply Hk; right; exact He').
    apply stage_cases in H1 as [[_ ->]|[_ (c & _ & ->)]]; [reflexivity|].
    apply dict_get_set_other. intros E. apply (Hk e); [left; reflexivity|].
    symmetry. exact E.
Qed.

(** The last entry of a normalized path decides what is staged. *)
Lemma stage_all_last (l1 l2 missing missing' : dict) (path : string)
    (path_obj : yaml) :
  foldM (stage official_paths) (l1 ++ (path, path_obj) :: l2) missing
  = Ok missing' ->
  ~ In (normalize_path path) official_paths ->
  (forall e, In e l2 -> normalize_path (fst e) <> normalize_path path) ->
  exists converted,
    convert_param_names_in_path path_obj = Ok converted
    /\ dict_get (normalize_path path) missing'
       = Some (convert_param_refs converted).
Proof.
  intros H Hnin Hl2. rewrite foldM_app in H.
  apply bind_ok_inv in H as (m1 & _ & H). cbn [foldM] in H.
  apply bind_ok_inv in H as (m2 & H2 & H).
  apply stage_cases in H2 as [[Hm _]|[_ (c & Hc & ->)]].
  - apply mem_in in Hm. tauto.
  - exists c. split; [exact Hc|].
    rewrite (stage_all_keeps _ _ _ _ H Hl2). apply dict_get_set_same.
Qed.

End Stage.

Lemma setitem_in_dict (od inner : dict) (k1 k2 : string) (x : yaml) :
  dict_get k1 od = Some (YDict inner) ->
  setitem_in (YDict od) k1 k2 x
  = Ok (YDict (dict_set k1 (YDict (dict_set k2 x inner)) od)).
Proof. intros H. unfold setitem_in. cbn [py_getitem]. rewrite H. reflexivity. Qed.

(** The paths after the loop that inserts the staged entries. *)
Lemma insert_staged (missing od tp : dict) :
  dict_get "paths" od = Some (YDict tp) ->
  foldM (fun official entry =>
           setitem_in official "paths" (fst entry) (snd entry))
        missing (YDict od)
  = Ok (YDict (dict_set "paths"
                 (YDict (fold_left (fun acc e => dict_set (fst e) (snd e) acc)
                                   missing tp)) od)).
Proof.
  revert od tp. induction missing as [|[k v] missing IH]; intros od tp H;
    cbn [foldM fold_left fst snd].
  - rewrite dict_set_same by exact H. reflexivity.
  - rewrite (setitem_in_dict _ _ _ _ _ H). cbn [bind].
    rewrite (IH _ (dict_set k v tp)) by apply dict_get_set_same.
    rewrite dict_set_set. reflexivity.
Qed.

Lemma insert_staged_no_paths (missing od : dict) :
  dict_get "paths" od = None -> missing <> [] ->
  foldM (fun official entry =>
           setitem_in official "paths" (fst entry) (snd entry))
        missing (YDict od)
  = Raise KeyError.
Proof.
  intros H Hm. destruct missing as [|[k v] missing]; [congruence|].
  cbn [foldM]. unfold setitem_in. cbn [py_getitem]. rewrite H. reflexivity.
Qed.

Lemma fold_dict_set_fresh (missing tp : dict) :
  NoDup (keys missing) ->
  (forall k, In k (keys missing) -> ~ In k (keys tp)) ->
  fold_left (fun acc e => dict_set (fst e) (snd e) acc) missing tp
  = tp ++ missing.
Proof.
  revert tp. induction missing as [|[k v] missing IH]; intros tp Hn Hd;
    cbn [fold_left fst snd].
  - symmetry. apply List.app_nil_r.
  - cbn [keys map fst] in Hn. inversion Hn as [|? ? Hk Hn']; subst.
    rewrite dict_set_fresh by (apply Hd; left; reflexivity).
    rewrite IH.
    + rewrite <- List.app_assoc. reflexivity.
    + exact Hn'.
    + intros k' Hk'. rewrite keys_app. cbn [keys map fst]. intros Hin.
      apply in_app_or in Hin as [Hin|[<-|[]]].
      * apply (Hd k'); [right; exact Hk'|exact Hin].
      * apply Hk, Hk'.
Qed.

Lemma existing_tags_total (d : dict) :
  tags_ok d = true -> exists existing, existing_tags (YDict d) = Ok existing.
Proof.
  unfold tags_ok, existing_tags. cbn [py_get bind].
  destruct (dict_get "tags" d) as [[| | | | |l|]|]; try discriminate.
  - cbn [py_iter bind]. intros H. apply mapM_total.
    apply Forall_forall. intros t Ht. rewrite forallb_forall in H.
    specialize (H t Ht). destruct t as [| | | | | |td]; try discriminate.
    cbn [tag_ok py_getitem] in *.
    destruct (dict_get "name" td) as [[| | | | | |]|]; try discriminate;
      cbn [bind py_hashable]; eauto.
  - intros _. exists []. reflexivity.
Qed.

Lemma add_tag_named (existing : list yaml) (official : yaml) (td : dict)
    (s : string) :
  dict_get "name" td = Some (YStr s) ->
  add_tag existing official (YDict td)
  = if existsb (is_str s) existing then Ok official
    else append_tag official (YDict td).
Proof. intros H. unfold add_tag. cbn [py_getitem]. rewrite H. reflexivity. Qed.

(** The loop over [new_tags] touches the entry ["tags"] only. *)
Lemma add_tags_total (existing ts : list yaml) (d : dict) :
  Forall (fun t => exists td s, t = YDict td /\ dict_get "name" td = Some (YStr s)) ts ->
  (dict_get "tags" d = None \/ exists l, dict_get "tags" d = Some (YList l)) ->
  exists d', foldM (add_tag existing) ts (YDict d) = Ok (YDict d')
             /\ forall k, k <> "tags" -> dict_get k d' = dict_get k d.
Proof.
  intros Hts. revert d. induction Hts as [|t ts (td & s & -> & Hname) _ IH];
    intros d Hd; cbn [foldM].
  - exists d. auto.
  - rewrite (add_tag_named _ _ _ _ Hname).
    destruct (existsb _ existing); cbn [bind].
    + apply IH, Hd.
    + unfold append_tag.
      destruct Hd as [Hd|[l Hd]]; rewrite Hd; cbn [bind].
      * destruct (IH (dict_set "tags" (YList [YDict td]) d)) as (d' & H1 & H2).
        { right. eexists. apply dict_get_set_same. }
        exists d'. split; [exact H1|]. intros k Hk. rewrite (H2 k Hk).
        apply dict_get_set_other, Hk.
      * destruct (IH (dict_set "tags" (YList (l ++ [YDict td])) d))
          as (d' & H1 & H2).
        { right. eexists. apply dict_get_set_same. }
        exists d'. split; [exact H1|]. intros k Hk. rewrite (H2 k Hk).
        apply dict_get_set_other, Hk.
Qed.

Lemma new_tags_named :
  Forall (fun t => exists td s, t = YDict td /\ dict_get "name" td = Some (YStr s))
         new_tags.
Proof.
  unfold new_tags, tag. repeat constructor; eexists; eexists; split; reflexivity.
Qed.

Lemma tags_ok_shape (d : dict) :
  tags_ok d = true ->
  dict_get "tags" d = None \/ exists l, dict_get "tags" d = Some (YList l).
Proof.
  unfold tags_ok. destruct (dict_get "tags" d) as [[| | | | |l|]|];
    try discriminate; eauto.
Qed.

Lemma tags_ok_other (k : string) (v : yaml) (d : dict) :
  k <> "tags" -> tags_ok (dict_set k v d) = tags_ok d.
Proof.
  intros H. unfold tags_ok. rewrite dict_get_set_other; [reflexivity|].
  intros E. apply H. symmetry. exact E.
Qed.

(** The tags part of [main] on a document with well-formed tags. *)
Lemma merge_tags (d : dict) :
  tags_ok d = true ->
  exists d', (existing <- existing_tags (YDict d) ;;
              foldM (add_tag existing) new_tags (YDict d)) = Ok (YDict d')
             /\ forall k, k <> "tags" -> dict_get k d' = dict_get k d.
Proof.
  intros H. destruct (existing_tags_total d H) as [existing ->]. cbn [bind].
  apply add_tags_total; [apply new_tags_named|apply tags_ok_shape, H].
Qed.

(** [main] when both documents have a paths dict: the staged entries
    are appended to the paths of the official document. *)
Lemma merge_with_paths (od cd tp sp missing : dict) :
  dict_get "paths" od = Some (YDict tp) ->
  dict_get "paths" cd = Some (YDict sp) ->
  foldM (stage (keys tp)) sp [] = Ok missing ->
  tags_ok od = true ->
  exists d', merge (YDict od) (YDict cd) = Ok (YDict d')
             /\ dict_get "paths" d' = Some (YDict (tp ++ missing))
             /\ forall k, k <> "paths" -> k <> "tags" ->
                          dict_get k d' = dict_get k od.
Proof.
  intros Ht Hs Hm Htags. unfold merge.
  rewrite (get_paths_present _ _ Ht). cbn [bind py_getitem]. rewrite Hs.
  cbn [bind py_items]. rewrite Hm. cbn [bind].
  rewrite (insert_staged _ _ _ Ht). cbn [bind].
  rewrite fold_dict_set_fresh.
  - destruct (merge_tags (dict_set "paths" (YDict (tp ++ missing)) od))
      as (d' & H1 & H2).
    { rewrite tags_ok_other by discriminate. exact Htags. }
    exists d'. split; [exact H1|]. split.
    + rewrite H2 by discriminate. apply dict_get_set_same.
    + intros k Hk1 Hk2. rewrite (H2 k Hk2). apply dict_get_set_other, Hk1.
  - apply (stage_all_nodup _ _ _ _ Hm). constructor.
  - intros k Hk. apply (stage_all_keys _ _ _ _ Hm) in Hk as [[]|[_ Hk]].
    exact Hk.
Qed.

(** C2, as the code has it: the PathItems of the target stay, under
    their keys and in their order; a source entry whose normalized path
    is not a key of the target is inserted, converted, under its
    normalized path unless a later source entry has the same normalized
    path, in which case the later one is; the keys of the result are
    those of the target and the normalized keys of the source. *)
Theorem merge_paths (od cd tp sp : dict) :
  dict_get "paths" od = Some (YDict tp) ->
  dict_get "paths" cd = Some (YDict sp) ->
  items_ok sp = true ->
  tags_ok od = true ->
  exists d' missing,
    merge (YDict od) (YDict cd) = Ok (YDict d')
    /\ dict_get "paths" d' = Some (YDict (tp ++ missing))
    /\ (forall k, In k (keys tp) ->
                  dict_get k (tp ++ missing) = dict_get k tp)
    /\ (forall l1 path path_obj l2,
          sp = l1 ++ (path, path_obj) :: l2 ->
          ~ In (normalize_path path) (keys tp) ->
          (forall e, In e l2 -> normalize_path (fst e) <> normalize_path path) ->
          exists converted,
            convert_param_names_in_path path_obj = Ok converted
            /\ dict_get (normalize_path path) (tp ++ missing)
               = Some (convert_param_refs converted))
    /\ (forall k, In k (keys (tp ++ missing)) <->
                  In k (keys tp) \/ In k (map normalize_path (keys sp))).
Proof.
  intros Ht Hs Hitems Htags.
  destruct (stage_all_total (keys tp) sp [] Hitems) as [missing Hm].
  destruct (merge_with_paths _ _ _ _ _ Ht Hs Hm Htags) as (d' & H1 & H2 & _).
  exists d', missing. split; [exact H1|]. split; [exact H2|].
  split; [|split].
  - intros k Hk. rewrite dict_get_app.
    destruct (dict_get k tp) eqn:E; [reflexivity|].
    apply dict_get_none in E. tauto.
  - intros l1 path path_obj l2 -> Hnin Hl2.
    destruct (stage_all_last _ _ _ _ _ _ _ Hm Hnin Hl2) as (c & Hc & Hget).
    exists c. split; [exact Hc|]. rewrite dict_get_app.
    destruct (dict_get (normalize_path path) tp) eqn:E; [|exact Hget].
    exfalso. apply Hnin. destruct (in_dec string_dec (normalize_path path) (keys tp))
      as [Hin|Hn]; [exact Hin|]. apply dict_get_none in Hn. congruence.
  - intros k. rewrite keys_app, in_app_iff, (stage_all_keys _ _ _ _ Hm k).
    cbn [keys map In].
    destruct (in_dec string_dec k (keys tp)); tauto.
Qed.

(** C2, as stated, fails: of two source entries with one normalized
    path, not in the target, the first is not the one inserted. *)
Lemma merge_paths_collision :
  normalize_path "/api/x" = "/x"
  /\ convert_param_names_in_path (YDict [("get", YStr "first")])
     = Ok (YDict [("get", YStr "first")])
  /\ exists d', merge Sample.empty_target Sample.colliding_source = Ok (YDict d')
                /\ dict_get "paths" d'
                   = Some (YDict [("/x", YDict [("get", YStr "second")])])
                /\ dict_get "paths" d'
                   <> Some (YDict [("/x", convert_param_refs
                                           (YDict [("get", YStr "first")]))]).
Proof.
  split; [reflexivity|]. split; [reflexivity|].
  eexists. split; [vm_compute; reflexivity|].
  split; [reflexivity|]. vm_compute. discriminate.
Qed.

(** C3, as the code has it: when the normalized form of every path key
    of [D] is a key of [D], the merge of [D] with itself leaves its
    paths and its components as they are. *)
Theorem merge_self (d ps : dict) :
  dict_get "paths" d = Some (YDict ps) ->
  tags_ok d = true ->
  (forall k, In k (keys ps) -> In (normalize_path k) (keys ps)) ->
  exists d', merge (YDict d) (YDict d) = Ok (YDict d')
             /\ dict_get "paths" d' = Some (YDict ps)
             /\ dict_get "components" d' = dict_get "components" d.
Proof.
  intros Hp Htags Hclosed.
  pose proof (stage_all_skip (keys ps) ps [] Hclosed) as Hm.
  destruct (merge_with_paths _ _ _ _ _ Hp Hp Hm Htags) as (d' & H1 & H2 & H3).
  exists d'. split; [exact H1|]. split.
  - rewrite H2, List.app_nil_r. reflexivity.
  - apply H3; discriminate.
Qed.

(** C3, as stated, fails: a document with a path of the comprehensive
    convention gets its normalized path too. *)
Lemma merge_self_changes_paths :
  exists d', merge Sample.api_doc Sample.api_doc = Ok (YDict d')
             /\ dict_get "paths" d'
                = Some (YDict [("/api/x", YDict []); ("/x", YDict [])])
             /\ dict_get "paths" d' <> dict_get "paths" [("paths", YDict [("/api/x", YDict [])]); ("components", YDict [])].
Proof.
  eexists. split; [vm_compute; reflexivity|].
  split; [reflexivity|]. vm_compute. discriminate.
Qed.

Lemma stage_all_nonempty (items missing : dict) (e : string * yaml) :
  foldM (stage []) (e :: items) [] = Ok missing -> missing <> [].
Proof.
  intros H Hm. subst missing.
  pose proof (stage_all_keys [] _ _ _ H (normalize_path (fst e))) as [_ Hk].
  cbn [keys map In] in Hk. apply Hk. right. split; [left; reflexivity|tauto].
Qed.

(** C8, as the code has it, for a target and a source that are dicts.
    With the paths of the target absent or a dict and no paths in the
    source, [main] raises [KeyError].  With no paths in the target, the
    paths of the source a dict and the parameter names of its PathItems
    ones that can be hashed, [main] raises [KeyError]: at the first
    staged path, nothing being written, when the source has a path;
    and, when it has none and the tags of the target, if any, are a
    list of dicts with a name that can be hashed, at the last report,
    the merged document being written by then.  With the paths of both
    dicts, the parameter names ones that can be hashed and the tags as
    said, [main] completes.  With paths in the target that are no dict,
    [main] raises [AttributeError] whatever the source.  The components
    are not read, so none is required. *)
Theorem merge_failures (od cd : dict) :
  ((dict_get "paths" od = None
    \/ exists tp, dict_get "paths" od = Some (YDict tp)) ->
   dict_get "paths" cd = None ->
   merge_main (YDict od) (YDict cd) = Raise KeyError)
  /\ (forall sp,
        dict_get "paths" od = None ->
        dict_get "paths" cd = Some (YDict sp) -> items_ok sp = true ->
        (sp <> [] ->
         merge (YDict od) (YDict cd) = Raise KeyError
         /\ merge_main (YDict od) (YDict cd) = Raise KeyError)
        /\ (sp = [] -> tags_ok od = true ->
            (exists written, merge (YDict od) (YDict cd) = Ok written)
            /\ merge_main (YDict od) (YDict cd) = Raise KeyError))
  /\ (forall tp sp,
        dict_get "paths" od = Some (YDict tp) ->
        dict_get "paths" cd = Some (YDict sp) -> items_ok sp = true ->
        tags_ok od = true ->
        exists result, merge_main (YDict od) (YDict cd) = Ok result)
  /\ (forall v source,
        dict_get "paths" od = Some v -> (forall tp, v <> YDict tp) ->
        merge_main (YDict od) source = Raise AttributeError).
Proof.
  split; [|split; [|split]].
  - intros Hpaths Hs. unfold merge_main, merge.
    destruct Hpaths as [Hn|[tp Ht]].
    + rewrite (get_paths_absent _ Hn). cbn [bind py_getitem]. rewrite Hs.
      reflexivity.
    + rewrite (get_paths_present _ _ Ht). cbn [bind py_getitem]. rewrite Hs.
      reflexivity.
  - intros sp Hn Hs Hitems. split.
    + intros Hne. destruct sp as [|e sp]; [destruct (Hne eq_refl)|].
      destruct (stage_all_total [] (e :: sp) [] Hitems) as [missing Hst].
      assert (Hm : merge (YDict od) (YDict cd) = Raise KeyError).
      { unfold merge. rewrite (get_paths_absent _ Hn).
        cbn [bind py_getitem]. rewrite Hs. cbn [bind py_items].
        rewrite Hst. cbn [bind].
        rewrite (insert_staged_no_paths _ _ Hn (stage_all_nonempty _ _ _ Hst)).
        reflexivity. }
      split; [exact Hm|]. unfold merge_main. rewrite Hm. reflexivity.
    + intros -> Htags.
      assert (Hm : merge (YDict od) (YDict cd)
                   = existing <- existing_tags (YDict od) ;;
                     foldM (add_tag existing) new_tags (YDict od)).
      { unfold merge. rewrite (get_paths_absent _ Hn).
        cbn [bind py_getitem]. rewrite Hs. reflexivity. }
      destruct (merge_tags od Htags) as (d' & H1 & H2).
      rewrite H1 in Hm. split; [exists (YDict d'); exact Hm|].
      unfold merge_main. rewrite Hm, bind_ok. cbn [py_getitem].
      rewrite H2 by discriminate. rewrite Hn. reflexivity.
  - intros tp sp Ht Hs Hitems Htags.
    destruct (stage_all_total (keys tp) sp [] Hitems) as [missing Hm].
    destruct (merge_with_paths _ _ _ _ _ Ht Hs Hm Htags) as (d' & H1 & H2 & _).
    exists (YDict d'). unfold merge_main. rewrite H1, bind_ok.
    cbn [py_getitem]. rewrite H2. reflexivity.
  - intros v source Hv Hnd. unfold merge_main, merge, get_paths_from_schema.
    cbn [py_in py_getitem]. unfold dict_has. rewrite Hv, !bind_ok.
    destruct v; try reflexivity. destruct (Hnd entries eq_refl).
Qed.

(** C8, as stated, fails: two documents with paths and without
    components are merged without error, and a target with paths and
    components but a tag that is no dict raises. *)
Lemma merge_failures_differ :
  (exists result,
     merge_main Sample.empty_target (YDict [("paths", YDict [])]) = Ok result)
  /\ merge_main Sample.string_tags_target Sample.bare_source = Raise TypeError.
Proof. split; [eexists; vm_compute; reflexivity|reflexivity]. Qed.

(** C4, as stated, fails: the pointer to [oid], a name of the
    normalizer's table, is left as it is; the pointer to [OrgId], which
    that table does not have, is rewritten; and the pointer to
    [OrgIdentifier], a name of no table, is changed too. *)
Lemma staged_refs_other_table :
  exists d',
    merge Sample.empty_target Sample.refs_source = Ok (YDict d')
    /\ node_at [Key "paths"; Key "/orgs/{orgId}"; Key "parameters"; Idx 0;
                Key "$ref"] (YDict d')
       = Some (YStr "#/components/parameters/oid")
    /\ node_at [Key "paths"; Key "/orgs/{orgId}"; Key "parameters"; Idx 1;
                Key "$ref"] (YDict d')
       = Some (YStr "#/components/parameters/orgIdPathParam")
    /\ node_at [Key "paths"; Key "/orgs/{orgId}"; Key "parameters"; Idx 2;
                Key "$ref"] (YDict d')
       = Some (YStr "#/components/parameters/orgIdPathParamentifier").
Proof. eexists. split; [vm_compute; reflexivity|]. repeat split. Qed.

(** ** The copy of missing definitions *)

Lemma definitions_dict (category : string) (d : dict) :
  definitions category (YDict d)
  = match dict_get "components" d with
    | Some components => py_get components category (YDict [])
    | None => Ok (YDict [])
    end.
Proof.
  unfold definitions. cbn [py_get bind].
  destruct (dict_get "components" d); reflexivity.
Qed.

Lemma add_definition_dict (category name : string) (x : yaml) (d td : dict) :
  definitions category (YDict d) = Ok (YDict td) ->
  exists d',
    add_definition category name x (YDict d) = Ok (YDict d')
    /\ definitions category (YDict d') = Ok (YDict (dict_set name x td))
    /\ (forall other, other <> category ->
                      definitions other (YDict d') = definitions other (YDict d))
    /\ (forall k, k <> "components" -> dict_get k d' = dict_get k d).
Proof.
  intros H. rewrite definitions_dict in H. unfold add_definition.
  cbn [py_get bind].
  destruct (dict_get "components" d) as [[| | | | | |c]|] eqn:E;
    try discriminate; cbn [py_get bind] in *.
  - injection H as H. rewrite H. cbn [py_setitem bind].
    eexists. split; [reflexivity|]. split; [|split].
    + rewrite definitions_dict, dict_get_set_same. cbn [py_get].
      rewrite dict_get_set_same. reflexivity.
    + intros other Hne. rewrite !definitions_dict, dict_get_set_same, E.
      cbn [py_get]. rewrite dict_get_set_other by exact Hne. reflexivity.
    + intros k Hk. apply dict_get_set_other, Hk.
  - injection H as <-. cbn [dict_get py_setitem bind].
    eexists. split; [reflexivity|]. split; [|split].
    + rewrite definitions_dict, dict_get_set_same. cbn [py_get].
      rewrite dict_get_set_same. reflexivity.
    + intros other Hne. rewrite !definitions_dict, dict_get_set_same, E.
      cbn [py_get]. rewrite dict_get_set_other by exact Hne. reflexivity.
    + intros k Hk. apply dict_get_set_other, Hk.
Qed.

Lemma definitions_source_get (category name : string) (comprehensive : yaml)
    (sd : dict) (x : yaml) :
  definitions category comprehensive = Ok (YDict sd) ->
  dict_get name sd = Some x ->
  (components <- py_getitem comprehensive "components" ;;
   defs <- py_getitem components category ;;
   py_getitem defs name) = Ok x.
Proof.
  intros H Hx. destruct comprehensive as [| | | | | |cd]; try discriminate.
  rewrite definitions_dict in H. cbn [py_getitem].
  destruct (dict_get "components" cd) as [[| | | | | |c]|]; try discriminate.
  - cbn [py_get bind py_getitem] in *.
    destruct (dict_get category c) as [v|].
    + injection H as ->. cbn [bind py_getitem]. rewrite Hx. reflexivity.
    + injection H as <-. discriminate.
  - injection H as <-. discriminate.
Qed.

Lemma copy_missing_dict (category name : string) (comprehensive : yaml)
    (d td sd : dict) :
  definitions category (YDict d) = Ok (YDict td) ->
  definitions category comprehensive = Ok (YDict sd) ->
  exists d',
    copy_missing category comprehensive (YDict d) name = Ok (YDict d')
    /\ definitions category (YDict d') = Ok (YDict (copied sd [name] td))
    /\ (forall other, other <> category ->
                      definitions other (YDict d') = definitions other (YDict d))
    /\ (forall k, k <> "components" -> dict_get k d' = dict_get k d).
Proof.
  intros Ht Hs. unfold copy_missing, copied. cbn [fold_left].
  rewrite Ht, bind_ok. cbn [py_in]. rewrite bind_ok.
  destruct (dict_has name td); [exists d; auto|].
  rewrite Hs, bind_ok. cbn [py_in]. rewrite bind_ok. unfold dict_has.
  destruct (dict_get name sd) as [x|] eqn:Ex; [|exists d; auto].
  pose proof (definitions_source_get _ _ _ _ _ Hs Ex) as Hx.
  destruct (py_getitem comprehensive "components") as [cc|]; [|discriminate].
  rewrite bind_ok in *.
  destruct (py_getitem cc category) as [dd|]; [|discriminate].
  rewrite bind_ok in *. rewrite Hx, bind_ok.
  apply add_definition_dict, Ht.
Qed.

Lemma copy_all_missing (category : string) (comprehensive : yaml)
    (names : list string) (sd : dict) :
  definitions category comprehensive = Ok (YDict sd) ->
  forall d td,
    definitions category (YDict d) = Ok (YDict td) ->
    exists d',
      foldM (copy_missing category comprehensive) names (YDict d) = Ok (YDict d')
      /\ definitions category (YDict d') = Ok (YDict (copied sd names td))
      /\ (forall other, other <> category ->
                        definitions other (YDict d') = definitions other (YDict d))
      /\ (forall k, k <> "components" -> dict_get k d' = dict_get k d).
Proof.
  intros Hs. induction names as [|name names IH]; intros d td Ht; cbn [foldM].
  - exists d. auto.
  - destruct (copy_missing_dict category name comprehensive d td sd Ht Hs)
      as (d1 & H1 & Hd1 & Ho1 & Hk1).
    rewrite H1. cbn [bind].
    destruct (IH d1 _ Hd1) as (d' & H2 & Hd' & Ho2 & Hk2).
    exists d'. split; [exact H2|]. split; [exact Hd'|]. split.
    + intros other Hne. rewrite (Ho2 other Hne). apply Ho1, Hne.
    + intros k Hk. rewrite (Hk2 k Hk). apply Hk1, Hk.
Qed.

Lemma copied_cons (sd : dict) (n : string) (names : list string) (td : dict) :
  copied sd (n :: names) td
  = copied sd names
      (if dict_has n td then td
       else match dict_get n sd with
            | Some x => dict_set n x td
            | None => td
            end).
Proof. reflexivity. Qed.

Lemma copied_keeps (sd : dict) (names : list string) (td : dict) (name : string)
    (v : yaml) :
  dict_get name td = Some v -> dict_get name (copied sd names td) = Some v.
Proof.
  revert td. induction names as [|n names IH]; intros td H; [exact H|].
  rewrite copied_cons. apply IH.
  destruct (dict_has n td) eqn:Eh; [exact H|].
  destruct (dict_get n sd); [|exact H].
  rewrite dict_get_set_other; [exact H|].
  intros ->. unfold dict_has in Eh. rewrite H in Eh. discriminate.
Qed.

Lemma copied_skips (sd : dict) (names : list string) (td : dict) (name : string) :
  dict_get name sd = None -> dict_get name td = None ->
  dict_get name (copied sd names td) = None.
Proof.
  intros Hs. revert td. induction names as [|n names IH]; intros td H;
    [exact H|].
  rewrite copied_cons. apply IH.
  destruct (dict_has n td); [exact H|].
  destruct (dict_get n sd) eqn:En; [|exact H].
  rewrite dict_get_set_other; [exact H|]. intros ->. congruence.
Qed.

(** A name of the list that the target lacks gets the definition of the
    source, or none when the source lacks it too. *)
Lemma copied_fills (sd : dict) (names : list string) (td : dict) (name : string) :
  In name names -> dict_get name td = None ->
  dict_get name (copied sd names td) = dict_get name sd.
Proof.
  destruct (dict_get name sd) as [x|] eqn:Ex;
    [|intros _; apply copied_skips, Ex].
  revert td. induction names as [|n names IH]; intros td Hin H; [destruct Hin|].
  rewrite copied_cons. destruct (string_dec n name) as [->|Hne].
  - unfold dict_has. rewrite H, Ex. apply copied_keeps, dict_get_set_same.
  - destruct Hin as [E|Hin]; [congruence|]. apply (IH _ Hin).
    destruct (dict_has n td); [exact H|].
    destruct (dict_get n sd); [|exact H].
    rewrite dict_get_set_other; [exact H|]. intros E. apply Hne. symmetry. exact E.
Qed.

Lemma insert_staged_keeps (missing : dict) (od : dict) (result : yaml) :
  foldM (fun official entry =>
           setitem_in official "paths" (fst entry) (snd entry))
        missing (YDict od) = Ok result ->
  exists d, result = YDict d
            /\ forall k, k <> "paths" -> dict_get k d = dict_get k od.
Proof.
  revert od. induction missing as [|[k v] missing IH]; intros od H;
    cbn [foldM fst snd] in H.
  - injection H as <-. exists od. auto.
  - apply bind_ok_inv in H as (o1 & H1 & H).
    unfold setitem_in in H1. cbn [py_getitem] in H1.
    destruct (dict_get "paths" od) as [[| | | | | |tp]|]; try discriminate.
    cbn [bind py_setitem] in H1. injection H1 as <-.
    destruct (IH _ H) as (d & -> & Hd). exists d. split; [reflexivity|].
    intros k' Hk'. rewrite (Hd k' Hk'). apply dict_get_set_other, Hk'.
Qed.

Lemma add_tags_keeps (existing ts : list yaml) (d : dict) (result : yaml) :
  foldM (add_tag existing) ts (YDict d) = Ok result ->
  exists d', result = YDict d'
             /\ forall k, k <> "tags" -> dict_get k d' = dict_get k d.
Proof.
  revert d. induction ts as [|t ts IH]; intros d H; cbn [foldM] in H.
  - injection H as <-. exists d. auto.
  - apply bind_ok_inv in H as (o1 & H1 & H).
    unfold add_tag in H1. apply bind_ok_inv in H1 as (name & _ & H1).
    destruct (existsb _ existing).
    + injection H1 as <-. apply IH, H.
    + unfold append_tag in H1.
      destruct (dict_get "tags" d) as [[| | | | |l|]|]; try discriminate;
        injection H1 as <-; destruct (IH _ H) as (d' & -> & Hd');
        exists d'; (split; [reflexivity|]); intros k Hk;
        rewrite (Hd' k Hk); apply dict_get_set_other, Hk.
Qed.

(** [main] of the merge leaves the components as they are. *)
Lemma merge_keeps_components (od : dict) (comprehensive result : yaml) :
  merge (YDict od) comprehensive = Ok result ->
  exists d, result = YDict d
            /\ dict_get "components" d = dict_get "components" od.
Proof.
  unfold merge. intros H.
  apply bind_ok_inv in H as (ops & _ & H).
  apply bind_ok_inv in H as (sp & _ & H).
  apply bind_ok_inv in H as (items & _ & H).
  apply bind_ok_inv in H as (missing & _ & H).
  apply bind_ok_inv in H as (o1 & H1 & H).
  apply bind_ok_inv in H as (existing & _ & H).
  apply insert_staged_keeps in H1 as (d1 & -> & Hd1).
  apply add_tags_keeps in H as (d & -> & Hd).
  exists d. split; [reflexivity|].
  rewrite Hd by discriminate. apply Hd1. discriminate.
Qed.

(** C1, as stated, fails: the staged path refers to the schema
    [Workspace], which the source has and the target has not, and the
    merged document has no components at all; and with the fix pass
    run after the merge, a staged SCIM path is deleted before the
    names are collected, so the schema it refers to is not copied
    either. *)
Lemma merge_copies_nothing :
  (exists d' staged,
     merge (YDict Sample.docs_target) (YDict Sample.workspaces_source)
     = Ok (YDict d')
     /\ node_at [Key "paths"; Key "/orgs/{orgId}/workspaces"] (YDict d')
        = Some staged
     /\ In "Workspace" (find_schema_refs staged)
     /\ node_at [Key "components"; Key "schemas"; Key "Workspace"]
                (YDict Sample.workspaces_source)
        = Some (YDict [("type", YStr "object")])
     /\ dict_get "components" Sample.docs_target = None
     /\ dict_get "components" d' = None)
  /\ (exists merged staged fixed,
        merge Sample.empty_target Sample.scim_source = Ok merged
        /\ node_at [Key "paths"; Key "/scim/Users"] merged = Some staged
        /\ In "User" (find_schema_refs staged)
        /\ fix_main (nodup string_dec) merged Sample.scim_source
           = Ok (YDict fixed)
        /\ dict_get "components" fixed = None).
Proof.
  split.
  - eexists. eexists. split; [vm_compute; reflexivity|].
    split; [reflexivity|]. split; [vm_compute; tauto|]. repeat split.
  - eexists. eexists. eexists. split; [vm_compute; reflexivity|].
    split; [reflexivity|]. split; [vm_compute; tauto|].
    split; [vm_compute; reflexivity|]. reflexivity.
Qed.

Section Backfill.

(** Python iterates over [set(refs)] in some order; every name of
    [refs] comes up. *)
Variable set_order : list string -> list string.
Hypothesis set_order_in : forall refs name, In name refs -> In name (set_order refs).

Lemma copy_missing_definitions_dict (category : string)
    (find : yaml -> list string) (comprehensive : yaml) (d td sd : dict) :
  definitions category (YDict d) = Ok (YDict td) ->
  definitions category comprehensive = Ok (YDict sd) ->
  exists d' rd,
    copy_missing_definitions set_order category find comprehensive (YDict d)
    = Ok (YDict d')
    /\ definitions category (YDict d') = Ok (YDict rd)
    /\ (forall name,
          In name (find (match dict_get "paths" d with
                         | Some paths => paths
                         | None => YDict []
                         end)) ->
          dict_get name td = None -> dict_get name rd = dict_get name sd)
    /\ (forall name v, dict_get name td = Some v -> dict_get name rd = Some v)
    /\ (forall other, other <> category ->
                      definitions other (YDict d') = definitions other (YDict d))
    /\ (forall k, k <> "components" -> dict_get k d' = dict_get k d).
Proof.
  intros Ht Hs. unfold copy_missing_definitions. cbn [py_get]. rewrite bind_ok.
  destruct (copy_all_missing category comprehensive
              (set_order (find (match dict_get "paths" d with
                                | Some paths => paths
                                | None => YDict []
                                end))) sd Hs d td Ht)
    as (d' & H1 & H2 & H3 & H4).
  exists d'. eexists. split; [exact H1|]. split; [exact H2|].
  split; [|split; [|split]].
  - intros name Hin Hnone. apply copied_fills; [|exact Hnone].
    apply set_order_in, Hin.
  - intros name v. apply copied_keeps.
  - exact H3.
  - exact H4.
Qed.

(** C1, as the code has it: the merge copies no definition and leaves
    the components of the target as they are; the fix pass does the
    copy, from the paths of the document as the repairs leave it: a
    schema or parameter name referred to there that the document lacks
    has in the result the definition the comprehensive document has
    under that name, and none when the comprehensive document lacks it
    too; a name the document has keeps its definition. *)
Theorem backfill (schema comprehensive : yaml) (od rd ts tp ss sp : dict) :
  repairs schema = Ok (YDict rd) ->
  definitions "schemas" (YDict rd) = Ok (YDict ts) ->
  definitions "parameters" (YDict rd) = Ok (YDict tp) ->
  definitions "schemas" comprehensive = Ok (YDict ss) ->
  definitions "parameters" comprehensive = Ok (YDict sp) ->
  (forall merged, merge (YDict od) comprehensive = Ok merged ->
                  exists d, merged = YDict d
                            /\ dict_get "components" d = dict_get "components" od)
  /\ exists d' paths rs rp,
       fix_main set_order schema comprehensive = Ok (YDict d')
       /\ py_get (YDict rd) "paths" (YDict []) = Ok paths
       /\ definitions "schemas" (YDict d') = Ok (YDict rs)
       /\ definitions "parameters" (YDict d') = Ok (YDict rp)
       /\ (forall name, In name (find_schema_refs paths) ->
                        dict_get name ts = None ->
                        dict_get name rs = dict_get name ss)
       /\ (forall name, In name (find_param_refs paths) ->
                        dict_get name tp = None ->
                        dict_get name rp = dict_get name sp)
       /\ (forall name v, dict_get name ts = Some v -> dict_get name rs = Some v)
       /\ (forall name v, dict_get name tp = Some v -> dict_get name rp = Some v).
Proof.
  intros Hrep Hts Htp Hss Hsp. split; [apply merge_keeps_components|].
  unfold fix_main. rewrite Hrep, bind_ok.
  destruct (copy_missing_definitions_dict "schemas" find_schema_refs
              comprehensive rd ts ss Hts Hss)
    as (d1 & rs & H1 & Hrs & Hfill1 & Hkeep1 & Hother1 & Hk1).
  rewrite H1, bind_ok.
  assert (Htp1 : definitions "parameters" (YDict d1) = Ok (YDict tp))
    by (rewrite Hother1 by discriminate; exact Htp).
  destruct (copy_missing_definitions_dict "parameters" find_param_refs
              comprehensive d1 tp sp Htp1 Hsp)
    as (d2 & rp & H2 & Hrp & Hfill2 & Hkeep2 & Hother2 & Hk2).
  exists d2, (match dict_get "paths" rd with
              | Some paths => paths
              | None => YDict []
              end), rs, rp.
  split; [exact H2|]. split; [reflexivity|].
  split; [rewrite Hother2 by discriminate; exact Hrs|].
  split; [exact Hrp|]. split; [exact Hfill1|].
  split; [|split; [exact Hkeep1|exact Hkeep2]].
  intros name Hin. apply Hfill2. rewrite Hk1 by discriminate. exact Hin.
Qed.

End Backfill.

(** ** The repairs as updates under a key *)

Lemma fix_server_at (d : dict) :
  fix_server (YDict d) = at_key "servers" server_value (YDict d).
Proof.
  unfold fix_server, at_key, server_value. cbn [py_in]. rewrite bind_ok.
  unfold dict_has. destruct (dict_get "servers" d) as [v|] eqn:E; [|reflexivity].
  cbn [py_getitem]. rewrite E, bind_ok.
  destruct (py_len v) as [n|e]; [|reflexivity]. rewrite !bind_ok.
  destruct (Nat.ltb 0 n).
  - destruct (py_index0 v) as [s0|e]; [|reflexivity]. rewrite !bind_ok.
    destruct (py_setitem s0 "url" _) as [s1|e]; [|reflexivity]. rewrite !bind_ok.
    destruct (py_setitem s1 "description" _) as [s2|e]; [|reflexivity].
    rewrite !bind_ok. reflexivity.
  - rewrite bind_ok, dict_set_same by exact E. reflexivity.
Qed.

Lemma set_post_field_at (path field : string) (x : yaml) (d : dict) :
  set_post_field path field x (YDict d)
  = at_key "paths" (post_field_value path field x) (YDict d).
Proof.
  unfold set_post_field, at_key, post_field_value, endpoint_value.
  cbn [py_get]. rewrite bind_ok.
  destruct (dict_get "paths" d) as [v|] eqn:E; [|reflexivity].
  destruct (py_in path v) as [[|]|e]; rewrite ?bind_ok; [| |reflexivity].
  - cbn [py_getitem]. rewrite E, bind_ok.
    destruct (py_getitem v path) as [endpoint|e] eqn:Eg; [|reflexivity].
    rewrite !bind_ok.
    destruct (py_in "post" endpoint) as [[|]|e]; rewrite ?bind_ok;
      [| |reflexivity].
    + destruct (setitem_in endpoint "post" field x) as [e'|e]; [|reflexivity].
      rewrite !bind_ok.
      destruct (py_setitem v path e') as [v'|e]; [|reflexivity].
      rewrite !bind_ok. reflexivity.
    + destruct v as [| | | | | |tp]; try discriminate. cbn [py_getitem] in Eg.
      destruct (dict_get path tp) as [e0|] eqn:Ep; [|discriminate].
      injection Eg as ->. cbn [py_setitem]. rewrite bind_ok.
      rewrite (dict_set_same path endpoint tp Ep), dict_set_same by exact E.
      reflexivity.
  - rewrite dict_set_same by exact E. reflexivity.
Qed.

Lemma fix_responses_at (d : dict) :
  fix_responses (YDict d)
  = at_key "paths"
      (post_field_value "/docs/{docId}/states/remove" "responses"
         (YDict [("200", YDict [("description", YStr "Success")])])) (YDict d).
Proof. apply set_post_field_at. Qed.

Lemma fix_operation_id_at (d : dict) :
  fix_operation_id (YDict d)
  = at_key "paths"
      (post_field_value "/docs" "operationId" (YStr "createOrImportDoc"))
      (YDict d).
Proof. apply set_post_field_at. Qed.

Lemma del_keys_cons (ks : list string) (k : string) (v : yaml) (r : dict) :
  (forall k', In k' ks -> k' <> k) ->
  del_keys ks ((k, v) :: r) = r' <- del_keys ks r ;; Ok ((k, v) :: r').
Proof.
  revert r. induction ks as [|k' ks IH]; intros r H; [reflexivity|].
  unfold del_keys. cbn [foldM]. unfold dict_has. cbn [dict_get dict_del].
  assert (Hne : String.eqb k' k = false)
    by (apply String.eqb_neq, H; left; reflexivity).
  rewrite Hne. fold (dict_has k' r).
  destruct (dict_has k' r); [|reflexivity]. rewrite !bind_ok.
  apply IH. intros k2 Hk2. apply H. right. exact Hk2.
Qed.

Lemma del_keys_scim (tp : dict) :
  del_keys (filter (fun k => Str.startswith k "/scim/") (keys tp)) tp
  = Ok (filter not_scim tp).
Proof.
  induction tp as [|[k v] tp IH]; [reflexivity|].
  cbn [keys map fst filter]. unfold not_scim at 1. cbn [fst].
  destruct (Str.startswith k "/scim/") eqn:Ek; cbn [negb].
  - unfold del_keys. cbn [foldM]. unfold dict_has. cbn [dict_get dict_del].
    rewrite String.eqb_refl, bind_ok. exact IH.
  - rewrite del_keys_cons.
    + fold (keys tp). rewrite IH. reflexivity.
    + intros k' Hk' ->. apply filter_In in Hk' as [_ Hk']. congruence.
Qed.

Lemma delitem_in_dict (d inner : dict) (k1 k2 : string) :
  dict_get k1 d = Some (YDict inner) ->
  delitem_in (YDict d) k1 k2
  = if dict_has k2 inner
    then Ok (YDict (dict_set k1 (YDict (dict_del k2 inner)) d))
    else Raise KeyError.
Proof. intros H. unfold delitem_in. cbn [py_getitem]. rewrite H. reflexivity. Qed.

Lemma del_in_paths (ks : list string) :
  forall d tp,
    dict_get "paths" d = Some (YDict tp) ->
    foldM (fun schema path => delitem_in schema "paths" path) ks (YDict d)
    = tp' <- del_keys ks tp ;; Ok (YDict (dict_set "paths" (YDict tp') d)).
Proof.
  induction ks as [|k ks IH]; intros d tp H; unfold del_keys; cbn [foldM].
  - rewrite bind_ok, dict_set_same by exact H. reflexivity.
  - rewrite (delitem_in_dict _ _ _ _ H).
    destruct (dict_has k tp); [|reflexivity]. rewrite !bind_ok.
    rewrite (IH _ (dict_del k tp)) by apply dict_get_set_same.
    unfold del_keys.
    destruct (foldM _ ks (dict_del k tp)) as [tp'|e]; [|reflexivity].
    rewrite !bind_ok, dict_set_set. reflexivity.
Qed.

Lemma remove_scim_paths_at (d : dict) :
  remove_scim_paths (YDict d) = at_key "paths" scim_paths_value (YDict d).
Proof.
  unfold remove_scim_paths, at_key. cbn [py_get]. rewrite bind_ok.
  destruct (dict_get "paths" d) as [v|] eqn:E; [|reflexivity].
  destruct v as [| | | | | |tp]; try reflexivity.
  cbn [py_keys scim_paths_value]. rewrite !bind_ok.
  rewrite (del_in_paths _ d tp E), del_keys_scim. reflexivity.
Qed.

Lemma remove_scim_tag_at (d : dict) :
  remove_scim_tag (YDict d) = at_key "tags" scim_tag_value (YDict d).
Proof.
  unfold remove_scim_tag, at_key, scim_tag_value. cbn [py_in].
  rewrite bind_ok. unfold dict_has.
  destruct (dict_get "tags" d) as [v|] eqn:E; [|reflexivity].
  cbn [py_getitem]. rewrite E, bind_ok.
  destruct (py_iter v) as [elems|e]; [|reflexivity]. rewrite !bind_ok.
  destruct (filterM _ elems) as [kept|e]; [|reflexivity].
  rewrite !bind_ok. reflexivity.
Qed.

(** ** Commuting updates *)

Lemma same_outcome_refl (x : result yaml) : same_outcome x x.
Proof. destruct x; cbn; auto. Qed.

Lemma same_outcome_sym (x y : result yaml) :
  same_outcome x y -> same_outcome y x.
Proof. destruct x, y; cbn; auto. Qed.

Lemma same_outcome_trans (x y z : result yaml) :
  same_outcome x y -> same_outcome y z -> same_outcome x z.
Proof. destruct x, y, z; cbn; try tauto; congruence. Qed.

Lemma same_outcome_bind_l (r1 r2 : result yaml) (k : yaml -> result yaml) :
  same_outcome r1 r2 -> same_outcome (bind r1 k) (bind r2 k).
Proof.
  destruct r1, r2; cbn; try tauto.
  intros ->. apply same_outcome_refl.
Qed.

Lemma same_outcome_bind_r (r : result yaml) (k1 k2 : yaml -> result yaml) :
  (forall a, same_outcome (k1 a) (k2 a)) ->
  same_outcome (bind r k1) (bind r k2).
Proof. intros H. destruct r; cbn; auto. Qed.

Lemma bind_assoc (A B C : Type) (r : result A) (f : A -> result B)
    (g : B -> result C) :
  bind (bind r f) g = bind r (fun a => bind (f a) g).
Proof. destruct r; reflexivity. Qed.

Lemma commute_at_sym (X Y : yaml -> result yaml) (s : yaml) :
  commute_at X Y s -> commute_at Y X s.
Proof. apply same_outcome_sym. Qed.

Lemma commute_at_refl (X : yaml -> result yaml) (s : yaml) : commute_at X X s.
Proof. apply same_outcome_refl. Qed.

(** An update commutes with a sequence of two when it does with each. *)
Lemma commute_seq (X C1 C2 : yaml -> result yaml) :
  (forall s, commute_at X C1 s) -> (forall s, commute_at X C2 s) ->
  forall s, commute_at X (fun s => bind (C1 s) C2) s.
Proof.
  intros H1 H2 s. unfold commute_at in *.
  apply same_outcome_trans with (bind (bind (X s) C1) C2).
  { rewrite bind_assoc. apply same_outcome_refl. }
  apply same_outcome_trans with (bind (bind (C1 s) X) C2).
  { apply same_outcome_bind_l, H1. }
  rewrite !bind_assoc. apply same_outcome_bind_r. intros a. apply H2.
Qed.

Lemma dict_has_true (k : string) (d : dict) :
  dict_has k d = true <-> exists v, dict_get k d = Some v.
Proof.
  unfold dict_has. destruct (dict_get k d); split; eauto; try discriminate.
  intros [v H]. discriminate.
Qed.

Lemma dict_set_comm (k1 k2 : string) (a b : yaml) (d : dict) :
  k1 <> k2 -> dict_has k1 d = true \/ dict_has k2 d = true ->
  dict_set k1 a (dict_set k2 b d) = dict_set k2 b (dict_set k1 a d).
Proof.
  intros Hne. induction d as [|[k v] d IH]; intros H.
  - destruct H; discriminate.
  - cbn [dict_set].
    destruct (String.eqb_spec k2 k) as [->|H2];
      destruct (String.eqb_spec k1 k) as [->|H1]; try congruence.
    + cbn [dict_set]. rewrite String.eqb_refl.
      apply String.eqb_neq in H1. rewrite H1. reflexivity.
    + cbn [dict_set]. rewrite String.eqb_refl.
      apply String.eqb_neq in H2. rewrite H2. reflexivity.
    + cbn [dict_set]. apply String.eqb_neq in H1, H2. rewrite H1, H2.
      f_equal. apply IH. unfold dict_has in *. cbn [dict_get] in H.
      rewrite H1, H2 in H. exact H.
Qed.

Lemma at_key_dict (k : string) (f : yaml -> result yaml) (d : dict) :
  at_key k f (YDict d)
  = match dict_get k d with
    | Some v => v' <- f v ;; Ok (YDict (dict_set k v' d))
    | None => Ok (YDict d)
    end.
Proof. reflexivity. Qed.

Lemma at_key_comm_diff (k1 k2 : string) (f1 f2 : yaml -> result yaml) :
  k1 <> k2 -> forall s, commute_at (at_key k1 f1) (at_key k2 f2) s.
Proof.
  intros Hne s. unfold commute_at.
  destruct s as [| | | | | |d]; try exact I.
  rewrite !at_key_dict.
  destruct (dict_get k1 d) as [v1|] eqn:E1;
    destruct (dict_get k2 d) as [v2|] eqn:E2.
  - destruct (f1 v1) as [v1'|e1] eqn:F1; destruct (f2 v2) as [v2'|e2] eqn:F2;
      rewrite ?bind_ok, ?at_key_dict;
      rewrite ?(dict_get_set_other k2 k1), ?(dict_get_set_other k1 k2)
        by congruence;
      rewrite ?E1, ?E2, ?F1, ?F2, ?bind_ok; try exact I.
    cbn [same_outcome]. f_equal. symmetry. apply dict_set_comm; [exact Hne|].
    left. apply dict_has_true. eauto.
  - destruct (f1 v1) as [v1'|e1] eqn:F1;
      rewrite ?bind_ok, ?at_key_dict;
      rewrite ?(dict_get_set_other k2 k1) by congruence;
      rewrite ?E1, ?E2, ?F1, ?bind_ok; [apply same_outcome_refl|exact I].
  - destruct (f2 v2) as [v2'|e2] eqn:F2;
      rewrite ?bind_ok, ?at_key_dict;
      rewrite ?(dict_get_set_other k1 k2) by congruence;
      rewrite ?E1, ?E2, ?F2, ?bind_ok; [apply same_outcome_refl|exact I].
  - rewrite !bind_ok, !at_key_dict, E1, E2. apply same_outcome_refl.
Qed.

Lemma at_key_twice (k : string) (f1 f2 : yaml -> result yaml) (d : dict) :
  bind (at_key k f1 (YDict d)) (at_key k f2)
  = match dict_get k d with
    | Some v => v' <- bind (f1 v) f2 ;; Ok (YDict (dict_set k v' d))
    | None => Ok (YDict d)
    end.
Proof.
  rewrite at_key_dict. destruct (dict_get k d) as [v|] eqn:E.
  - destruct (f1 v) as [v1|e]; [|reflexivity].
    rewrite !bind_ok, at_key_dict, dict_get_set_same.
    destruct (f2 v1) as [v2|e]; [|reflexivity].
    rewrite !bind_ok, dict_set_set. reflexivity.
  - rewrite bind_ok, at_key_dict, E. reflexivity.
Qed.

Lemma at_key_comm_same (k : string) (f1 f2 : yaml -> result yaml) :
  (forall v, same_outcome (bind (f1 v) f2) (bind (f2 v) f1)) ->
  forall s, commute_at (at_key k f1) (at_key k f2) s.
Proof.
  intros H s. unfold commute_at.
  destruct s as [| | | | | |d]; try exact I.
  rewrite !at_key_twice. destruct (dict_get k d) as [v|]; [|reflexivity].
  specialize (H v).
  destruct (bind (f1 v) f2), (bind (f2 v) f1); cbn in *; try tauto.
  congruence.
Qed.

(** The result of an update under a key is a dict. *)
Lemma at_key_bind_ext (k : string) (f : yaml -> result yaml)
    (g h : yaml -> result yaml) (s : yaml) :
  (forall d, g (YDict d) = h (YDict d)) ->
  bind (at_key k f s) g = bind (at_key k f s) h.
Proof.
  intros H. destruct s as [| | | | | |d]; try reflexivity.
  rewrite at_key_dict. destruct (dict_get k d) as [v|].
  - destruct (f v); [|reflexivity]. rewrite !bind_ok. apply H.
  - rewrite !bind_ok. apply H.
Qed.

Lemma dict_valued_at_key (k : string) (f : yaml -> result yaml) :
  dict_valued (at_key k f).
Proof. intros s g h H. apply at_key_bind_ext, H. Qed.

Lemma dict_valued_scim_at : dict_valued scim_at.
Proof.
  intros s g h H. unfold scim_at. rewrite !bind_assoc.
  apply at_key_bind_ext. intros d. apply at_key_bind_ext, H.
Qed.

Lemma fix_scim_at (d : dict) : fix_scim (YDict d) = scim_at (YDict d).
Proof.
  unfold fix_scim, scim_at. rewrite remove_scim_paths_at.
  apply at_key_bind_ext. intros d'. apply remove_scim_tag_at.
Qed.

(** Two repairs commute on a dict when their forms as updates do. *)
Lemma commute_transfer (X Y Xk Yk : yaml -> result yaml) (d : dict) :
  (forall d, X (YDict d) = Xk (YDict d)) ->
  (forall d, Y (YDict d) = Yk (YDict d)) ->
  dict_valued Xk -> dict_valued Yk ->
  commute_at Xk Yk (YDict d) -> commute_at X Y (YDict d).
Proof.
  intros HX HY VX VY H. unfold commute_at in *.
  rewrite HX, HY, (VX _ Y Yk HY), (VY _ X Xk HX). exact H.
Qed.

Lemma post_field_value_dict (path field : string) (x : yaml) (tp : dict) :
  post_field_value path field x (YDict tp)
  = at_key path (endpoint_value field x) (YDict tp).
Proof.
  unfold post_field_value. rewrite at_key_dict. cbn [py_in py_getitem].
  rewrite bind_ok. unfold dict_has.
  destruct (dict_get path tp) as [e|]; [|reflexivity].
  rewrite bind_ok. destruct (endpoint_value field x e); reflexivity.
Qed.

Lemma post_field_value_other (path field : string) (x v : yaml) :
  (forall tp, v <> YDict tp) ->
  post_field_value path field x v = Ok v
  \/ exists e, post_field_value path field x v = Raise e.
Proof.
  intros H. unfold post_field_value.
  destruct v as [| | | | s|l|tp]; try (right; eexists; reflexivity).
  - cbn [py_in]. rewrite bind_ok. destruct (Str.contains path s);
      [right; eexists; reflexivity|left; reflexivity].
  - cbn [py_in]. rewrite bind_ok. destruct (existsb (is_str path) l);
      [right; eexists; reflexivity|left; reflexivity].
  - destruct (H tp eq_refl).
Qed.

Lemma yaml_dict_dec (v : yaml) : (exists tp, v = YDict tp) \/ forall tp, v <> YDict tp.
Proof. destruct v; try (right; discriminate). left. eauto. Qed.

Lemma post_fields_commute (p1 p2 f1 f2 : string) (x1 x2 : yaml) :
  p1 <> p2 ->
  forall v, same_outcome
              (bind (post_field_value p1 f1 x1 v) (post_field_value p2 f2 x2))
              (bind (post_field_value p2 f2 x2 v) (post_field_value p1 f1 x1)).
Proof.
  intros Hne v. destruct (yaml_dict_dec v) as [[tp ->]|Hv].
  - rewrite !post_field_value_dict.
    rewrite (at_key_bind_ext _ _ (post_field_value p2 f2 x2)
               (at_key p2 (endpoint_value f2 x2)))
      by (intros; apply post_field_value_dict).
    rewrite (at_key_bind_ext _ _ (post_field_value p1 f1 x1)
               (at_key p1 (endpoint_value f1 x1)))
      by (intros; apply post_field_value_dict).
    apply (at_key_comm_diff p1 p2 _ _ Hne (YDict tp)).
  - destruct (post_field_value_other p1 f1 x1 v Hv) as [H1|[e1 H1]];
      destruct (post_field_value_other p2 f2 x2 v Hv) as [H2|[e2 H2]];
      rewrite H1, H2; cbn [bind]; rewrite ?H1, ?H2; cbn; auto.
Qed.

Lemma dict_get_filter (keep : string -> bool) (k : string) (d : dict) :
  keep k = true ->
  dict_get k (filter (fun kv => keep (fst kv)) d) = dict_get k d.
Proof.
  intros Hk. induction d as [|[k' v'] d IH]; [reflexivity|].
  cbn [filter fst dict_get]. destruct (keep k') eqn:E; cbn [dict_get].
  - destruct (String.eqb k k'); [reflexivity|exact IH].
  - destruct (String.eqb_spec k k') as [->|_]; [congruence|exact IH].
Qed.

Lemma dict_set_filter (keep : string -> bool) (k : string) (x : yaml) (d : dict) :
  keep k = true ->
  dict_set k x (filter (fun kv => keep (fst kv)) d)
  = filter (fun kv => keep (fst kv)) (dict_set k x d).
Proof.
  intros Hk. induction d as [|[k' v'] d IH].
  - cbn [filter dict_set fst]. rewrite Hk. reflexivity.
  - cbn [filter fst dict_set].
    destruct (String.eqb_spec k k') as [->|Hne].
    + rewrite Hk. cbn [dict_set filter fst]. rewrite String.eqb_refl, Hk.
      reflexivity.
    + destruct (keep k') eqn:E; cbn [dict_set filter fst]; rewrite ?E.
      * apply String.eqb_neq in Hne. rewrite Hne, IH. reflexivity.
      * exact IH.
Qed.

Lemma post_field_scim_commute (path field : string) (x : yaml) :
  Str.startswith path "/scim/" = false ->
  forall v, same_outcome
              (bind (post_field_value path field x v) scim_paths_value)
              (bind (scim_paths_value v) (post_field_value path field x)).
Proof.
  intros Hp v. destruct (yaml_dict_dec v) as [[tp ->]|Hv].
  - cbn [scim_paths_value]. rewrite bind_ok, !post_field_value_dict, !at_key_dict.
    change not_scim with (fun kv : string * yaml =>
                            negb (Str.startswith (fst kv) "/scim/")).
    rewrite (dict_get_filter (fun k => negb (Str.startswith k "/scim/")))
      by (rewrite Hp; reflexivity).
    destruct (dict_get path tp) as [e|]; [|apply same_outcome_refl].
    destruct (endpoint_value field x e) as [e'|]; [|exact I].
    rewrite !bind_ok. cbn [scim_paths_value same_outcome]. f_equal. f_equal.
    symmetry.
    apply (dict_set_filter (fun k => negb (Str.startswith k "/scim/"))).
    rewrite Hp. reflexivity.
  - assert (Hs : exists e, scim_paths_value v = Raise e).
    { destruct v; try (eexists; reflexivity). destruct (Hv entries eq_refl). }
    destruct Hs as [e Hs]. rewrite Hs.
    destruct (post_field_value_other path field x v Hv) as [H1|[e1 H1]];
      rewrite H1; cbn [bind]; rewrite ?Hs; exact I.
Qed.

(** ** The targeted repairs commute *)

Lemma server_post_field_commute (path field : string) (x : yaml) (s : yaml) :
  commute_at (at_key "servers" server_value)
             (at_key "paths" (post_field_value path field x)) s.
Proof. apply at_key_comm_diff. discriminate. Qed.

Lemma server_scim_commute (s : yaml) :
  commute_at (at_key "servers" server_value) scim_at s.
Proof.
  apply (commute_seq _ (at_key "paths" scim_paths_value)
           (at_key "tags" scim_tag_value));
    intros s'; apply at_key_comm_diff; discriminate.
Qed.

Lemma post_field_scim_at_commute (path field : string) (x : yaml) (s : yaml) :
  Str.startswith path "/scim/" = false ->
  commute_at (at_key "paths" (post_field_value path field x)) scim_at s.
Proof.
  intros Hp.
  apply (commute_seq _ (at_key "paths" scim_paths_value)
           (at_key "tags" scim_tag_value)); intros s'.
  - apply at_key_comm_same. apply post_field_scim_commute, Hp.
  - apply at_key_comm_diff. discriminate.
Qed.

Lemma post_fields_at_commute (p1 p2 f1 f2 : string) (x1 x2 : yaml) (s : yaml) :
  p1 <> p2 ->
  commute_at (at_key "paths" (post_field_value p1 f1 x1))
             (at_key "paths" (post_field_value p2 f2 x2)) s.
Proof. intros H. apply at_key_comm_same, post_fields_commute, H. Qed.

Lemma targeted_commute (d : dict) (X Y : yaml -> result yaml) :
  In X targeted_repairs -> In Y targeted_repairs -> commute_at X Y (YDict d).
Proof.
  assert (Hsr : commute_at fix_server fix_responses (YDict d)).
  { apply (commute_transfer _ _ _ _ d fix_server_at fix_responses_at
             (dict_valued_at_key _ _) (dict_valued_at_key _ _)).
    apply server_post_field_commute. }
  assert (Hss : commute_at fix_server fix_scim (YDict d)).
  { apply (commute_transfer _ _ _ _ d fix_server_at fix_scim_at
             (dict_valued_at_key _ _) dict_valued_scim_at).
    apply server_scim_commute. }
  assert (Hso : commute_at fix_server fix_operation_id (YDict d)).
  { apply (commute_transfer _ _ _ _ d fix_server_at fix_operation_id_at
             (dict_valued_at_key _ _) (dict_valued_at_key _ _)).
    apply server_post_field_commute. }
  assert (Hrs : commute_at fix_responses fix_scim (YDict d)).
  { apply (commute_transfer _ _ _ _ d fix_responses_at fix_scim_at
             (dict_valued_at_key _ _) dict_valued_scim_at).
    apply post_field_scim_at_commute. reflexivity. }
  assert (Hro : commute_at fix_responses fix_operation_id (YDict d)).
  { apply (commute_transfer _ _ _ _ d fix_responses_at fix_operation_id_at
             (dict_valued_at_key _ _) (dict_valued_at_key _ _)).
    apply post_fields_at_commute. discriminate. }
  assert (Hos : commute_at fix_operation_id fix_scim (YDict d)).
  { apply (commute_transfer _ _ _ _ d fix_operation_id_at fix_scim_at
             (dict_valued_at_key _ _) dict_valued_scim_at).
    apply post_field_scim_at_commute. reflexivity. }
  unfold targeted_repairs. cbn [In].
  intros [<-|[<-|[<-|[<-|[]]]]] [<-|[<-|[<-|[<-|[]]]]];
    try apply commute_at_refl; try assumption;
    apply commute_at_sym; assumption.
Qed.

(** ** The enum repair and the targeted repairs *)

Lemma fix_null_enums_not_dict (v : yaml) :
  (forall d, v <> YDict d) -> forall d, fix_null_enums v <> YDict d.
Proof.
  intros H d. destruct v; try discriminate.
  destruct (H entries eq_refl).
Qed.

Lemma fix_null_enums_is_str (s : string) (v : yaml) :
  is_str s (fix_null_enums v) = is_str s v.
Proof. destruct v; reflexivity. Qed.

Lemma null_enum_set_other (k : string) (w : yaml) (d : dict) :
  k <> "enum" -> null_enum (dict_set k w d) = null_enum d.
Proof.
  intros H. unfold null_enum. rewrite dict_get_set_other; [reflexivity|].
  intros E. apply H. symmetry. exact E.
Qed.

Lemma repair_enum_plain (d : dict) : null_enum d = None -> repair_enum d = d.
Proof. intros H. unfold repair_enum. rewrite H. reflexivity. Qed.

Lemma repair_enum_get_other (k : string) (d : dict) :
  k <> "enum" -> k <> "nullable" ->
  dict_get k (repair_enum d) = dict_get k d.
Proof.
  intros H1 H2. unfold repair_enum. destruct (null_enum d); [|reflexivity].
  destruct (dict_has "nullable" _); rewrite ?dict_get_set_other by assumption;
    reflexivity.
Qed.

Lemma repair_enum_set_other (k : string) (w : yaml) (d : dict) :
  k <> "enum" -> k <> "nullable" -> dict_has k d = true ->
  repair_enum (dict_set k w d) = dict_set k w (repair_enum d).
Proof.
  intros H1 H2 Hk. unfold repair_enum.
  rewrite null_enum_set_other by exact H1.
  destruct (null_enum d) as [l|]; [|reflexivity].
  set (L := YList (filter (fun v => negb (is_null v)) l)).
  assert (Hc : dict_set "enum" L (dict_set k w d)
               = dict_set k w (dict_set "enum" L d)).
  { apply dict_set_comm; [congruence|]. right. exact Hk. }
  rewrite Hc. rewrite (dict_has_set_other "nullable" k) by congruence.
  destruct (dict_has "nullable" (dict_set "enum" L d)); [reflexivity|].
  apply dict_set_comm; [congruence|]. right.
  rewrite dict_has_set_other by exact H1. exact Hk.
Qed.

Lemma adds_nullable_set_other (k : string) (w : yaml) (d : dict) :
  k <> "enum" -> k <> "nullable" ->
  adds_nullable (dict_set k w d) = adds_nullable d.
Proof.
  intros H1 H2. unfold adds_nullable.
  rewrite null_enum_set_other by exact H1.
  rewrite (dict_has_set_other "nullable" k) by congruence. reflexivity.
Qed.

Lemma null_enum_has_enum (d : dict) (l : list yaml) :
  null_enum d = Some l -> dict_has "enum" d = true.
Proof.
  unfold null_enum, dict_has. destruct (dict_get "enum" d); [reflexivity|].
  discriminate.
Qed.

(** A write under another key goes through the repair of the dict when
    at most one of the two adds a key. *)
Lemma repair_enum_set_one (k : string) (w : yaml) (d : dict) :
  k <> "enum" -> k <> "nullable" ->
  adds_nullable d = false \/ dict_has k d = true ->
  repair_enum (dict_set k w d) = dict_set k w (repair_enum d).
Proof.
  intros H1 H2 [Ha|Hk]; [|apply repair_enum_set_other; assumption].
  unfold repair_enum, adds_nullable in *.
  rewrite null_enum_set_other by exact H1.
  destruct (null_enum d) as [l|] eqn:E; [|reflexivity].
  apply negb_false_iff in Ha.
  set (L := YList (filter (fun v => negb (is_null v)) l)).
  assert (Hc : dict_set "enum" L (dict_set k w d)
               = dict_set k w (dict_set "enum" L d)).
  { apply dict_set_comm; [congruence|]. left.
    apply (null_enum_has_enum _ _ E). }
  rewrite Hc. rewrite (dict_has_set_other "nullable" k) by congruence.
  rewrite (dict_has_set_other "nullable" "enum") by discriminate.
  rewrite Ha. reflexivity.
Qed.

Lemma one_adds_one (field : string) (d : dict) :
  one_adds [field] d = true ->
  adds_nullable d = false \/ dict_has field d = true.
Proof.
  unfold one_adds. cbn [forallb]. rewrite andb_true_r. intros H.
  apply orb_prop in H as [H|H]; [left; apply negb_true_iff, H|right; exact H].
Qed.

Lemma map_fix_dict_set (k : string) (w : yaml) (d : dict) :
  map (fun kv => (fst kv, fix_null_enums (snd kv))) (dict_set k w d)
  = dict_set k (fix_null_enums w)
      (map (fun kv => (fst kv, fix_null_enums (snd kv))) d).
Proof.
  induction d as [|[k' v'] d IH]; [reflexivity|].
  cbn [dict_set map fst snd]. destruct (String.eqb k k'); cbn [map fst snd].
  - reflexivity.
  - rewrite IH. reflexivity.
Qed.

Lemma fix_null_enums_plain_dict (d : dict) :
  null_enum d = None ->
  fix_null_enums (YDict d)
  = YDict (map (fun kv => (fst kv, fix_null_enums (snd kv))) d).
Proof. intros H. rewrite fix_null_enums_dict, repair_enum_plain by exact H. reflexivity. Qed.

(** An update under a key other than ["enum"] and ["nullable"]
    commutes with the enum repair when the update of the value does. *)
Lemma at_key_enum_commute (k : string) (f : yaml -> result yaml) (d : dict) :
  k <> "enum" -> k <> "nullable" ->
  (forall v, dict_get k d = Some v ->
             same_outcome (f (fix_null_enums v)) (bind (f v) fix_enum)) ->
  same_outcome (at_key k f (fix_null_enums (YDict d)))
               (bind (at_key k f (YDict d)) fix_enum).
Proof.
  intros H1 H2 Hv. rewrite fix_null_enums_dict, !at_key_dict.
  rewrite (dict_get_map (fun _ => fix_null_enums)),
    repair_enum_get_other by assumption.
  destruct (dict_get k d) as [v|] eqn:E; cbn [option_map].
  - specialize (Hv v eq_refl).
    destruct (f v) as [w|e]; destruct (f (fix_null_enums v)) as [w'|e'];
      cbn in Hv; try (exfalso; exact Hv); try exact I.
    subst w'. rewrite !bind_ok. unfold fix_enum. cbn [same_outcome].
    rewrite fix_null_enums_dict, repair_enum_set_other, map_fix_dict_set;
      try assumption; [reflexivity|].
    apply dict_has_true. eauto.
  - rewrite bind_ok. unfold fix_enum. cbn [same_outcome].
    rewrite fix_null_enums_dict. reflexivity.
Qed.

Lemma setitem_enum_commute (field : string) (x pv : yaml) :
  field <> "enum" -> field <> "nullable" -> fix_null_enums x = x ->
  (forall pd, pv = YDict pd -> one_adds [field] pd = true) ->
  same_outcome (py_setitem (fix_null_enums pv) field x)
               (bind (py_setitem pv field x) fix_enum).
Proof.
  intros Hf Hf' Hx Hpv. destruct (yaml_dict_dec pv) as [[pd ->]|Hn].
  - pose proof (one_adds_one _ _ (Hpv pd eq_refl)) as Hpd.
    rewrite fix_null_enums_dict.
    cbn [py_setitem bind fix_enum same_outcome].
    rewrite fix_null_enums_dict, repair_enum_set_one, map_fix_dict_set, Hx
      by assumption.
    reflexivity.
  - pose proof (fix_null_enums_not_dict pv Hn) as Hn'.
    destruct pv; try exact I;
      try (destruct (fix_null_enums _) eqn:E; try exact I;
           destruct (Hn' _ E)).
    destruct (Hn _ eq_refl).
Qed.

Lemma py_in_fix_null_enums (k : string) (v : yaml) :
  (forall d, v <> YDict d) ->
  py_in k (fix_null_enums v) = py_in k v.
Proof.
  intros H. destruct v; try reflexivity.
  - rewrite fix_null_enums_list. cbn [py_in]. apply (f_equal Ok). clear H.
    induction items as [|x l IH]; [reflexivity|]. cbn [map existsb].
    rewrite fix_null_enums_is_str, IH. reflexivity.
  - destruct (H _ eq_refl).
Qed.

Lemma endpoint_value_dict (field : string) (x : yaml) (ed : dict) :
  endpoint_value field x (YDict ed)
  = at_key "post" (fun pv => py_setitem pv field x) (YDict ed).
Proof.
  unfold endpoint_value, setitem_in. rewrite at_key_dict. cbn [py_in py_getitem].
  rewrite bind_ok. unfold dict_has.
  destruct (dict_get "post" ed) as [pv|]; [|reflexivity]. rewrite bind_ok.
  destruct (py_setitem pv field x); reflexivity.
Qed.

Lemma not_dict_getitem (v : yaml) (k : string) :
  (forall d, v <> YDict d) -> py_getitem v k = Raise TypeError.
Proof. intros H. destruct v; try reflexivity. destruct (H _ eq_refl). Qed.

Lemma endpoint_enum_commute (field : string) (x e : yaml) :
  field <> "enum" -> field <> "nullable" -> fix_null_enums x = x ->
  one_adds_at [field] [Key "post"] e ->
  same_outcome (endpoint_value field x (fix_null_enums e))
               (bind (endpoint_value field x e) fix_enum).
Proof.
  intros Hf Hf' Hx He. destruct (yaml_dict_dec e) as [[ed ->]|Hn].
  - rewrite fix_null_enums_dict, !endpoint_value_dict, <- fix_null_enums_dict.
    apply at_key_enum_commute; try discriminate.
    intros pv Hpv. apply setitem_enum_commute; [exact Hf|exact Hf'|exact Hx|].
    intros pd ->. apply He. cbn [node_at child]. rewrite Hpv. reflexivity.
  - unfold endpoint_value. rewrite py_in_fix_null_enums by exact Hn.
    destruct (py_in "post" e) as [[|]|err]; rewrite ?bind_ok; try exact I.
    + unfold setitem_in.
      rewrite !not_dict_getitem; [exact I|exact Hn|].
      apply fix_null_enums_not_dict, Hn.
    + apply same_outcome_refl.
Qed.

Lemma post_field_enum_commute (path field : string) (x v : yaml) :
  path <> "enum" -> path <> "nullable" ->
  field <> "enum" -> field <> "nullable" -> fix_null_enums x = x ->
  one_adds_at [field] [Key path; Key "post"] v ->
  same_outcome (post_field_value path field x (fix_null_enums v))
               (bind (post_field_value path field x v) fix_enum).
Proof.
  intros Hp1 Hp2 Hf Hf' Hx Hv. destruct (yaml_dict_dec v) as [[tp ->]|Hn].
  - rewrite fix_null_enums_dict, !post_field_value_dict, <- fix_null_enums_dict.
    apply at_key_enum_commute; try assumption.
    intros e He. apply endpoint_enum_commute; [exact Hf|exact Hf'|exact Hx|].
    intros pd Hpd. apply Hv. cbn [node_at child] in *. rewrite He. exact Hpd.
  - unfold post_field_value. rewrite py_in_fix_null_enums by exact Hn.
    destruct (py_in path v) as [[|]|err]; rewrite ?bind_ok; try exact I.
    + rewrite !not_dict_getitem; [exact I|exact Hn|].
      apply fix_null_enums_not_dict, Hn.
    + apply same_outcome_refl.
Qed.

Lemma repair_enum_nil (d : dict) : repair_enum d = [] <-> d = [].
Proof.
  split; [|intros ->; reflexivity].
  unfold repair_enum. destruct (null_enum d) as [l|]; [|auto].
  assert (Hne : forall k x d', dict_set k x d' <> []).
  { intros k x [|[k' v'] d']; cbn [dict_set]; [discriminate|].
    destruct (String.eqb k k'); discriminate. }
  destruct (dict_has "nullable" _); intros H; destruct (Hne _ _ _ H).
Qed.

Lemma repair_enum_server (u w : yaml) (xd : dict) :
  one_adds ["url"; "description"] xd = true ->
  repair_enum (dict_set "description" w (dict_set "url" u xd))
  = dict_set "description" w (dict_set "url" u (repair_enum xd)).
Proof.
  unfold one_adds. cbn [forallb]. rewrite andb_true_r. intros H.
  assert (Hu : adds_nullable xd = false \/ dict_has "url" xd = true).
  { apply orb_prop in H as [H|H]; [left; apply negb_true_iff, H|right].
    apply andb_prop in H. tauto. }
  assert (Hd : adds_nullable (dict_set "url" u xd) = false
               \/ dict_has "description" (dict_set "url" u xd) = true).
  { rewrite adds_nullable_set_other, dict_has_set_other by discriminate.
    apply orb_prop in H as [H|H]; [left; apply negb_true_iff, H|right].
    apply andb_prop in H. tauto. }
  rewrite repair_enum_set_one by (try discriminate; exact Hd).
  rewrite repair_enum_set_one by (try discriminate; exact Hu).
  reflexivity.
Qed.

Lemma server_enum_commute (v : yaml) :
  one_adds_at ["url"; "description"] [Idx 0] v ->
  same_outcome (server_value (fix_null_enums v))
               (bind (server_value v) fix_enum).
Proof.
  intros Hv. unfold server_value.
  destruct v as [| | | | s|l|sd]; try exact I.
  - destruct s; [apply same_outcome_refl|exact I].
  - rewrite fix_null_enums_list. destruct l as [|x r]; [apply same_outcome_refl|].
    cbn [map py_len List.length Nat.ltb Nat.leb py_index0]. rewrite !bind_ok.
    destruct (yaml_dict_dec x) as [[xd ->]|Hn].
    + assert (Hxd : one_adds ["url"; "description"] xd = true)
        by (apply Hv; reflexivity).
      rewrite (fix_null_enums_dict xd).
      cbn [py_setitem bind set_first fix_enum same_outcome].
      rewrite fix_null_enums_list. cbn [map].
      rewrite fix_null_enums_dict, (repair_enum_server _ _ _ Hxd).
      rewrite !map_fix_dict_set. reflexivity.
    + pose proof (fix_null_enums_not_dict x Hn) as Hn'.
      destruct x; try exact I;
        try (destruct (fix_null_enums _) eqn:E; try exact I;
             destruct (Hn' _ E)).
      destruct (Hn _ eq_refl).
  - rewrite fix_null_enums_dict. cbn [py_len]. rewrite length_map, !bind_ok.
    destruct sd as [|kv sd]; [apply same_outcome_refl|].
    destruct (repair_enum (kv :: sd)) as [|kv' sd'] eqn:E.
    + apply (proj1 (repair_enum_nil _)) in E. discriminate.
    + exact I.
Qed.

Lemma filter_not_scim_map (f : yaml -> yaml) (d : dict) :
  filter not_scim (map (fun kv => (fst kv, f (snd kv))) d)
  = map (fun kv => (fst kv, f (snd kv))) (filter not_scim d).
Proof.
  induction d as [|[k v] d IH]; [reflexivity|].
  cbn [map filter fst snd].
  change (not_scim (k, f v)) with (not_scim (k, v)).
  destruct (not_scim (k, v)); cbn [map fst snd]; rewrite IH; reflexivity.
Qed.

Lemma repair_enum_filter (d : dict) :
  repair_enum (filter not_scim d) = filter not_scim (repair_enum d).
Proof.
  change not_scim with (fun kv : string * yaml =>
                          negb (Str.startswith (fst kv) "/scim/")).
  set (keep := fun k => negb (Str.startswith k "/scim/")).
  change (fun kv : string * yaml => negb (Str.startswith (fst kv) "/scim/"))
    with (fun kv : string * yaml => keep (fst kv)).
  unfold repair_enum, null_enum.
  rewrite (dict_get_filter keep "enum") by reflexivity.
  destruct (dict_get "enum" d) as [[| | | | |l|]|]; try reflexivity.
  destruct (existsb is_null l); [|reflexivity].
  rewrite (dict_set_filter keep "enum") by reflexivity.
  unfold dict_has. rewrite (dict_get_filter keep "nullable") by reflexivity.
  destruct (dict_get "nullable" _); [reflexivity|].
  apply (dict_set_filter keep "nullable"). reflexivity.
Qed.

Lemma scim_paths_enum_commute (v : yaml) :
  same_outcome (scim_paths_value (fix_null_enums v))
               (bind (scim_paths_value v) fix_enum).
Proof.
  destruct v as [| | | | s|l|tp]; try exact I.
  rewrite fix_null_enums_dict. cbn [scim_paths_value bind fix_enum same_outcome].
  rewrite fix_null_enums_dict, repair_enum_filter, filter_not_scim_map.
  reflexivity.
Qed.

Lemma scim_test_fix (t : yaml) :
  (name <- py_get (fix_null_enums t) "name" YNull ;;
   Ok (negb (is_str "scim" name)))
  = (name <- py_get t "name" YNull ;; Ok (negb (is_str "scim" name))).
Proof.
  destruct t as [| | | | s|l|td]; try reflexivity.
  rewrite fix_null_enums_dict. cbn [py_get]. rewrite !bind_ok.
  rewrite (dict_get_map (fun _ => fix_null_enums)),
    repair_enum_get_other by discriminate.
  destruct (dict_get "name" td) as [n|]; [|reflexivity].
  cbn [option_map]. rewrite fix_null_enums_is_str. reflexivity.
Qed.

Lemma filterM_scim_fix (l : list yaml) :
  filterM (fun t => name <- py_get t "name" YNull ;;
                    Ok (negb (is_str "scim" name)))
          (map fix_null_enums l)
  = match filterM (fun t => name <- py_get t "name" YNull ;;
                            Ok (negb (is_str "scim" name))) l with
    | Ok kept => Ok (map fix_null_enums kept)
    | Raise e => Raise e
    end.
Proof.
  induction l as [|t l IH]; [reflexivity|].
  cbn [map filterM]. rewrite scim_test_fix.
  destruct (name <- py_get t "name" YNull ;; Ok (negb (is_str "scim" name)))
    as [b|e]; [|reflexivity].
  rewrite !bind_ok, IH.
  destruct (filterM _ l) as [kept|e]; [|reflexivity].
  rewrite !bind_ok. destruct b; reflexivity.
Qed.

Lemma scim_tag_enum_commute (v : yaml) :
  same_outcome (scim_tag_value (fix_null_enums v))
               (bind (scim_tag_value v) fix_enum).
Proof.
  unfold scim_tag_value. destruct v as [| | | | s|l|sd]; try exact I.
  - destruct s; [apply same_outcome_refl|exact I].
  - rewrite fix_null_enums_list. cbn [py_iter]. rewrite !bind_ok.
    rewrite filterM_scim_fix.
    destruct (filterM _ l) as [kept|e]; [|exact I].
    rewrite !bind_ok. cbn [fix_enum same_outcome].
    rewrite fix_null_enums_list. reflexivity.
  - rewrite fix_null_enums_dict. cbn [py_iter]. rewrite !bind_ok.
    destruct sd as [|kv sd]; [apply same_outcome_refl|].
    destruct (repair_enum (kv :: sd)) as [|kv' sd'] eqn:E.
    + apply (proj1 (repair_enum_nil _)) in E. discriminate.
    + exact I.
Qed.

(** An update under a key commutes with the enum repair on every
    document when the update of the value does on every value. *)
Lemma at_key_enum_commute_all (k : string) (f : yaml -> result yaml) :
  k <> "enum" -> k <> "nullable" ->
  (forall v, same_outcome (f (fix_null_enums v)) (bind (f v) fix_enum)) ->
  forall s, commute_at (at_key k f) fix_enum s.
Proof.
  intros H1 H2 Hf s. unfold commute_at. apply same_outcome_sym.
  unfold fix_enum at 1. rewrite bind_ok.
  destruct (yaml_dict_dec s) as [[d ->]|Hn].
  - apply at_key_enum_commute; auto.
  - pose proof (fix_null_enums_not_dict s Hn) as Hn'.
    destruct s; try exact I;
      try (destruct (fix_null_enums _) eqn:E; try exact I; destruct (Hn' _ E)).
    destruct (Hn _ eq_refl).
Qed.

Lemma scim_at_enum_commute (s : yaml) : commute_at scim_at fix_enum s.
Proof.
  apply commute_at_sym.
  apply (commute_seq _ (at_key "paths" scim_paths_value)
           (at_key "tags" scim_tag_value)); intros s'; apply commute_at_sym.
  - apply at_key_enum_commute_all; try discriminate.
    apply scim_paths_enum_commute.
  - apply at_key_enum_commute_all; try discriminate.
    apply scim_tag_enum_commute.
Qed.

Lemma enum_transfer (X Xk : yaml -> result yaml) (d : dict) :
  (forall d, X (YDict d) = Xk (YDict d)) ->
  commute_at Xk fix_enum (YDict d) -> commute_at X fix_enum (YDict d).
Proof.
  intros HX. unfold commute_at, fix_enum. rewrite !bind_ok, HX.
  rewrite fix_null_enums_dict, HX. auto.
Qed.

Lemma at_key_enum_commute_at (k : string) (f : yaml -> result yaml) (d : dict) :
  k <> "enum" -> k <> "nullable" ->
  (forall v, dict_get k d = Some v ->
             same_outcome (f (fix_null_enums v)) (bind (f v) fix_enum)) ->
  commute_at (at_key k f) fix_enum (YDict d).
Proof.
  intros H1 H2 Hf. unfold commute_at. apply same_outcome_sym.
  unfold fix_enum at 1. rewrite bind_ok. apply at_key_enum_commute; auto.
Qed.

Lemma server_commute_if (d : dict) :
  one_adds_at ["url"; "description"] [Key "servers"; Idx 0] (YDict d) ->
  commute_at fix_server fix_enum (YDict d).
Proof.
  intros Hserver. apply (enum_transfer _ _ d fix_server_at).
  apply at_key_enum_commute_at; try discriminate.
  intros v Hv. apply server_enum_commute.
  intros xd Hxd. apply Hserver. cbn [node_at child] in *. rewrite Hv.
  exact Hxd.
Qed.

Lemma post_field_commute_if (path field : string) (x : yaml) (d : dict) :
  path <> "enum" -> path <> "nullable" ->
  field <> "enum" -> field <> "nullable" -> fix_null_enums x = x ->
  one_adds_at [field] [Key "paths"; Key path; Key "post"] (YDict d) ->
  commute_at (set_post_field path field x) fix_enum (YDict d).
Proof.
  intros Hp Hp' Hf Hf' Hx Hpost.
  apply (enum_transfer _ _ d (set_post_field_at path field x)).
  apply at_key_enum_commute_at; try discriminate.
  intros v Hv. apply post_field_enum_commute; try assumption.
  intros pd Hpd. apply Hpost. cbn [node_at child] in *. rewrite Hv.
  exact Hpd.
Qed.

Lemma scim_commute (d : dict) : commute_at fix_scim fix_enum (YDict d).
Proof. apply (enum_transfer _ _ d fix_scim_at). apply scim_at_enum_commute. Qed.

Lemma enum_commute (d : dict) (X : yaml -> result yaml) :
  appends_apart (YDict d) ->
  In X targeted_repairs -> commute_at X fix_enum (YDict d).
Proof.
  intros (Hserver & Hresponses & Hoperation).
  unfold targeted_repairs. cbn [In]. intros [<-|[<-|[<-|[<-|[]]]]].
  - apply server_commute_if, Hserver.
  - apply post_field_commute_if; try discriminate; [reflexivity|].
    exact Hresponses.
  - apply scim_commute.
  - apply post_field_commute_if; try discriminate; [reflexivity|].
    exact Hoperation.
Qed.

(** *** When both add a key, the order shows

    A write of a key the dict lacks appends it, and so does the enum
    repair with ["nullable"]: the last key of the dict tells which of
    the two ran last. *)

Lemma keys_dict_set_eq (k : string) (x : yaml) (d : dict) :
  keys (dict_set k x d) = if dict_has k d then keys d else keys d ++ [k].
Proof.
  unfold dict_has. induction d as [|[k' v] r IH]; [reflexivity|].
  cbn [dict_get dict_set]. destruct (String.eqb k k') eqn:E.
  - apply String.eqb_eq in E. subst k'. reflexivity.
  - cbn [keys map fst]. fold (keys r). fold (keys (dict_set k x r)).
    rewrite IH. destruct (dict_get k r); reflexivity.
Qed.

Lemma keys_repair_enum (d : dict) :
  keys (repair_enum d)
  = if adds_nullable d then keys d ++ ["nullable"] else keys d.
Proof.
  unfold repair_enum, adds_nullable.
  destruct (null_enum d) as [l|] eqn:E; [|reflexivity].
  pose proof (null_enum_has_enum _ _ E) as He.
  rewrite (dict_has_set_other "nullable" "enum") by discriminate.
  destruct (dict_has "nullable" d) eqn:En; cbn [negb].
  - rewrite keys_dict_set_eq, He. reflexivity.
  - rewrite keys_dict_set_eq.
    rewrite (dict_has_set_other "nullable" "enum") by discriminate.
    rewrite En, keys_dict_set_eq, He. reflexivity.
Qed.

Lemma keys_fixed (d : dict) :
  keys (map (fun kv => (fst kv, fix_null_enums (snd kv))) d) = keys d.
Proof. unfold keys. rewrite map_map. reflexivity. Qed.

Lemma dict_has_fixed (k : string) (d : dict) :
  dict_has k (map (fun kv => (fst kv, fix_null_enums (snd kv))) d)
  = dict_has k d.
Proof.
  unfold dict_has. rewrite (dict_get_map (fun _ => fix_null_enums)).
  destruct (dict_get k d); reflexivity.
Qed.

Lemma dict_has_repair_other (k : string) (d : dict) :
  k <> "enum" -> k <> "nullable" -> dict_has k (repair_enum d) = dict_has k d.
Proof.
  intros H1 H2. unfold dict_has. rewrite repair_enum_get_other by assumption.
  reflexivity.
Qed.

(** After the enum repair of a dict that gets ["nullable"], that is the
    last key. *)
Lemma fixed_last_nullable (d : dict) :
  adds_nullable d = true ->
  exists d', fix_null_enums (YDict d) = YDict d'
             /\ last (keys d') EmptyString = "nullable".
Proof.
  intros H. eexists. split; [apply fix_null_enums_dict|].
  rewrite keys_fixed, keys_repair_enum, H. apply last_last.
Qed.

(** After the write of a key the dict lacks, that is the last key. *)
Lemma set_last_key (k : string) (x : yaml) (d : dict) :
  dict_has k d = false -> last (keys (dict_set k x d)) EmptyString = k.
Proof. intros H. rewrite keys_dict_set_eq, H. apply last_last. Qed.

Lemma server_last_key (u w : yaml) (d : dict) :
  dict_has "url" d && dict_has "description" d = false ->
  last (keys (dict_set "description" w (dict_set "url" u d))) EmptyString
  <> "nullable".
Proof.
  intros H. destruct (dict_has "description" d) eqn:Ed.
  - rewrite andb_true_r in H.
    rewrite keys_dict_set_eq, dict_has_set_other, Ed by discriminate.
    rewrite set_last_key by exact H. discriminate.
  - rewrite set_last_key; [discriminate|].
    rewrite dict_has_set_other by discriminate. exact Ed.
Qed.

(** The enum repair keeps the place of every node that is not under an
    ["enum"] or ["nullable"] key. *)
Lemma child_fix_null_enums (s : step) (t : yaml) :
  s <> Key "enum" -> s <> Key "nullable" ->
  child s (fix_null_enums t) = option_map fix_null_enums (child s t).
Proof.
  intros H1 H2. destruct t as [| | | | |l|d]; try (destruct s; reflexivity).
  - rewrite fix_null_enums_list. destruct s as [k|i]; [reflexivity|].
    cbn [child]. apply nth_error_map.
  - rewrite fix_null_enums_dict. destruct s as [k|i]; [|reflexivity].
    cbn [child]. rewrite (dict_get_map (fun _ => fix_null_enums)).
    rewrite repair_enum_get_other by congruence. reflexivity.
Qed.

Lemma node_at_fix_null_enums (path : list step) (t : yaml) :
  (forall s, In s path -> s <> Key "enum" /\ s <> Key "nullable") ->
  node_at path (fix_null_enums t) = option_map fix_null_enums (node_at path t).
Proof.
  revert t. induction path as [|s r IH]; intros t H; [reflexivity|].
  cbn [node_at]. destruct (H s (or_introl eq_refl)) as [H1 H2].
  rewrite child_fix_null_enums by assumption.
  destruct (child s t) as [c|]; [|reflexivity].
  cbn [option_map]. apply IH. intros s' Hs'. apply H. right. exact Hs'.
Qed.

(** Where the repairs write: the dict at the path is replaced by the
    dict with the fields set. *)
Lemma post_field_node (path field : string) (x : yaml) (d pd : dict) :
  node_at [Key "paths"; Key path; Key "post"] (YDict d) = Some (YDict pd) ->
  exists s', set_post_field path field x (YDict d) = Ok s'
             /\ node_at [Key "paths"; Key path; Key "post"] s'
                = Some (YDict (dict_set field x pd)).
Proof.
  cbn [node_at child]. intros H.
  destruct (dict_get "paths" d) as [v|] eqn:E1; [|discriminate].
  destruct v as [| | | | | |tp]; try discriminate.
  destruct (dict_get path tp) as [e|] eqn:E2; [|discriminate].
  destruct e as [| | | | | |ed]; try discriminate.
  destruct (dict_get "post" ed) as [pv|] eqn:E3; [|discriminate].
  injection H as ->.
  rewrite set_post_field_at, at_key_dict, E1, post_field_value_dict,
    at_key_dict, E2, endpoint_value_dict, at_key_dict, E3.
  cbn [py_setitem]. rewrite !bind_ok. eexists. split; [reflexivity|].
  cbn [node_at child]. rewrite !dict_get_set_same. reflexivity.
Qed.

Lemma server_node (d sd : dict) :
  node_at [Key "servers"; Idx 0] (YDict d) = Some (YDict sd) ->
  exists s', fix_server (YDict d) = Ok s'
             /\ node_at [Key "servers"; Idx 0] s'
                = Some (YDict (dict_set "description" (YStr "Grist API server")
                                 (dict_set "url"
                                    (YStr "https://{subdomain}.getgrist.com/api")
                                    sd))).
Proof.
  cbn [node_at child]. intros H.
  destruct (dict_get "servers" d) as [v|] eqn:E1; [|discriminate].
  destruct v as [| | | | |l|]; try discriminate.
  destruct l as [|x r]; [discriminate|]. cbn [nth_error] in H.
  injection H as ->.
  rewrite fix_server_at, at_key_dict, E1. unfold server_value.
  cbn [py_len List.length Nat.ltb Nat.leb py_index0 py_setitem set_first].
  rewrite !bind_ok. eexists. split; [reflexivity|].
  cbn [node_at child]. rewrite dict_get_set_same. reflexivity.
Qed.

(** Both orders succeed on a document with a dict at the path, and the
    dict at the path is, in one order, the repaired written dict, in
    the other, the written repaired dict. *)
Lemma commute_gives_node (X : yaml -> result yaml) (path : list step)
    (W : dict -> dict) (d pd : dict) :
  (forall s, In s path -> s <> Key "enum" /\ s <> Key "nullable") ->
  (forall d0 pd0,
      node_at path (YDict d0) = Some (YDict pd0) ->
      exists s', X (YDict d0) = Ok s'
                 /\ node_at path s' = Some (YDict (W pd0))) ->
  node_at path (YDict d) = Some (YDict pd) ->
  commute_at X fix_enum (YDict d) ->
  fix_null_enums (YDict (W pd))
  = YDict (W (map (fun kv => (fst kv, fix_null_enums (snd kv)))
                  (repair_enum pd))).
Proof.
  intros Hpath HX Hnode Hc.
  destruct (HX d pd Hnode) as (s1 & H1 & N1).
  assert (NE : node_at path (fix_null_enums (YDict d))
               = Some (fix_null_enums (YDict pd))).
  { rewrite node_at_fix_null_enums, Hnode by exact Hpath. reflexivity. }
  rewrite (fix_null_enums_dict d), (fix_null_enums_dict pd) in NE.
  destruct (HX _ _ NE) as (s2 & H2 & N2).
  unfold commute_at in Hc. rewrite H1, bind_ok in Hc.
  unfold fix_enum in Hc. rewrite bind_ok, (fix_null_enums_dict d), H2 in Hc.
  cbn [same_outcome] in Hc.
  assert (N1' : node_at path (fix_null_enums s1)
                = Some (fix_null_enums (YDict (W pd)))).
  { rewrite node_at_fix_null_enums, N1 by exact Hpath. reflexivity. }
  rewrite Hc, N2 in N1'. symmetry.
  exact (f_equal (fun o => match o with Some v => v | None => YNull end) N1').
Qed.

Lemma post_field_commute_only (path field : string) (x : yaml) (d : dict) :
  path <> "enum" -> path <> "nullable" ->
  field <> "enum" -> field <> "nullable" ->
  commute_at (set_post_field path field x) fix_enum (YDict d) ->
  one_adds_at [field] [Key "paths"; Key path; Key "post"] (YDict d).
Proof.
  intros Hp Hp' Hf Hf' Hc pd Hnode.
  destruct (one_adds [field] pd) eqn:Eo; [reflexivity|exfalso].
  unfold one_adds in Eo. cbn [forallb] in Eo. rewrite andb_true_r in Eo.
  apply orb_false_elim in Eo as [Ea Eh]. apply negb_false_iff in Ea.
  assert (Hpath : forall s, In s [Key "paths"; Key path; Key "post"] ->
                            s <> Key "enum" /\ s <> Key "nullable")
    by (cbn [In]; intros s [<-|[<-|[<-|[]]]]; split; congruence).
  pose proof (commute_gives_node _ _ (dict_set field x) d pd Hpath
                (post_field_node path field x) Hnode Hc) as H.
  destruct (fixed_last_nullable (dict_set field x pd)) as (d' & Hd' & Hl).
  { rewrite adds_nullable_set_other by assumption. exact Ea. }
  rewrite Hd' in H. injection H as ->.
  rewrite set_last_key in Hl; [congruence|].
  rewrite dict_has_fixed, dict_has_repair_other by assumption. exact Eh.
Qed.

Lemma server_commute_only (d : dict) :
  commute_at fix_server fix_enum (YDict d) ->
  one_adds_at ["url"; "description"] [Key "servers"; Idx 0] (YDict d).
Proof.
  intros Hc sd Hnode.
  destruct (one_adds ["url"; "description"] sd) eqn:Eo; [reflexivity|exfalso].
  unfold one_adds in Eo. cbn [forallb] in Eo. rewrite andb_true_r in Eo.
  apply orb_false_elim in Eo as [Ea Eh]. apply negb_false_iff in Ea.
  assert (Hpath : forall s, In s [Key "servers"; Idx 0] ->
                            s <> Key "enum" /\ s <> Key "nullable")
    by (cbn [In]; intros s [<-|[<-|[]]]; split; congruence).
  pose proof (commute_gives_node _ _
                (fun sd => dict_set "description" (YStr "Grist API server")
                             (dict_set "url"
                                (YStr "https://{subdomain}.getgrist.com/api")
                                sd)) d sd Hpath
                server_node Hnode Hc) as H.
  cbv beta in H.
  destruct (fixed_last_nullable
              (dict_set "description" (YStr "Grist API server")
                 (dict_set "url" (YStr "https://{subdomain}.getgrist.com/api")
                    sd))) as (d' & Hd' & Hl).
  { rewrite !adds_nullable_set_other by discriminate. exact Ea. }
  rewrite Hd' in H. injection H as ->.
  revert Hl. apply server_last_key.
  rewrite !dict_has_fixed, !dict_has_repair_other by discriminate. exact Eh.
Qed.

(** C7, as the code has it, on documents that are trees (no node is
    shared, as in the model): on every document that is a dict, the
    server, response, SCIM and operationId repairs commute two by two
    (either order gives the same document, or both raise), and the
    SCIM removal commutes with the enum repair.  The enum repair
    commutes with the server fix, with the response fix and with the
    operationId repair exactly when the two do not both add a key to
    the dict the fix writes into: the first server, the [post] of
    [/docs/{docId}/states/remove], the [post] of [/docs].  Both add one
    when that dict has a null in its enum and no ["nullable"] entry,
    and lacks a field the fix writes. *)
Theorem repairs_commute (d : dict) :
  (forall X Y, In X targeted_repairs -> In Y targeted_repairs ->
               commute_at X Y (YDict d))
  /\ commute_at fix_scim fix_enum (YDict d)
  /\ (commute_at fix_server fix_enum (YDict d)
      <-> one_adds_at ["url"; "description"] [Key "servers"; Idx 0] (YDict d))
  /\ (commute_at fix_responses fix_enum (YDict d)
      <-> one_adds_at ["responses"]
            [Key "paths"; Key "/docs/{docId}/states/remove"; Key "post"]
            (YDict d))
  /\ (commute_at fix_operation_id fix_enum (YDict d)
      <-> one_adds_at ["operationId"] [Key "paths"; Key "/docs"; Key "post"]
            (YDict d))
  /\ (forall X, commute_at fix_enum X (YDict d)
                <-> commute_at X fix_enum (YDict d)).
Proof.
  split; [intros X Y; apply targeted_commute|].
  split; [apply scim_commute|].
  split; [split; [apply server_commute_only|apply server_commute_if]|].
  split.
  { split.
    - apply post_field_commute_only; discriminate.
    - apply post_field_commute_if; try discriminate. reflexivity. }
  split.
  { split.
    - apply post_field_commute_only; discriminate.
    - apply post_field_commute_if; try discriminate. reflexivity. }
  intros X. split; apply commute_at_sym.
Qed.

(** C7, as stated, fails: the operationId repair and the enum repair
    each add a key to the [post] operation of [/docs], in the order
    they run. *)
Lemma repairs_order_shows :
  (s <- fix_operation_id Sample.enum_operation_doc ;; fix_enum s)
  = Ok (YDict [("paths",
                YDict [("/docs",
                        YDict [("post",
                                YDict [("enum", YList []);
                                       ("operationId", YStr "createOrImportDoc");
                                       ("nullable", YBool true)])])])])
  /\ (s <- fix_enum Sample.enum_operation_doc ;; fix_operation_id s)
     = Ok (YDict [("paths",
                   YDict [("/docs",
                           YDict [("post",
                                   YDict [("enum", YList []);
                                          ("nullable", YBool true);
                                          ("operationId", YStr "createOrImportDoc")])])])])
  /\ (s <- fix_operation_id Sample.enum_operation_doc ;; fix_enum s)
     <> (s <- fix_enum Sample.enum_operation_doc ;; fix_operation_id s).
Proof. split; [reflexivity|]. split; [reflexivity|]. vm_compute. discriminate. Qed.

(** ** The theorems at sample documents *)

Lemma normalize_path_substring_witness :
  normalize_path ("/api" ++ "keys")%string = ("/" ++ "keys")%string.
Proof.
  apply (proj1 (proj2 normalize_path_substring) "keys"); reflexivity.
Defined.

Lemma param_names_any_depth_witness :
  node_at ([Key "get"] ++ [Key "parameters"; Idx 0; Key "name"])
          Sample.workspaces_item = Some (YStr "uid")
  /\ exists converted,
       convert_param_names_in_path Sample.workspaces_item = Ok converted
       /\ node_at ([Key "get"] ++ [Key "parameters"; Idx 0; Key "name"])
                  converted = Some (YStr "userId").
Proof.
  split; [reflexivity|]. eexists. split; [vm_compute; reflexivity|].
  apply (proj1 param_names_any_depth Sample.workspaces_item _ [Key "get"] 0
           "uid" "userId"); reflexivity.
Defined.

Lemma normalize_oid_witness :
  Str.contains "{orgId}" (normalize_path "/api/orgs/{oid}/workspaces") = true
  /\ exists converted,
       convert_param_names_in_path Sample.workspaces_item = Ok converted
       /\ node_at [Key "parameters"; Idx 0; Key "name"] converted
          = Some (YStr "orgId").
Proof.
  destruct (normalize_oid "/api/orgs/{oid}/workspaces" Sample.workspaces_item 0
              eq_refl eq_refl eq_refl) as (H1 & _ & _ & c & Hc & Hn & _).
  split; [exact H1|]. exists c. split; [exact Hc|exact Hn].
Defined.

Lemma enum_repair_witness :
  exists n', subnode (YDict n') (fix_null_enums Sample.enum_doc)
             /\ dict_get "enum" n' = Some (YList [YStr "a"; YStr "b"])
             /\ dict_get "nullable" n' = Some (YBool true).
Proof.
  destruct (enum_repair Sample.enum_doc Sample.enum_node (YStr "a") (YStr "b"))
    as [(n' & H1 & _ & H2 & H3) _]; try reflexivity.
  - apply (sub_entry _ "components"
             (YDict [("schemas", YDict [("Kind", YDict Sample.enum_node)])]));
      [left; reflexivity|].
    apply (sub_entry _ "schemas" (YDict [("Kind", YDict Sample.enum_node)]));
      [left; reflexivity|].
    apply (sub_entry _ "Kind" (YDict Sample.enum_node)); [left; reflexivity|].
    apply sub_here.
  - exists n'. auto.
Defined.

Lemma staged_refs_rewritten_witness :
  exists converted,
    convert_param_names_in_path Sample.workspaces_item = Ok converted
    /\ dict_get (normalize_path "/api/orgs/{oid}/workspaces")
         (dict_set (normalize_path "/api/orgs/{oid}/workspaces")
                   (convert_param_refs converted) [])
       = Some (convert_param_refs converted).
Proof.
  assert (Hs : exists m, stage [] [] ("/api/orgs/{oid}/workspaces",
                                      Sample.workspaces_item) = Ok m).
  { eexists. vm_compute. reflexivity. }
  destruct Hs as [m Hs].
  destruct (staged_refs_rewritten [] [] m "/api/orgs/{oid}/workspaces"
              Sample.workspaces_item eq_refl Hs) as (c & Hc & _).
  exists c. split; [exact Hc|]. apply dict_get_set_same.
Defined.

Lemma merge_paths_witness :
  exists d' missing,
    merge (YDict Sample.docs_target) (YDict Sample.workspaces_source)
    = Ok (YDict d')
    /\ dict_get "paths" d'
       = Some (YDict ([("/docs", YDict [("post", YDict [])])] ++ missing)).
Proof.
  destruct (merge_paths Sample.docs_target Sample.workspaces_source
              [("/docs", YDict [("post", YDict [])])]
              [("/api/orgs/{oid}/workspaces", Sample.workspaces_item)]
              eq_refl eq_refl eq_refl eq_refl)
    as (d' & missing & H1 & H2 & _).
  exists d', missing. split; [exact H1|exact H2].
Defined.

Lemma merge_self_witness :
  exists d',
    merge (YDict Sample.official_doc) (YDict Sample.official_doc) = Ok (YDict d')
    /\ dict_get "paths" d' = dict_get "paths" Sample.official_doc
    /\ dict_get "components" d' = dict_get "components" Sample.official_doc.
Proof.
  apply (merge_self Sample.official_doc
           [("/orgs/{orgId}", YDict []); ("/docs", YDict [])]);
    [reflexivity|reflexivity|].
  intros k [<-|[<-|[]]]; vm_compute; tauto.
Defined.

Lemma merge_failures_witness :
  merge_main (YDict []) (YDict Sample.workspaces_source) = Raise KeyError
  /\ (exists result,
        merge_main (YDict Sample.docs_target) (YDict Sample.workspaces_source)
        = Ok result)
  /\ merge_main (YDict [("paths", YList [])]) (YDict []) = Raise AttributeError.
Proof.
  split; [|split].
  - destruct (proj1 (proj2 (merge_failures [] Sample.workspaces_source))
                [("/api/orgs/{oid}/workspaces", Sample.workspaces_item)]
                eq_refl eq_refl eq_refl) as [H _].
    apply H. discriminate.
  - apply (proj1 (proj2 (proj2 (merge_failures Sample.docs_target
                                  Sample.workspaces_source)))
             [("/docs", YDict [("post", YDict [])])]
             [("/api/orgs/{oid}/workspaces", Sample.workspaces_item)]
             eq_refl eq_refl eq_refl eq_refl).
  - apply (proj2 (proj2 (proj2 (merge_failures [("paths", YList [])] [])))
             (YList []) (YDict []) eq_refl).
    discriminate.
Defined.

Lemma backfill_witness :
  exists d' rs,
    fix_main (nodup string_dec)
             (YDict [("paths",
                      YDict [("/orgs/{orgId}/workspaces", Sample.workspaces_item)])])
             (YDict Sample.workspaces_source) = Ok (YDict d')
    /\ definitions "schemas" (YDict d') = Ok (YDict rs)
    /\ dict_get "Workspace" rs = Some (YDict [("type", YStr "object")]).
Proof.
  destruct (backfill (nodup string_dec)
              (fun refs name H => proj2 (nodup_In string_dec refs name) H)
              (YDict [("paths",
                       YDict [("/orgs/{orgId}/workspaces", Sample.workspaces_item)])])
              (YDict Sample.workspaces_source)
              []
              [("paths",
                YDict [("/orgs/{orgId}/workspaces", Sample.workspaces_item)])]
              [] []
              [("Workspace", YDict [("type", YStr "object")])]
              [("OrgId", YDict [("name", YStr "oid")])]
              eq_refl eq_refl eq_refl eq_refl eq_refl)
    as (_ & d' & paths & rs & rp & H1 & Hp & Hrs & _ & Hfill & _).
  exists d', rs. split; [exact H1|]. split; [exact Hrs|].
  injection Hp as <-. rewrite (Hfill "Workspace"); [reflexivity| |reflexivity].
  vm_compute. tauto.
Defined.

Lemma repairs_commute_witness :
  commute_at fix_server fix_enum (YDict Sample.full_doc)
  /\ commute_at fix_responses fix_scim (YDict Sample.full_doc)
  /\ commute_at fix_enum fix_operation_id (YDict Sample.full_doc).
Proof.
  destruct (repairs_commute Sample.full_doc) as (Ht & _ & Hs & _ & Ho & Hsym).
  split; [|split].
  - apply Hs. intros d0 H. vm_compute in H. injection H as <-. reflexivity.
  - apply Ht; cbn; tauto.
  - apply Hsym, Ho. intros d0 H. vm_compute in H. injection H as <-.
    reflexivity.
Defined.

(** * Further properties of the two scripts *)

(** ** The path normalizer *)

(** X1: whatever the path, none of the six short tokens is left in its
    normalized form. *)
Theorem normalize_path_no_short_token (path old : string) :
  In old (map fst param_replacements) ->
  Str.contains old (normalize_path path) = false.
Proof. intros H. unfold normalize_path. apply rename_tokens_absent, H. Qed.

Lemma contains_tail (t : string) (c : ascii) (s : string) :
  Str.contains t (String c s) = false -> Str.contains t s = false.
Proof. cbn [Str.contains]. intros H. apply orb_false_elim in H. tauto. Qed.

(** X2: a path in the official convention, with no ["/api"] and none of
    the short tokens, is normalized to itself, and with the prefix
    ["/api"] before it, to itself too. *)
Theorem normalize_path_official (path : string) :
  Str.contains "/api" path = false ->
  (forall old, In old (map fst param_replacements) ->
               Str.contains old path = false) ->
  normalize_path path = path
  /\ (Str.startswith path "/" = true ->
      normalize_path ("/api" ++ path) = path).
Proof.
  intros Hapi Htok.
  assert (H1 : Str.replace "/api/" "/" path = path).
  { apply (StrFacts.replace_absent "/" "api/").
    apply (StrFacts.contains_longer "/api" "/"), Hapi. }
  assert (H2 : Str.replace "/api" "/" path = path)
    by (apply (StrFacts.replace_absent "/" "api"), Hapi).
  assert (Hfix : normalize_path path = path).
  { unfold normalize_path. rewrite H1, H2. apply rename_tokens_fixed, Htok. }
  split; [exact Hfix|].
  intros Hs. destruct path as [|c q]; [discriminate|].
  unfold Str.startswith in Hs. rewrite StrFacts.prefix_cons in Hs.
  apply andb_prop in Hs as [Hc _]. apply Ascii.eqb_eq in Hc. subst c.
  unfold normalize_path.
  change ("/api" ++ String "/" q)%string with ("/api/" ++ q)%string.
  rewrite (StrFacts.replace_hit "/" "api/" "/" q).
  rewrite (StrFacts.replace_absent "/" "api/" "/" q).
  - change ("/" ++ q)%string with (String "/" q). rewrite H2.
    apply rename_tokens_fixed, Htok.
  - apply (StrFacts.contains_longer "/api" "/").
    apply (contains_tail _ "/"), Hapi.
Qed.

(** ** The rewriting of reference pointers *)

Lemma rewrite_ref_unfold (s : string) :
  rewrite_ref s
  = fold_left (fun value on =>
                 Str.replace ("parameters/" ++ fst on) ("parameters/" ++ snd on)
                             value) param_map s.
Proof.
  unfold rewrite_ref. generalize param_map. intros m. revert s.
  induction m as [|[old new] m IH]; intros s; [reflexivity|].
  cbn [fold_left fst snd].
  destruct (Str.contains ("parameters/" ++ old) s) eqn:E; [apply IH|].
  rewrite (StrFacts.replace_absent "p" ("arameters/" ++ old)%string)
    by exact E.
  apply IH.
Qed.

Section Pointers.
Import Str StrFacts.
#[local] Open Scope string_scope.

Lemma contains_skip_apart (t z w : string) :
  apart t z = true -> contains t (z ++ w) = contains t w.
Proof.
  induction z as [|c r IH]; intros H; [reflexivity|].
  cbn [apart] in H. apply andb_prop in H as [Hd Hr].
  cbn [append contains].
  change (String c (r ++ w)) with (String c r ++ w).
  rewrite (diverge_prefix _ _ w Hd). apply IH, Hr.
Qed.

(** A string whose suffixes all differ from the pattern and from
    the replacement is a prefix after the replacement as before. *)
Lemma replace_prefix_apart (c0 : ascii) (o z u s : string) :
  apart (String c0 o) u = true ->
  apart (String c0 z) u = true ->
  prefix u (replace (String c0 o) (String c0 z) s) = prefix u s.
Proof.
  revert s. induction u as [|d u IH]; intros s Ho Hz.
  - rewrite !prefix_nil. reflexivity.
  - cbn [apart] in Ho, Hz.
    apply andb_prop in Ho as [Ho Ho'], Hz as [Hz Hz'].
    destruct s as [|e r]; [reflexivity|].
    destruct (prefix (String c0 o) (String e r)) eqn:Hp.
    + apply prefix_split in Hp. rewrite Hp. rewrite replace_hit.
      rewrite diverge_sym in Ho, Hz.
      rewrite (diverge_prefix _ _ _ Ho), (diverge_prefix _ _ _ Hz).
      reflexivity.
    + rewrite replace_miss by exact Hp.
      rewrite !prefix_cons, (IH r Ho' Hz'). reflexivity.
Qed.

(** A token that is the pattern, or is absent, is absent from the
    result, also when the opening character occurs again in the token
    or in the replacement. *)
Lemma replace_token_gone (c0 : ascii) (o z u s : string) :
  apart (String c0 o) u = true ->
  apart (String c0 z) u = true ->
  diverge (String c0 u) (String c0 z) = true ->
  apart (String c0 u) z = true ->
  String c0 u = String c0 o \/ contains (String c0 u) s = false ->
  contains (String c0 u) (replace (String c0 o) (String c0 z) s) = false.
Proof.
  intros Huo Huz Hdiv Hz.
  induction s as [| r IH | c r Hp IH] using (scan_ind c0 o); intros Hs.
  - reflexivity.
  - rewrite replace_hit.
    assert (Hr : String c0 u = String c0 o \/ contains (String c0 u) r = false).
    { destruct Hs as [Hs|Hs]; [left; exact Hs|right].
      destruct (contains (String c0 u) r) eqn:E; [|reflexivity].
      rewrite (contains_app_r _ (String c0 o) _ E) in Hs. discriminate. }
    specialize (IH Hr).
    pose proof (diverge_prefix _ _ (replace (String c0 o) (String c0 z) r) Hdiv)
      as Hd.
    cbn [append] in *. cbn [contains]. rewrite Hd. cbn [orb].
    rewrite contains_skip_apart by exact Hz. exact IH.
  - rewrite replace_miss by exact Hp.
    assert (Hr : String c0 u = String c0 o \/ contains (String c0 u) r = false).
    { destruct Hs as [Hs|Hs]; [left; exact Hs|right].
      cbn [contains] in Hs. apply orb_false_elim in Hs as [_ H2]. exact H2. }
    cbn [contains]. rewrite (IH Hr), orb_false_r.
    rewrite prefix_cons.
    rewrite (replace_prefix_apart c0 o z u r Huo Huz), <- prefix_cons.
    destruct Hs as [Hs|Hs].
    + rewrite Hs. exact Hp.
    + cbn [contains] in Hs. apply orb_false_elim in Hs as [H1 _]. exact H1.
Qed.

End Pointers.

Ltac pointer_absent :=
  first
    [ apply replace_token_gone;
      [reflexivity | reflexivity | reflexivity | reflexivity
      | left; reflexivity]
    | apply replace_token_gone;
      [reflexivity | reflexivity | reflexivity | reflexivity
      | right; pointer_absent] ].

Lemma rewrite_ref_clean (s old new : string) :
  In (old, new) param_map ->
  Str.contains ("parameters/" ++ old) (rewrite_ref s) = false.
Proof.
  intros H. rewrite rewrite_ref_unfold. cbn in H.
  cbn [fold_left param_map fst snd append].
  repeat (destruct H as [[= <- <-]|H]; [pointer_absent|]).
  destruct H.
Qed.

Lemma rewrite_ref_idem (s : string) : rewrite_ref (rewrite_ref s) = rewrite_ref s.
Proof.
  apply rewrite_ref_no_match. intros old new H.
  apply (rewrite_ref_clean s old new H).
Qed.

Lemma converted_ref_idem (k : string) (v : yaml) :
  convert_param_refs (convert_param_refs v) = convert_param_refs v ->
  converted_ref k (converted_ref k v) = converted_ref k v.
Proof.
  intros IH. destruct v as [| | | | s|l|d]; try reflexivity.
  - cbn [converted_ref]. destruct (String.eqb k "$ref") eqn:E;
      cbn [converted_ref]; rewrite E; [rewrite rewrite_ref_idem|]; reflexivity.
  - exact IH.
  - exact IH.
Qed.

Lemma convert_param_refs_idem (t : yaml) :
  convert_param_refs (convert_param_refs t) = convert_param_refs t.
Proof.
  induction t as [| | | | |l IH|d IH] using yaml_ind; try reflexivity.
  - cbn [convert_param_refs]. rewrite map_map. apply (f_equal YList).
    apply map_ext_in. intros x Hx. rewrite Forall_forall in IH. apply IH, Hx.
  - rewrite !convert_param_refs_dict, map_map. apply (f_equal YDict).
    apply map_ext_in. intros kv Hkv. cbn [fst snd]. f_equal.
    apply converted_ref_idem. rewrite Forall_forall in IH. apply (IH kv Hkv).
Qed.

(** X3: in a tree that went through [convert_param_refs], no ["$ref"]
    string has a ["parameters/<old>"] of the table left, wherever the
    entry is. *)
Theorem convert_param_refs_clean (t : yaml) (path : list step) (s old new : string) :
  node_at (path ++ [Key "$ref"]) (convert_param_refs t) = Some (YStr s) ->
  In (old, new) param_map ->
  Str.contains ("parameters/" ++ old) s = false.
Proof.
  intros Hn Hin.
  pose proof (convert_param_refs_at_ref path s _ Hn) as H2.
  rewrite convert_param_refs_idem, Hn in H2. injection H2 as H2.
  rewrite H2. apply (rewrite_ref_clean s old new Hin).
Qed.

(** X4: [convert_param_refs] applied to its own result changes nothing. *)
Theorem convert_param_refs_twice (t : yaml) :
  convert_param_refs (convert_param_refs t) = convert_param_refs t.
Proof. apply convert_param_refs_idem. Qed.

(** ** The errors of the conversion of parameter names *)

Lemma mapM_raises (A B : Type) (f : A -> result B) (l : list A) (e : exn) :
  Forall (fun a => (exists b, f a = Ok b) \/ f a = Raise e) l ->
  Exists (fun a => f a = Raise e) l ->
  mapM f l = Raise e.
Proof.
  induction 1 as [|a r Ha _ IH]; intros Hex; inversion Hex; subst.
  - cbn [mapM]. rewrite H0. reflexivity.
  - cbn [mapM]. destruct Ha as [[b ->]| ->]; [|reflexivity].
    rewrite bind_ok, (IH H0). reflexivity.
Qed.

Lemma forallb_false_exists (A : Type) (Q : A -> bool) (l : list A) :
  forallb Q l = false -> Exists (fun a => Q a = false) l.
Proof.
  induction l as [|a r IH]; cbn [forallb]; intros H; [discriminate|].
  destruct (Q a) eqn:E; [right; apply IH, H|left; exact E].
Qed.

Lemma forallb_dict_set_eq (Q : string * yaml -> bool) (k : string) (x y : yaml)
    (d : dict) :
  dict_get k d = Some y -> Q (k, y) = Q (k, x) ->
  forallb Q (dict_set k x d) = forallb Q d.
Proof.
  intros Hg Hq. induction d as [|[k' v] r IH]; [discriminate|].
  cbn [dict_get dict_set] in *. destruct (String.eqb k k') eqn:E.
  - apply String.eqb_eq in E. subst k'. injection Hg as ->.
    cbn [forallb]. rewrite Hq. reflexivity.
  - cbn [forallb]. rewrite (IH Hg). reflexivity.
Qed.

Lemma rename_param_raises (p : yaml) :
  param_ok p = false -> rename_param p = Raise TypeError.
Proof.
  destruct p as [| | | | | |d]; try discriminate.
  cbn [param_ok rename_param].
  destruct (dict_get "name" d) as [[]|]; try discriminate; reflexivity.
Qed.

Lemma rename_param_names_eq (p r : yaml) :
  rename_param p = Ok r -> names_ok r = names_ok p.
Proof.
  intros H. apply rename_param_cases in H as [->|(d & s & new & -> & Hg & _ & ->)];
    [reflexivity|].
  cbn [names_ok]. apply (forallb_dict_set_eq _ _ _ _ _ Hg). reflexivity.
Qed.

Lemma mapM_rename_names_eq (ps : list yaml) :
  forall ps', mapM rename_param ps = Ok ps' ->
              forallb names_ok ps' = forallb names_ok ps.
Proof.
  induction ps as [|p ps IH]; intros ps' H.
  - injection H as <-. reflexivity.
  - apply mapM_ok_inv in H as (b & bs & Hb & Hbs & ->).
    cbn [forallb]. rewrite (rename_param_names_eq _ _ Hb), (IH _ Hbs).
    reflexivity.
Qed.

Lemma rename_params_names_eq (key : string) (v v2 : yaml) :
  rename_params key v = Ok v2 -> names_ok v2 = names_ok v.
Proof.
  destruct v as [| | | | |l|d]; cbn [rename_params]; try (intros [= <-]; reflexivity).
  destruct (String.eqb key "parameters"); [|intros [= <-]; reflexivity].
  intros H. apply bind_ok_inv in H as (ps' & Hm & [= <-]).
  cbn [names_ok]. apply mapM_rename_names_eq, Hm.
Qed.

Lemma rename_params_raises (key : string) (v : yaml) :
  params_ok key v = false -> rename_params key v = Raise TypeError.
Proof.
  destruct v as [| | | | |l|d]; try discriminate.
  cbn [params_ok rename_params].
  destruct (String.eqb key "parameters"); [|discriminate].
  intros H. rewrite (mapM_raises _ _ rename_param l TypeError); [reflexivity| |].
  - apply Forall_forall. intros p _. destruct (param_ok p) eqn:E.
    + left. apply rename_param_total, E.
    + right. apply rename_param_raises, E.
  - apply forallb_false_exists in H. apply Exists_exists in H as (p & Hp & E).
    apply Exists_exists. exists p. split; [exact Hp|].
    apply rename_param_raises, E.
Qed.

Lemma convert_param_names_raises (t : yaml) :
  names_ok t = false -> convert_param_names_in_path t = Raise TypeError.
Proof.
  induction t as [t IH] using depth_ind. intros H.
  destruct t as [| | | | |l|d]; try discriminate.
  - rewrite convert_param_names_list.
    rewrite (mapM_raises _ _ convert_param_names_in_path l TypeError);
      [reflexivity| |].
    + apply Forall_forall. intros x Hx. destruct (names_ok x) eqn:E.
      * left. apply convert_param_names_total, E.
      * right. apply IH; [apply depth_item, Hx|exact E].
    + cbn [names_ok] in H. apply forallb_false_exists in H.
      apply Exists_exists in H as (x & Hx & E).
      apply Exists_exists. exists x. split; [exact Hx|].
      apply IH; [apply depth_item, Hx|exact E].
  - rewrite convert_param_names_dict.
    assert (Hkv : forall kv, In kv d ->
              if names_ok (snd kv) && params_ok (fst kv) (snd kv)
              then exists b, (value <- rename_params (fst kv) (snd kv) ;;
                              converted <- convert_param_names_in_path value ;;
                              Ok (fst kv, converted)) = Ok b
              else (value <- rename_params (fst kv) (snd kv) ;;
                    converted <- convert_param_names_in_path value ;;
                    Ok (fst kv, converted)) = Raise TypeError).
    { intros kv Hin. destruct (params_ok (fst kv) (snd kv)) eqn:Ep.
      - destruct (names_ok (snd kv)) eqn:En; cbn [andb].
        + destruct (rename_params_total _ _ Ep En) as (v2 & Hr & Hv2).
          destruct (convert_param_names_total _ Hv2) as (c & Hc).
          exists (fst kv, c). rewrite Hr, bind_ok. cbv beta.
          rewrite Hc. reflexivity.
        + destruct (rename_params (fst kv) (snd kv)) as [v2|e] eqn:Er.
          * rewrite bind_ok. cbv beta. rewrite IH; [reflexivity| |].
            -- pose proof (rename_params_depth _ _ _ Er).
               pose proof (depth_entry _ _ Hin). lia.
            -- rewrite (rename_params_names_eq _ _ _ Er). exact En.
          * destruct (snd kv) as [| | | | |l|d0]; cbn [rename_params] in Er;
              try discriminate.
            cbn [names_ok params_ok] in *.
            destruct (String.eqb (fst kv) "parameters"); [|discriminate].
            exfalso.
            assert (Hall : Forall (fun p => exists r, rename_param p = Ok r) l).
            { apply Forall_forall. intros p Hp. apply rename_param_total.
              rewrite forallb_forall in Ep. apply Ep, Hp. }
            destruct (mapM_total _ _ _ _ Hall) as [r Hr].
            rewrite Hr in Er. discriminate.
      - rewrite andb_false_r, (rename_params_raises _ _ Ep). reflexivity. }
    rewrite (mapM_raises _ _ _ d TypeError); [reflexivity| |].
    + apply Forall_forall. intros kv Hin. specialize (Hkv kv Hin).
      destruct (names_ok (snd kv) && params_ok (fst kv) (snd kv));
        [left|right]; exact Hkv.
    + cbn [names_ok] in H. apply forallb_false_exists in H.
      apply Exists_exists in H as (kv & Hin & E).
      apply Exists_exists. exists kv. split; [exact Hin|].
      specialize (Hkv kv Hin). rewrite E in Hkv. exact Hkv.
Qed.

(** X5: [convert_param_names_in_path] returns exactly on the trees
    whose parameter entries all have a name that can be hashed; on any
    other tree it raises TypeError, and no other exception ever. *)
Theorem convert_param_names_errors (t : yaml) :
  (names_ok t = true <-> exists t', convert_param_names_in_path t = Ok t')
  /\ (names_ok t = false <-> convert_param_names_in_path t = Raise TypeError)
  /\ (forall e, convert_param_names_in_path t = Raise e -> e = TypeError).
Proof.
  destruct (names_ok t) eqn:E.
  - destruct (convert_param_names_total t E) as [t' H]. rewrite H.
    repeat split; try discriminate; eauto.
  - rewrite (convert_param_names_raises t E).
    repeat split; try discriminate; try congruence.
    intros [t' H]. discriminate.
Qed.

(** ** The two conversions of a staged PathItem *)

Lemma mapM_map (A B C : Type) (f : B -> result C) (g : A -> B) (l : list A) :
  mapM f (map g l) = mapM (fun a => f (g a)) l.
Proof.
  induction l as [|a r IH]; [reflexivity|]. cbn [map mapM]. rewrite IH.
  reflexivity.
Qed.

Lemma mapM_then_map (A B C : Type) (f : A -> result B) (h : B -> C)
    (l : list A) :
  mapM (fun a => b <- f a ;; Ok (h b)) l = (bs <- mapM f l ;; Ok (map h bs)).
Proof.
  induction l as [|a r IH]; [reflexivity|]. cbn [mapM]. rewrite IH.
  destruct (f a) as [b|e]; [|reflexivity]. rewrite !bind_ok.
  destruct (mapM f r) as [bs|e]; reflexivity.
Qed.

Lemma map_dict_set (f : string -> yaml -> yaml) (k : string) (x : yaml)
    (d : dict) :
  map (fun kv => (fst kv, f (fst kv) (snd kv))) (dict_set k x d)
  = dict_set k (f k x) (map (fun kv => (fst kv, f (fst kv) (snd kv))) d).
Proof.
  induction d as [|[k' v] r IH]; [reflexivity|].
  cbn [dict_set map fst snd]. destruct (String.eqb k k'); [reflexivity|].
  cbn [map fst snd]. rewrite IH. reflexivity.
Qed.

Lemma rename_param_refs (p : yaml) :
  rename_param (convert_param_refs p)
  = (r <- rename_param p ;; Ok (convert_param_refs r)).
Proof.
  destruct p as [| | | | | |d]; try reflexivity.
  rewrite convert_param_refs_dict. cbn [rename_param].
  rewrite (dict_get_map converted_ref).
  destruct (dict_get "name" d) as [v|] eqn:E; cbn [option_map];
    [|rewrite bind_ok, convert_param_refs_dict; reflexivity].
  destruct v as [| | | | s|l|d0];
    try (cbn [converted_ref convert_param_refs py_hashable bind]; reflexivity).
  cbn [converted_ref]. change (String.eqb "name" "$ref") with false.
  cbn [py_hashable]. rewrite !bind_ok.
  destruct (assoc s param_name_map) as [new|]; rewrite bind_ok;
    [|rewrite convert_param_refs_dict; reflexivity].
  rewrite convert_param_refs_dict, (map_dict_set converted_ref). reflexivity.
Qed.

Lemma rename_params_refs (key : string) (v : yaml) :
  rename_params key (convert_param_refs v)
  = (r <- rename_params key v ;; Ok (convert_param_refs r)).
Proof.
  destruct v as [| | | | |l|d]; try reflexivity.
  cbn [convert_param_refs rename_params].
  destruct (String.eqb key "parameters"); [|reflexivity].
  rewrite mapM_map, (mapM_ext_in _ _ _ _ l (fun p _ => rename_param_refs p)).
  rewrite mapM_then_map. destruct (mapM rename_param l); reflexivity.
Qed.

Lemma rename_params_str (key : string) (v : yaml) (x : string) :
  rename_params key v = Ok (YStr x) -> v = YStr x.
Proof.
  destruct v as [| | | | |l|d]; cbn [rename_params]; try congruence.
  destruct (String.eqb key "parameters"); [|congruence].
  destruct (mapM rename_param l); discriminate.
Qed.

Lemma convert_param_names_str (t : yaml) (x : string) :
  convert_param_names_in_path t = Ok (YStr x) -> t = YStr x.
Proof.
  destruct t as [| | | | |l|d]; try (cbn; congruence).
  - intros H. apply convert_list_inv in H as (l' & H & _). discriminate.
  - intros H. apply convert_dict_inv in H as (d' & H & _). discriminate.
Qed.

Lemma converted_ref_not_str (k : string) (v : yaml) :
  (forall x, v <> YStr x) -> converted_ref k v = convert_param_refs v.
Proof. destruct v; try reflexivity. intros H. destruct (H s eq_refl). Qed.

(** X6: the two conversions of a staged PathItem commute: renaming the
    parameters of the rewritten tree gives what rewriting the pointers of
    the renamed tree gives, and fails when the renaming fails. *)
Theorem conversions_commute (t : yaml) :
  convert_param_names_in_path (convert_param_refs t)
  = (c <- convert_param_names_in_path t ;; Ok (convert_param_refs c)).
Proof.
  induction t as [t IH] using depth_ind.
  destruct t as [| | | | |l|d]; try reflexivity.
  - cbn [convert_param_refs]. rewrite !convert_param_names_list, mapM_map.
    rewrite (mapM_ext_in _ _ _
               (fun x => c <- convert_param_names_in_path x ;;
                         Ok (convert_param_refs c)) l)
      by (intros x Hx; apply IH, depth_item, Hx).
    rewrite mapM_then_map.
    destruct (mapM convert_param_names_in_path l); reflexivity.
  - rewrite convert_param_refs_dict, !convert_param_names_dict, mapM_map.
    cbn [fst snd].
    rewrite (mapM_ext_in _ _ _
               (fun kv => b <- (value <- rename_params (fst kv) (snd kv) ;;
                                converted <- convert_param_names_in_path value ;;
                                Ok (fst kv, converted)) ;;
                          Ok (fst b, converted_ref (fst b) (snd b))) d).
    + rewrite mapM_then_map.
      destruct (mapM _ d) as [new|e]; [|reflexivity].
      rewrite !bind_ok, convert_param_refs_dict. reflexivity.
    + intros [k v] Hin. cbn [fst snd].
      assert (Hv : (exists x, v = YStr x) \/ forall x, v <> YStr x).
      { destruct v; try (right; discriminate). left. eexists. reflexivity. }
      destruct Hv as [[x ->]|Hv].
      * cbn [converted_ref].
        destruct (String.eqb k "$ref") eqn:E; cbn [rename_params];
          rewrite !bind_ok; cbv beta;
          rewrite !convert_param_names_scalar by reflexivity;
          rewrite !bind_ok; cbn [fst snd converted_ref]; rewrite E;
          reflexivity.
      * rewrite (converted_ref_not_str k v Hv), rename_params_refs.
        destruct (rename_params k v) as [v2|e] eqn:Er; [|reflexivity].
        rewrite !bind_ok. cbv beta.
        rewrite IH.
        2:{ pose proof (rename_params_depth _ _ _ Er).
            pose proof (depth_entry _ _ Hin). cbn [snd] in *. lia. }
        destruct (convert_param_names_in_path v2) as [c|e] eqn:Ec;
          [|reflexivity].
        rewrite !bind_ok. cbn [fst snd].
        rewrite converted_ref_not_str; [reflexivity|].
        intros x ->. apply convert_param_names_str in Ec. subst v2.
        apply rename_params_str in Er. exact (Hv x Er).
Qed.

(** ** The references found in a tree *)

Lemma subnode_dict_str (d : dict) (s : string) : ~ subnode (YDict d) (YStr s).
Proof. intros H. inversion H. Qed.

Lemma find_refs_entry (pointer : string) (k : string) (v : yaml) :
  (forall s, v <> YStr s) ->
  (match v with
   | YStr value =>
       if String.eqb k "$ref" && Str.startswith value pointer
       then [Str.replace pointer "" value]
       else []
   | _ => find_refs pointer v
   end) = find_refs pointer v.
Proof. destruct v; try reflexivity. intros H. destruct (H s eq_refl). Qed.

Lemma find_refs_sound (pointer : string) (t : yaml) (n : string) :
  In n (find_refs pointer t) ->
  exists d s, subnode (YDict d) t /\ In ("$ref", YStr s) d
              /\ Str.startswith s pointer = true
              /\ n = Str.replace pointer "" s.
Proof.
  induction t as [| | | | |l IH|d IH] using yaml_ind; cbn [find_refs];
    try contradiction.
  - intros H. apply in_flat_map in H as (x & Hx & Hn).
    rewrite Forall_forall in IH.
    destruct (IH x Hx Hn) as (d & s & Hsub & Hd & Hs & ->).
    exists d, s. repeat split; try assumption.
    apply (sub_item _ x l Hx Hsub).
  - intros H. apply in_flat_map in H as ([k v] & Hkv & Hn).
    rewrite Forall_forall in IH. cbn [fst snd] in Hn.
    destruct v as [| | | | value|l|d0]; try contradiction.
    + destruct (String.eqb k "$ref") eqn:Ek; [|contradiction].
      destruct (Str.startswith value pointer) eqn:Es; [|contradiction].
      destruct Hn as [<-|[]]. apply String.eqb_eq in Ek. subst k.
      exists d, value. repeat split; try assumption. apply sub_here.
    + destruct (IH _ Hkv Hn) as (d' & s & Hsub & Hd & Hs & ->).
      exists d', s. repeat split; try assumption.
      apply (sub_entry _ k _ d Hkv Hsub).
    + destruct (IH _ Hkv Hn) as (d' & s & Hsub & Hd & Hs & ->).
      exists d', s. repeat split; try assumption.
      apply (sub_entry _ k _ d Hkv Hsub).
Qed.

Lemma find_refs_complete (pointer : string) (t : yaml) (d : dict) (s : string) :
  subnode (YDict d) t -> In ("$ref", YStr s) d ->
  Str.startswith s pointer = true ->
  In (Str.replace pointer "" s) (find_refs pointer t).
Proof.
  intros Hsub Hd Hs. induction Hsub as [|x l Hx Hsub IH|k v d0 Hkv Hsub IH].
  - cbn [find_refs]. apply in_flat_map. exists ("$ref", YStr s).
    split; [exact Hd|]. cbn [fst snd]. rewrite Hs. left. reflexivity.
  - cbn [find_refs]. apply in_flat_map. exists x. split; [exact Hx|exact IH].
  - cbn [find_refs]. apply in_flat_map. exists (k, v). split; [exact Hkv|].
    cbn [fst snd]. rewrite find_refs_entry; [exact IH|].
    intros s' ->. exact (subnode_dict_str _ _ Hsub).
Qed.

(** X7: the names [find_schema_refs] and [find_param_refs] collect are
    exactly those of the ["$ref"] entries, of the dicts anywhere in the
    tree, whose string starts with the pointer of the category: each such
    string with every occurrence of the pointer taken out. *)
Theorem find_refs_exactly (t : yaml) (n : string) :
  (In n (find_schema_refs t) <->
   exists d s, subnode (YDict d) t /\ In ("$ref", YStr s) d
               /\ Str.startswith s "#/components/schemas/" = true
               /\ n = Str.replace "#/components/schemas/" "" s)
  /\ (In n (find_param_refs t) <->
      exists d s, subnode (YDict d) t /\ In ("$ref", YStr s) d
                  /\ Str.startswith s "#/components/parameters/" = true
                  /\ n = Str.replace "#/components/parameters/" "" s).
Proof.
  split; (split; [apply find_refs_sound|]);
    intros (d & s & Hsub & Hd & Hs & ->);
    apply (find_refs_complete _ t d s Hsub Hd Hs).
Qed.

Lemma pointer_name (c : ascii) (o name : string) :
  Str.contains (String c o) name = false ->
  Str.startswith (String c o ++ name) (String c o) = true
  /\ Str.replace (String c o) "" (String c o ++ name) = name.
Proof.
  intros H. split.
  - unfold Str.startswith. apply StrFacts.prefix_app.
  - rewrite StrFacts.replace_hit. cbn [append].
    apply StrFacts.replace_absent, H.
Qed.

(** X8: a pointer to a schema or a parameter, in a ["$ref"] anywhere in
    the tree, gives back the name it was made of, when the name does not
    contain the pointer prefix itself. *)
Theorem pointer_gives_name (t : yaml) (d : dict) (name : string) :
  subnode (YDict d) t ->
  (In ("$ref", YStr ("#/components/schemas/" ++ name)) d ->
   Str.contains "#/components/schemas/" name = false ->
   In name (find_schema_refs t))
  /\ (In ("$ref", YStr ("#/components/parameters/" ++ name)) d ->
      Str.contains "#/components/parameters/" name = false ->
      In name (find_param_refs t)).
Proof.
  intros Hsub. split; intros Hd Hn.
  - destruct (pointer_name "#" "/components/schemas/" name Hn) as [Hs Hr].
    pose proof (find_refs_complete _ t d _ Hsub Hd Hs) as H.
    rewrite Hr in H. exact H.
  - destruct (pointer_name "#" "/components/parameters/" name Hn) as [Hs Hr].
    pose proof (find_refs_complete _ t d _ Hsub Hd Hs) as H.
    rewrite Hr in H. exact H.
Qed.

(** ** What the enum repair leaves *)

Lemma fix_null_enums_clean_all (t : yaml) :
  forall d, subnode (YDict d) (fix_null_enums t) -> null_enum d = None.
Proof.
  induction t as [t IH] using depth_ind. intros d H.
  destruct t as [| | | | |l|d0]; try (inversion H; fail).
  - rewrite fix_null_enums_list in H. inversion H as [|x l' Hx Hsub|]; subst.
    apply in_map_iff in Hx as (x0 & <- & Hx0).
    apply (IH x0 (depth_item _ _ Hx0) d Hsub).
  - rewrite fix_null_enums_dict in H.
    inversion H as [Heq| |k v d' Hkv Hsub]; subst.
    + apply null_enum_repaired.
    + apply in_map_iff in Hkv as (kv0 & [= <- <-] & Hkv0).
      apply (IH (snd kv0) (repair_enum_depth _ _ Hkv0) d Hsub).
Qed.

(** X9: after [fix_null_enums] no dict anywhere in the tree has a null
    in the list of its ["enum"] entry. *)
Theorem fix_null_enums_clean (t : yaml) (d : dict) :
  subnode (YDict d) (fix_null_enums t) -> null_enum d = None.
Proof. apply fix_null_enums_clean_all. Qed.

Lemma fix_null_enums_fixed (t : yaml) :
  (forall d, subnode (YDict d) t -> null_enum d = None) ->
  fix_null_enums t = t.
Proof.
  induction t as [| | | | |l IH|d IH] using yaml_ind; try reflexivity; intros H.
  - rewrite fix_null_enums_list. apply (f_equal YList).
    rewrite <- (map_id l) at 2. apply map_ext_in. intros x Hx.
    rewrite Forall_forall in IH. apply (IH x Hx). intros d Hd.
    apply H, (sub_item _ x l Hx Hd).
  - rewrite fix_null_enums_plain_dict by (apply H, sub_here).
    apply (f_equal YDict). rewrite <- (map_id d) at 2.
    apply map_ext_in. intros [k v] Hkv. cbn [fst snd]. f_equal.
    rewrite Forall_forall in IH. apply (IH _ Hkv). intros d' Hd.
    apply H, (sub_entry _ k v d Hkv Hd).
Qed.

(** X10: [fix_null_enums] changes a tree exactly when some dict of it
    has a null in the list of its ["enum"] entry. *)
Theorem fix_null_enums_changes (t : yaml) :
  fix_null_enums t = t
  <-> forall d, subnode (YDict d) t -> null_enum d = None.
Proof.
  split; [|apply fix_null_enums_fixed].
  intros H d Hd. rewrite <- H in Hd.
  apply (fix_null_enums_clean_all t d Hd).
Qed.

Lemma keys_dict_set_has (k : string) (x : yaml) (d : dict) :
  dict_has k d = true -> keys (dict_set k x d) = keys d.
Proof.
  unfold dict_has. induction d as [|[k' v] r IH]; [discriminate|].
  cbn [dict_get dict_set]. destruct (String.eqb k k') eqn:E.
  - intros _. apply String.eqb_eq in E. subst k'. reflexivity.
  - intros H. cbn [keys map fst]. f_equal. apply IH, H.
Qed.

Lemma keys_map_values (f : string -> yaml -> yaml) (d : dict) :
  keys (map (fun kv => (fst kv, f (fst kv) (snd kv))) d) = keys d.
Proof. unfold keys. rewrite map_map. reflexivity. Qed.

(** X11: a dict with a null in its enum list that has a ["nullable"]
    entry keeps that entry through the repair, whatever its value: the
    nulls leave the enum list, no entry is added, and the value of
    ["nullable"] is not set to [true] but is what the walk of the
    repair makes of it; so a scalar (an explicit [false], a null, a
    string) stays as it is, and a list or dict is repaired in turn. *)
Theorem nullable_kept (n : dict) (l : list yaml) (v : yaml) :
  dict_get "enum" n = Some (YList l) ->
  existsb is_null l = true ->
  dict_get "nullable" n = Some v ->
  exists n',
    fix_null_enums (YDict n) = YDict n'
    /\ dict_get "enum" n'
       = Some (YList (map fix_null_enums
                          (filter (fun v => negb (is_null v)) l)))
    /\ dict_get "nullable" n' = Some (fix_null_enums v)
    /\ (depth v = 0 -> dict_get "nullable" n' = Some v)
    /\ keys n' = keys n.
Proof.
  intros He Hl Hn. eexists. split; [apply fix_null_enums_dict|].
  assert (Hr : repair_enum n
               = dict_set "enum" (YList (filter (fun v => negb (is_null v)) l)) n).
  { unfold repair_enum, null_enum. rewrite He, Hl.
    unfold dict_has. rewrite dict_get_set_other by discriminate.
    rewrite Hn. reflexivity. }
  rewrite Hr.
  assert (Hv : dict_get "nullable"
                 (map (fun kv => (fst kv, fix_null_enums (snd kv)))
                    (dict_set "enum"
                       (YList (filter (fun v => negb (is_null v)) l)) n))
               = Some (fix_null_enums v)).
  { rewrite (dict_get_map (fun _ => fix_null_enums)).
    rewrite dict_get_set_other by discriminate. rewrite Hn. reflexivity. }
  split; [|split; [exact Hv|split]].
  - rewrite (dict_get_map (fun _ => fix_null_enums)), dict_get_set_same.
    cbn [option_map]. rewrite fix_null_enums_list. reflexivity.
  - intros Hd. rewrite Hv, (fix_null_enums_scalar v Hd). reflexivity.
  - rewrite (keys_map_values (fun _ => fix_null_enums)).
    apply keys_dict_set_has. unfold dict_has. rewrite He. reflexivity.
Qed.

(** ** What the targeted repairs leave *)

Lemma at_key_ok_inv (k : string) (f : yaml -> result yaml) (s s' : yaml) :
  at_key k f s = Ok s' ->
  exists d, s = YDict d
            /\ ((dict_get k d = None /\ s' = s)
                \/ exists v v', dict_get k d = Some v /\ f v = Ok v'
                                /\ s' = YDict (dict_set k v' d)).
Proof.
  destruct s as [| | | | | |d]; try discriminate. rewrite at_key_dict.
  intros H. exists d. split; [reflexivity|].
  destruct (dict_get k d) as [v|]; [right|left; split; congruence].
  apply bind_ok_inv in H as (v' & Hf & [= <-]). exists v, v'. auto.
Qed.

Lemma filterM_filter (A : Type) (f : A -> result bool) (l : list A) :
  forall kept,
    filterM f l = Ok kept ->
    kept = filter (fun a => match f a with Ok b => b | Raise _ => false end) l
    /\ Forall (fun a => exists b, f a = Ok b) l.
Proof.
  induction l as [|a r IH]; intros kept H.
  - injection H as <-. split; [reflexivity|constructor].
  - cbn [filterM] in H. apply bind_ok_inv in H as (b & Hb & H).
    apply bind_ok_inv in H as (k & Hk & [= <-]).
    destruct (IH k Hk) as [-> Hall]. split.
    + cbn [filter]. rewrite Hb. reflexivity.
    + constructor; [exists b; exact Hb|exact Hall].
Qed.

Lemma scim_test_named (t : yaml) (b : bool) :
  (name <- py_get t "name" YNull ;; Ok (negb (is_str "scim" name))) = Ok b ->
  b = negb (named_scim t).
Proof.
  destruct t as [| | | | | |td]; try discriminate.
  unfold named_scim. cbn [py_get node_at child]. rewrite bind_ok.
  intros [= <-]. destruct (dict_get "name" td); reflexivity.
Qed.

Lemma scim_tag_value_ok (tags : list yaml) (v' : yaml) :
  scim_tag_value (YList tags) = Ok v' ->
  v' = YList (filter (fun t => negb (named_scim t)) tags).
Proof.
  unfold scim_tag_value. cbn [py_iter]. rewrite bind_ok. intros H.
  apply bind_ok_inv in H as (kept & Hk & [= <-]).
  apply filterM_filter in Hk as [-> Hall]. apply (f_equal YList).
  apply filter_ext_in. intros t Ht. rewrite Forall_forall in Hall.
  destruct (Hall t Ht) as [b Hb]. rewrite Hb. apply scim_test_named, Hb.
Qed.

Lemma dict_get_filter_out (keep : string -> bool) (k : string) (d : dict) :
  keep k = false -> dict_get k (filter (fun kv => keep (fst kv)) d) = None.
Proof.
  intros Hk. induction d as [|[k' v'] d IH]; [reflexivity|].
  cbn [filter fst]. destruct (keep k') eqn:E; [|exact IH].
  cbn [dict_get]. destruct (String.eqb_spec k k') as [->|_]; [congruence|exact IH].
Qed.

Lemma get_not_scim (k : string) (tp : dict) :
  dict_get k (filter not_scim tp)
  = if Str.startswith k "/scim/" then None else dict_get k tp.
Proof.
  destruct (Str.startswith k "/scim/") eqn:E.
  - apply (dict_get_filter_out (fun k => negb (Str.startswith k "/scim/"))).
    rewrite E. reflexivity.
  - apply (dict_get_filter (fun k => negb (Str.startswith k "/scim/"))).
    rewrite E. reflexivity.
Qed.

Lemma fix_scim_ok_inv (s s' : yaml) :
  fix_scim s = Ok s' ->
  exists d d1 d',
    s = YDict d /\ s' = YDict d'
    /\ (forall k, k <> "paths" -> dict_get k d1 = dict_get k d)
    /\ (forall k, k <> "tags" -> dict_get k d' = dict_get k d1)
    /\ match dict_get "paths" d with
       | Some paths => exists tp, paths = YDict tp
                                  /\ dict_get "paths" d1
                                     = Some (YDict (filter not_scim tp))
       | None => dict_get "paths" d1 = None
       end
    /\ match dict_get "tags" d with
       | Some tags => exists kept, scim_tag_value tags = Ok (YList kept)
                                   /\ dict_get "tags" d' = Some (YList kept)
       | None => dict_get "tags" d' = None
       end.
Proof.
  intros H.
  assert (Hd : exists d, s = YDict d).
  { destruct s; try discriminate. eexists. reflexivity. }
  destruct Hd as [d ->]. rewrite fix_scim_at in H. unfold scim_at in H.
  apply bind_ok_inv in H as (s1 & H1 & H2).
  apply at_key_ok_inv in H1 as (d0 & [= <-] & H1).
  assert (Hs1 : exists d1, s1 = YDict d1
            /\ (forall k, k <> "paths" -> dict_get k d1 = dict_get k d)
            /\ match dict_get "paths" d with
               | Some paths => exists tp, paths = YDict tp
                                 /\ dict_get "paths" d1
                                    = Some (YDict (filter not_scim tp))
               | None => dict_get "paths" d1 = None
               end).
  { destruct H1 as [[Hn ->]|(v & v' & Hv & Hf & ->)].
    - exists d. rewrite Hn. auto.
    - eexists. split; [reflexivity|]. split.
      + intros k Hk. apply dict_get_set_other, Hk.
      + rewrite Hv. destruct v as [| | | | | |tp]; try discriminate.
        injection Hf as <-. exists tp. split; [reflexivity|].
        apply dict_get_set_same. }
  destruct Hs1 as (d1 & -> & Hframe1 & Hpaths).
  apply at_key_ok_inv in H2 as (d0 & [= <-] & H2).
  assert (Ht : dict_get "tags" d1 = dict_get "tags" d)
    by (apply Hframe1; discriminate).
  destruct H2 as [[Hn ->]|(v & v' & Hv & Hf & ->)].
  - exists d, d1, d1. repeat split; auto. rewrite <- Ht, Hn. reflexivity.
  - exists d, d1, (dict_set "tags" v' d1). repeat split; auto.
    + intros k Hk. apply dict_get_set_other, Hk.
    + rewrite <- Ht, Hv.
      assert (Hk : exists kept, v' = YList kept).
      { unfold scim_tag_value in Hf.
        apply bind_ok_inv in Hf as (elems & _ & Hf).
        apply bind_ok_inv in Hf as (kept & _ & [= <-]). eexists. reflexivity. }
      destruct Hk as [kept ->]. exists kept. split; [exact Hf|].
      apply dict_get_set_same.
Qed.

(** X12: when [fix_scim] (Fixes 3 and 4) returns, the paths of the
    result are those of the document whose key does not start with
    ["/scim/"], the tags those not named ["scim"], both in their order,
    and every other top-level entry is as it was. *)
Theorem fix_scim_removes (s s' : yaml) :
  fix_scim s = Ok s' ->
  (forall tp, node_at [Key "paths"] s = Some (YDict tp) ->
              node_at [Key "paths"] s' = Some (YDict (filter not_scim tp)))
  /\ (forall tags, node_at [Key "tags"] s = Some (YList tags) ->
                   node_at [Key "tags"] s'
                   = Some (YList (filter (fun t => negb (named_scim t)) tags)))
  /\ (forall k, k <> "paths" -> k <> "tags" ->
                node_at [Key k] s' = node_at [Key k] s).
Proof.
  intros H.
  destruct (fix_scim_ok_inv s s' H)
    as (d & d1 & d' & -> & -> & Hf1 & Hf2 & Hp & Ht).
  cbn [node_at child]. repeat split.
  - intros tp Htp. destruct (dict_get "paths" d) as [v|] eqn:E; [|discriminate].
    injection Htp as ->. destruct Hp as (tp' & [= <-] & Hp).
    rewrite Hf2, Hp by discriminate. reflexivity.
  - intros tags Htags.
    destruct (dict_get "tags" d) as [v|] eqn:E; [|discriminate].
    injection Htags as ->. destruct Ht as (kept & Hk & ->).
    apply scim_tag_value_ok in Hk. rewrite Hk. reflexivity.
  - intros k Hk1 Hk2. rewrite Hf2, Hf1 by assumption. reflexivity.
Qed.

(** X13: whatever the document, a result of [fix_scim] has no path
    whose key starts with ["/scim/"] and no tag named ["scim"]; the
    paths it has are those the document had. *)
Theorem fix_scim_none_left (s s' : yaml) :
  fix_scim s = Ok s' ->
  (forall k v, node_at [Key "paths"; Key k] s' = Some v ->
               Str.startswith k "/scim/" = false
               /\ node_at [Key "paths"; Key k] s = Some v)
  /\ (forall i t, node_at [Key "tags"; Idx i] s' = Some t ->
                  node_at [Key "name"] t <> Some (YStr "scim")).
Proof.
  intros H.
  destruct (fix_scim_ok_inv s s' H)
    as (d & d1 & d' & -> & -> & Hf1 & Hf2 & Hp & Ht).
  cbn [node_at child]. split.
  - intros k v. rewrite Hf2 by discriminate.
    destruct (dict_get "paths" d) as [paths|];
      [|rewrite Hp; discriminate].
    destruct Hp as (tp & -> & ->).
    rewrite get_not_scim.
    destruct (Str.startswith k "/scim/"); [discriminate|].
    destruct (dict_get k tp); [auto|discriminate].
  - intros i t.
    destruct (dict_get "tags" d) as [tags|]; [|rewrite Ht; discriminate].
    destruct Ht as (kept & Hk & ->).
    destruct (nth_error kept i) as [t'|] eqn:E; [|discriminate].
    intros [= ->]. apply nth_error_In in E.
    unfold scim_tag_value in Hk.
    apply bind_ok_inv in Hk as (elems & _ & Hk).
    apply bind_ok_inv in Hk as (kept' & Hk & [= <-]).
    apply filterM_filter in Hk as [-> Hall].
    apply filter_In in E as [Hin Hb]. rewrite Forall_forall in Hall.
    destruct (Hall t Hin) as [b Hb']. rewrite Hb' in Hb. subst b.
    apply scim_test_named in Hb'. unfold named_scim in Hb'.
    cbn [node_at child] in Hb'. intros Hname. rewrite Hname in Hb'.
    discriminate.
Qed.

(** ** A repair applied twice *)

Lemma at_key_idem (k : string) (f : yaml -> result yaml) (s s' : yaml) :
  (forall v v', f v = Ok v' -> f v' = Ok v') ->
  at_key k f s = Ok s' -> at_key k f s' = Ok s'.
Proof.
  intros Hf H. pose proof H as H0.
  apply at_key_ok_inv in H as (d & -> & [[Hn ->]|(v & v' & Hv & Hv' & ->)]).
  - exact H0.
  - rewrite at_key_dict, dict_get_set_same, (Hf _ _ Hv'), bind_ok, dict_set_set.
    reflexivity.
Qed.

Lemma fixed_after (X Y : yaml -> result yaml) (s1 s2 : yaml) :
  X s1 = Ok s1 -> Y s1 = Ok s2 -> commute_at X Y s1 -> X s2 = Ok s2.
Proof.
  unfold commute_at. intros HX HY. rewrite HX, bind_ok, HY, bind_ok.
  unfold same_outcome. destruct (X s2); [congruence|contradiction].
Qed.

Lemma server_value_idem (v v' : yaml) :
  server_value v = Ok v' -> server_value v' = Ok v'.
Proof.
  unfold server_value.
  destruct v as [| | | | s|l|d]; try discriminate.
  - destruct s as [|c r]; [intros [= <-]; reflexivity|discriminate].
  - destruct l as [|x r]; [intros [= <-]; reflexivity|].
    destruct x as [| | | | | |sd]; try discriminate.
    cbn [py_len List.length Nat.ltb Nat.leb py_index0 py_setitem set_first].
    rewrite !bind_ok. cbn [py_setitem]. rewrite !bind_ok. intros [= <-].
    cbn [py_len List.length Nat.ltb Nat.leb py_index0 py_setitem set_first].
    rewrite !bind_ok. cbn [py_setitem]. rewrite !bind_ok.
    rewrite (dict_set_same "url" (YStr "https://{subdomain}.getgrist.com/api")).
    + cbn [py_setitem]. rewrite bind_ok, dict_set_set. reflexivity.
    + rewrite dict_get_set_other by discriminate. apply dict_get_set_same.
  - destruct d as [|kv r]; [intros [= <-]; reflexivity|discriminate].
Qed.

Lemma setitem_idem (field : string) (x pv pv' : yaml) :
  py_setitem pv field x = Ok pv' -> py_setitem pv' field x = Ok pv'.
Proof.
  destruct pv; try discriminate. intros [= <-]. cbn [py_setitem].
  rewrite dict_set_set. reflexivity.
Qed.

Lemma endpoint_value_other (field : string) (x e : yaml) :
  (forall ed, e <> YDict ed) ->
  endpoint_value field x e = Ok e
  \/ exists err, endpoint_value field x e = Raise err.
Proof.
  intros H. unfold endpoint_value.
  destruct e as [| | | | s|l|ed]; try (right; eexists; reflexivity).
  - cbn [py_in]. rewrite bind_ok. destruct (Str.contains "post" s);
      [right; eexists; reflexivity|left; reflexivity].
  - cbn [py_in]. rewrite bind_ok. destruct (existsb (is_str "post") l);
      [right; eexists; reflexivity|left; reflexivity].
  - destruct (H ed eq_refl).
Qed.

Lemma endpoint_value_idem (field : string) (x e e' : yaml) :
  endpoint_value field x e = Ok e' -> endpoint_value field x e' = Ok e'.
Proof.
  intros H. destruct (yaml_dict_dec e) as [[ed ->]|He].
  - rewrite endpoint_value_dict in H.
    pose proof (at_key_idem _ _ _ _ (setitem_idem field x) H) as H2.
    apply at_key_ok_inv in H as (d & _ & [[_ ->]|(v & v' & _ & _ & ->)]);
      rewrite endpoint_value_dict; exact H2.
  - destruct (endpoint_value_other field x e He) as [H2|[err H2]];
      rewrite H2 in H; [|discriminate]. injection H as <-. exact H2.
Qed.

Lemma post_field_value_idem (path field : string) (x v v' : yaml) :
  post_field_value path field x v = Ok v' ->
  post_field_value path field x v' = Ok v'.
Proof.
  intros H. destruct (yaml_dict_dec v) as [[tp ->]|Hv].
  - rewrite post_field_value_dict in H.
    pose proof (at_key_idem _ _ _ _ (endpoint_value_idem field x) H) as H2.
    apply at_key_ok_inv in H as (d & _ & [[_ ->]|(w & w' & _ & _ & ->)]);
      rewrite post_field_value_dict; exact H2.
  - destruct (post_field_value_other path field x v Hv) as [H2|[err H2]];
      rewrite H2 in H; [|discriminate]. injection H as <-. exact H2.
Qed.

Lemma filter_twice (A : Type) (f : A -> bool) (l : list A) :
  filter f (filter f l) = filter f l.
Proof.
  induction l as [|a r IH]; [reflexivity|]. cbn [filter].
  destruct (f a) eqn:E; [|exact IH]. cbn [filter]. rewrite E, IH. reflexivity.
Qed.

Lemma scim_paths_value_idem (v v' : yaml) :
  scim_paths_value v = Ok v' -> scim_paths_value v' = Ok v'.
Proof.
  destruct v; try discriminate. intros [= <-]. cbn [scim_paths_value].
  rewrite filter_twice. reflexivity.
Qed.

Lemma filterM_kept (A : Type) (f : A -> result bool) (l kept : list A) :
  filterM f l = Ok kept -> filterM f kept = Ok kept.
Proof.
  revert kept. induction l as [|a r IH]; intros kept H.
  - injection H as <-. reflexivity.
  - cbn [filterM] in H. apply bind_ok_inv in H as (b & Hb & H).
    apply bind_ok_inv in H as (k & Hk & [= <-]).
    destruct b; [|apply IH, Hk].
    cbn [filterM]. rewrite Hb, bind_ok, (IH k Hk). reflexivity.
Qed.

Lemma scim_tag_value_idem (v v' : yaml) :
  scim_tag_value v = Ok v' -> scim_tag_value v' = Ok v'.
Proof.
  unfold scim_tag_value. intros H.
  apply bind_ok_inv in H as (elems & _ & H).
  apply bind_ok_inv in H as (kept & Hk & [= <-]).
  cbn [py_iter]. rewrite bind_ok, (filterM_kept _ _ _ _ Hk). reflexivity.
Qed.

Lemma scim_at_idem (s s' : yaml) : scim_at s = Ok s' -> scim_at s' = Ok s'.
Proof.
  unfold scim_at. intros H. apply bind_ok_inv in H as (s1 & H1 & H2).
  pose proof (at_key_idem _ _ _ _ scim_paths_value_idem H1) as F1.
  pose proof (at_key_idem _ _ _ _ scim_tag_value_idem H2) as F2.
  rewrite (fixed_after _ _ s1 s' F1 H2), bind_ok; [exact F2|].
  apply at_key_comm_diff. discriminate.
Qed.

Lemma ok_is_dict (X : yaml -> result yaml) (s s' : yaml) :
  In X targeted_repairs -> X s = Ok s' ->
  s' = s \/ exists d d', s = YDict d /\ s' = YDict d'.
Proof.
  intros HX H.
  destruct s as [| | | | str|l|d];
    try (destruct HX as [<-|[<-|[<-|[<-|[]]]]]; discriminate).
  - left. destruct HX as [<-|[<-|[<-|[<-|[]]]]]; try discriminate.
    unfold fix_server in H. cbn [py_in] in H. rewrite bind_ok in H.
    destruct (Str.contains "servers" str); [discriminate|congruence].
  - left. destruct HX as [<-|[<-|[<-|[<-|[]]]]]; try discriminate.
    unfold fix_server in H. cbn [py_in] in H. rewrite bind_ok in H.
    destruct (existsb (is_str "servers") l); [discriminate|congruence].
  - right. exists d.
    assert (Hk : exists k f, X (YDict d) = at_key k f (YDict d)
                             \/ X (YDict d) = scim_at (YDict d)).
    { destruct HX as [<-|[<-|[<-|[<-|[]]]]].
      - eexists _, _. left. apply fix_server_at.
      - eexists _, _. left. apply fix_responses_at.
      - exists "", Ok. right. apply fix_scim_at.
      - eexists _, _. left. apply fix_operation_id_at. }
    destruct Hk as (k & f & [Hk|Hk]); rewrite Hk in H.
    + apply at_key_ok_inv in H as (d0 & _ & [[_ ->]|(v & v' & _ & _ & ->)]);
        eexists; split; reflexivity.
    + unfold scim_at in H. apply bind_ok_inv in H as (s1 & H1 & H2).
      apply at_key_ok_inv in H2 as (d0 & -> & [[_ ->]|(v & v' & _ & _ & ->)]);
        eexists; split; reflexivity.
Qed.

Lemma targeted_idem (X : yaml -> result yaml) (s s' : yaml) :
  In X targeted_repairs -> X s = Ok s' -> X s' = Ok s'.
Proof.
  intros HX H.
  destruct (ok_is_dict X s s' HX H) as [->|(d & d' & -> & ->)]; [exact H|].
  destruct HX as [<-|[<-|[<-|[<-|[]]]]].
  - rewrite fix_server_at in *. apply (at_key_idem _ _ _ _ server_value_idem H).
  - rewrite fix_responses_at in *.
    apply (at_key_idem _ _ _ _ (post_field_value_idem _ _ _) H).
  - rewrite fix_scim_at in *. apply (scim_at_idem _ _ H).
  - rewrite fix_operation_id_at in *.
    apply (at_key_idem _ _ _ _ (post_field_value_idem _ _ _) H).
Qed.

(** X14: each of the targeted repairs (Fix 1, Fix 2, Fixes 3 and 4,
    Fix 6) applied to its own result returns it unchanged. *)
Theorem targeted_idempotent (X : yaml -> result yaml) (s s' : yaml) :
  In X targeted_repairs -> X s = Ok s' -> X s' = Ok s'.
Proof. apply targeted_idem. Qed.

(** ** The repairs applied twice *)

Lemma at_key_fixed_inv (k : string) (f : yaml -> result yaml) (d : dict) :
  at_key k f (YDict d) = Ok (YDict d) ->
  dict_get k d = None \/ exists v, dict_get k d = Some v /\ f v = Ok v.
Proof.
  intros H. apply at_key_ok_inv in H as (d0 & [= <-] & H).
  destruct H as [[Hn _]|(v & v' & Hv & Hf & [= Hd])]; [left; exact Hn|].
  right. exists v. split; [exact Hv|].
  assert (E : dict_get k d = Some v')
    by (rewrite Hd at 1; apply dict_get_set_same).
  congruence.
Qed.

Lemma at_key_fixed (k : string) (f : yaml -> result yaml) (d : dict) :
  dict_get k d = None \/ (exists v, dict_get k d = Some v /\ f v = Ok v) ->
  at_key k f (YDict d) = Ok (YDict d).
Proof.
  rewrite at_key_dict. intros [->|(v & Hv & Hf)]; [reflexivity|].
  rewrite Hv, Hf, bind_ok, (dict_set_same _ _ _ Hv). reflexivity.
Qed.

Lemma get_fix_null_enums (k : string) (d : dict) :
  k <> "enum" -> k <> "nullable" ->
  dict_get k (map (fun kv => (fst kv, fix_null_enums (snd kv))) (repair_enum d))
  = option_map fix_null_enums (dict_get k d).
Proof.
  intros H1 H2.
  rewrite (dict_get_map (fun _ => fix_null_enums)), repair_enum_get_other
    by assumption.
  reflexivity.
Qed.

(** A value the update leaves as it is, is left so after the enum
    repair too. *)
Lemma at_key_fixed_enum (k : string) (f : yaml -> result yaml) (d : dict) :
  k <> "enum" -> k <> "nullable" ->
  (forall v, f v = Ok v -> f (fix_null_enums v) = Ok (fix_null_enums v)) ->
  at_key k f (YDict d) = Ok (YDict d) ->
  at_key k f (fix_null_enums (YDict d)) = Ok (fix_null_enums (YDict d)).
Proof.
  intros H1 H2 Hf H. apply at_key_fixed_inv in H.
  rewrite fix_null_enums_dict. apply at_key_fixed.
  rewrite get_fix_null_enums by assumption.
  destruct H as [->|(v & -> & Hv)]; [left; reflexivity|right].
  exists (fix_null_enums v). split; [reflexivity|apply Hf, Hv].
Qed.

Lemma setitem_fixed_enum (field : string) (x pv : yaml) :
  field <> "enum" -> field <> "nullable" -> fix_null_enums x = x ->
  py_setitem pv field x = Ok pv ->
  py_setitem (fix_null_enums pv) field x = Ok (fix_null_enums pv).
Proof.
  intros H1 H2 Hx H. destruct pv as [| | | | | |pd]; try discriminate.
  injection H as H.
  assert (E : dict_get field pd = Some x)
    by (rewrite <- H at 1; apply dict_get_set_same).
  rewrite fix_null_enums_dict. cbn [py_setitem].
  rewrite dict_set_same; [reflexivity|].
  rewrite get_fix_null_enums, E by assumption. cbn [option_map].
  rewrite Hx. reflexivity.
Qed.

Lemma endpoint_fixed_enum (field : string) (x e : yaml) :
  field <> "enum" -> field <> "nullable" -> fix_null_enums x = x ->
  endpoint_value field x e = Ok e ->
  endpoint_value field x (fix_null_enums e) = Ok (fix_null_enums e).
Proof.
  intros H1 H2 Hx H. destruct (yaml_dict_dec e) as [[ed ->]|He].
  - rewrite endpoint_value_dict in H.
    pose proof (at_key_fixed_enum "post" _ ed ltac:(discriminate)
                  ltac:(discriminate)
                  (fun pv => setitem_fixed_enum field x pv H1 H2 Hx) H) as H3.
    rewrite fix_null_enums_dict in *. rewrite endpoint_value_dict. exact H3.
  - unfold endpoint_value in *. rewrite py_in_fix_null_enums by exact He.
    destruct (py_in "post" e) as [[|]|err]; try discriminate.
    + rewrite bind_ok in H. unfold setitem_in in H.
      rewrite not_dict_getitem in H by exact He. discriminate.
    + reflexivity.
Qed.

Lemma post_field_fixed_enum (path field : string) (x v : yaml) :
  path <> "enum" -> path <> "nullable" ->
  field <> "enum" -> field <> "nullable" -> fix_null_enums x = x ->
  post_field_value path field x v = Ok v ->
  post_field_value path field x (fix_null_enums v) = Ok (fix_null_enums v).
Proof.
  intros P1 P2 H1 H2 Hx H. destruct (yaml_dict_dec v) as [[tp ->]|Hv].
  - rewrite post_field_value_dict in H.
    pose proof (at_key_fixed_enum path _ tp P1 P2
                  (fun e => endpoint_fixed_enum field x e H1 H2 Hx) H) as H3.
    rewrite fix_null_enums_dict in *. rewrite post_field_value_dict. exact H3.
  - unfold post_field_value in *. rewrite py_in_fix_null_enums by exact Hv.
    destruct (py_in path v) as [[|]|err]; try discriminate.
    + rewrite bind_ok in H. rewrite not_dict_getitem in H by exact Hv.
      discriminate.
    + reflexivity.
Qed.

Lemma server_fixed_enum (v : yaml) :
  server_value v = Ok v ->
  server_value (fix_null_enums v) = Ok (fix_null_enums v).
Proof.
  unfold server_value.
  destruct v as [| | | | s|l|d]; try discriminate.
  - auto.
  - destruct l as [|x r]; [auto|].
    destruct x as [| | | | | |sd]; try discriminate.
    cbn [py_len List.length Nat.ltb Nat.leb py_index0 py_setitem set_first].
    rewrite !bind_ok. cbn [py_setitem]. rewrite !bind_ok. intros [= H].
    assert (Eu : dict_get "url" sd
                 = Some (YStr "https://{subdomain}.getgrist.com/api")).
    { rewrite <- H at 1. rewrite dict_get_set_other by discriminate.
      apply dict_get_set_same. }
    assert (Ed : dict_get "description" sd = Some (YStr "Grist API server"))
      by (rewrite <- H at 1; apply dict_get_set_same).
    rewrite fix_null_enums_list. cbn [map]. rewrite fix_null_enums_dict.
    cbn [py_len List.length Nat.ltb Nat.leb py_index0 py_setitem set_first].
    rewrite !bind_ok. cbn [py_setitem]. rewrite !bind_ok.
    rewrite (dict_set_same "url");
      [|rewrite get_fix_null_enums, Eu by discriminate; reflexivity].
    cbn [py_setitem]. rewrite bind_ok.
    rewrite (dict_set_same "description");
      [|rewrite get_fix_null_enums, Ed by discriminate; reflexivity].
    reflexivity.
  - destruct d as [|kv r]; [auto|discriminate].
Qed.

Lemma node_at_subnode (p : list step) :
  forall t n, node_at p t = Some n -> subnode n t.
Proof.
  induction p as [|s r IH]; intros t n H.
  - injection H as <-. apply sub_here.
  - cbn [node_at] in H. destruct (child s t) as [c|] eqn:E; [|discriminate].
    specialize (IH c n H). destruct s as [k|i], t as [| | | | |l|d];
      try discriminate; cbn [child] in E.
    + apply dict_get_in in E as [k' E]. apply (sub_entry _ k' c d E IH).
    + apply nth_error_In in E. apply (sub_item _ c l E IH).
Qed.

Lemma clean_appends_apart (t : yaml) : appends_apart (fix_null_enums t).
Proof.
  unfold appends_apart. split; [|split]; intros d H;
    apply node_at_subnode in H; unfold one_adds, adds_nullable;
    rewrite (fix_null_enums_clean_all t d H); reflexivity.
Qed.

Lemma set_post_field_dict (path field : string) (x s s' : yaml) :
  set_post_field path field x s = Ok s' -> exists d, s = YDict d.
Proof. destruct s; try discriminate. eauto. Qed.

Lemma repair_fixed_enum (d : dict) (X : yaml -> result yaml) :
  In X [fix_server; fix_responses; fix_scim] ->
  X (YDict d) = Ok (YDict d) ->
  X (fix_null_enums (YDict d)) = Ok (fix_null_enums (YDict d)).
Proof.
  intros HX H. pose proof (fix_null_enums_dict d) as Hd.
  destruct HX as [<-|[<-|[<-|[]]]].
  - rewrite fix_server_at in H. rewrite Hd, fix_server_at, <- Hd.
    apply at_key_fixed_enum; try discriminate; [apply server_fixed_enum|exact H].
  - rewrite fix_responses_at in H. rewrite Hd, fix_responses_at, <- Hd.
    apply at_key_fixed_enum; try discriminate; [|exact H].
    intros v. apply post_field_fixed_enum; try discriminate. reflexivity.
  - rewrite fix_scim_at in H. rewrite Hd, fix_scim_at, <- Hd.
    apply (fixed_after scim_at fix_enum (YDict d) _ H eq_refl).
    apply scim_at_enum_commute.
Qed.

Lemma ok_dict (X : yaml -> result yaml) (d : dict) (s' : yaml) :
  In X targeted_repairs -> X (YDict d) = Ok s' -> exists d', s' = YDict d'.
Proof.
  intros HX H.
  destruct (ok_is_dict X _ _ HX H) as [->|(d0 & d' & _ & ->)]; eauto.
Qed.

(** X15: the repairs of Fix 1 to Fix 6, in the order of the script,
    applied to their own result return it unchanged. *)
Theorem repairs_idempotent (schema repaired : yaml) :
  repairs schema = Ok repaired -> repairs repaired = Ok repaired.
Proof.
  unfold repairs. intros H.
  apply bind_ok_inv in H as (s1 & H1 & H).
  apply bind_ok_inv in H as (s2 & H2 & H).
  apply bind_ok_inv in H as (s3 & H3 & H).
  rewrite bind_ok in H.
  assert (T1 : In fix_server targeted_repairs) by (cbn; tauto).
  assert (T2 : In fix_responses targeted_repairs) by (cbn; tauto).
  assert (T3 : In fix_scim targeted_repairs) by (cbn; tauto).
  assert (T6 : In fix_operation_id targeted_repairs) by (cbn; tauto).
  destruct (set_post_field_dict _ _ _ _ _ H2) as [d1 ->].
  destruct (ok_dict _ _ _ T2 H2) as [d2 ->].
  destruct (ok_dict _ _ _ T3 H3) as [d3 ->].
  pose proof (targeted_idem _ _ _ T1 H1) as F1.
  pose proof (targeted_idem _ _ _ T2 H2) as F2.
  pose proof (targeted_idem _ _ _ T3 H3) as F3.
  pose proof (targeted_idem _ _ _ T6 H) as F6.
  pose proof (fixed_after _ _ _ _ F1 H2 (targeted_commute d1 _ _ T1 T2)) as F12.
  pose proof (fixed_after _ _ _ _ F12 H3 (targeted_commute d2 _ _ T1 T3)) as F13.
  pose proof (fixed_after _ _ _ _ F2 H3 (targeted_commute d2 _ _ T2 T3)) as F23.
  pose proof (repair_fixed_enum d3 fix_server ltac:(cbn; tauto) F13) as G1.
  pose proof (repair_fixed_enum d3 fix_responses ltac:(cbn; tauto) F23) as G2.
  pose proof (repair_fixed_enum d3 fix_scim ltac:(cbn; tauto) F3) as G3.
  pose proof (clean_appends_apart (YDict d3)) as P4.
  assert (I4 : fix_enum (fix_null_enums (YDict d3))
               = Ok (fix_null_enums (YDict d3))).
  { unfold fix_enum. rewrite fix_null_enums_idem. reflexivity. }
  revert H G1 G2 G3 P4 I4. rewrite fix_null_enums_dict.
  set (d4 := map _ (repair_enum d3)). intros H G1 G2 G3 P4 I4.
  rewrite (fixed_after _ _ _ _ G1 H (targeted_commute d4 _ _ T1 T6)), bind_ok.
  rewrite (fixed_after _ _ _ _ G2 H (targeted_commute d4 _ _ T2 T6)), bind_ok.
  rewrite (fixed_after _ _ _ _ G3 H (targeted_commute d4 _ _ T3 T6)), !bind_ok.
  pose proof (fixed_after fix_enum fix_operation_id _ _ I4 H
                (commute_at_sym _ _ _ (enum_commute d4 _ P4 T6))) as I6.
  injection I6 as ->. exact F6.
Qed.

(** ** The tags after a merge *)

Lemma names_of_hashable (l : list yaml) :
  forall existing,
    mapM (fun t => name <- py_getitem t "name" ;; py_hashable name) l
    = Ok existing ->
    existing = names_of l.
Proof.
  induction l as [|t l IH]; intros existing H.
  - injection H as <-. reflexivity.
  - apply mapM_ok_inv in H as (n & ns & Hn & Hns & ->).
    unfold names_of. cbn [map]. f_equal; [|apply IH, Hns].
    destruct t as [| | | | | |td]; try discriminate.
    cbn [py_getitem] in Hn. cbn [node_at child].
    destruct (dict_get "name" td) as [x|]; [|discriminate].
    rewrite bind_ok in Hn.
    destruct x; try discriminate; injection Hn as <-; reflexivity.
Qed.

Lemma names_of_named (ts : list yaml) :
  Forall (fun t => exists td s, t = YDict td /\ dict_get "name" td = Some (YStr s))
         ts ->
  mapM (fun t => name <- py_getitem t "name" ;; py_hashable name) ts
  = Ok (names_of ts).
Proof.
  induction 1 as [|t ts (td & s & -> & Hs) _ IH]; [reflexivity|].
  cbn [mapM py_getitem]. rewrite Hs, bind_ok. cbn [py_hashable].
  rewrite bind_ok, IH, bind_ok. unfold names_of. cbn [map node_at child].
  rewrite Hs. reflexivity.
Qed.

Lemma mapM_app (A B : Type) (f : A -> result B) (l1 l2 : list A)
    (r1 r2 : list B) :
  mapM f l1 = Ok r1 -> mapM f l2 = Ok r2 -> mapM f (l1 ++ l2) = Ok (r1 ++ r2).
Proof.
  revert r1. induction l1 as [|a l1 IH]; intros r1 H1 H2.
  - injection H1 as <-. exact H2.
  - apply mapM_ok_inv in H1 as (b & bs & Hb & Hbs & ->).
    cbn [app mapM]. rewrite Hb, bind_ok, (IH bs Hbs H2), bind_ok. reflexivity.
Qed.

Lemma has_name_named (names : list yaml) (td : dict) (s : string) :
  dict_get "name" td = Some (YStr s) ->
  has_name names (YDict td) = existsb (is_str s) names.
Proof. intros H. unfold has_name. cbn [node_at child]. rewrite H. reflexivity. Qed.

Lemma add_tags_some (existing ts : list yaml) :
  Forall (fun t => exists td s, t = YDict td /\ dict_get "name" td = Some (YStr s))
         ts ->
  forall d l,
    dict_get "tags" d = Some (YList l) ->
    foldM (add_tag existing) ts (YDict d)
    = Ok (YDict (dict_set "tags"
                   (YList (l ++ filter (fun t => negb (has_name existing t)) ts))
                   d)).
Proof.
  induction 1 as [|t ts (td & s & -> & Hs) _ IH]; intros d l Hd.
  - cbn [foldM filter]. rewrite app_nil_r, (dict_set_same _ _ _ Hd). reflexivity.
  - cbn [foldM filter]. rewrite (add_tag_named _ _ _ _ Hs).
    rewrite (has_name_named _ _ _ Hs).
    destruct (existsb (is_str s) existing); cbn [negb].
    + rewrite bind_ok. apply IH, Hd.
    + unfold append_tag. rewrite Hd, bind_ok.
      rewrite (IH _ (l ++ [YDict td])) by apply dict_get_set_same.
      rewrite dict_set_set, <- app_assoc. reflexivity.
Qed.

Lemma foldM_cons (A S : Type) (f : S -> A -> result S) (a : A) (l : list A)
    (s : S) :
  foldM f (a :: l) s = (s' <- f s a ;; foldM f l s').
Proof. reflexivity. Qed.

Lemma add_tags_not_list (d : dict) (v : yaml) :
  dict_get "tags" d = Some v -> (forall l, v <> YList l) ->
  foldM (add_tag []) new_tags (YDict d) = Raise AttributeError.
Proof.
  intros Hd Hv. unfold new_tags. rewrite foldM_cons. unfold tag at 1.
  rewrite (add_tag_named [] _ _ "admin") by reflexivity.
  cbn [existsb]. unfold append_tag. rewrite Hd.
  destruct v; try reflexivity. destruct (Hv items eq_refl).
Qed.

Lemma has_name_nil (t : yaml) : has_name [] t = false.
Proof. unfold has_name. destruct (node_at [Key "name"] t) as [[]|]; reflexivity. Qed.

Lemma tags_to_add_nil : tags_to_add [] = new_tags.
Proof. reflexivity. Qed.

(** The tags part of the merge, on a document that went through it. *)
Lemma merge_tags_inv (d : dict) (existing : list yaml) (R : yaml) :
  existing_tags (YDict d) = Ok existing ->
  foldM (add_tag existing) new_tags (YDict d) = Ok R ->
  exists l,
    (dict_get "tags" d = Some (YList l) \/ (dict_get "tags" d = None /\ l = []))
    /\ mapM (fun t => name <- py_getitem t "name" ;; py_hashable name) l
       = Ok (names_of l)
    /\ existing = names_of l
    /\ R = YDict (dict_set "tags" (YList (l ++ tags_to_add (names_of l))) d).
Proof.
  unfold existing_tags. cbn [py_get]. rewrite bind_ok. intros H1 H2.
  destruct (dict_get "tags" d) as [v|] eqn:Et.
  - destruct (py_iter v) as [elems|e] eqn:Ei; [|discriminate].
    rewrite bind_ok in H1.
    assert (Hv : (exists l, v = YList l) \/ (forall l, v <> YList l)).
    { destruct v; try (right; discriminate). left. eauto. }
    destruct Hv as [[l ->]|Hv].
    + injection Ei as <-. pose proof (names_of_hashable _ _ H1) as ->.
      exists l. split; [left; reflexivity|]. split; [exact H1|].
      split; [reflexivity|].
      rewrite (add_tags_some _ _ new_tags_named d l Et) in H2.
      injection H2 as <-. reflexivity.
    + assert (He : existing = []).
      { destruct v as [| | | | s|l|dd]; try discriminate.
        - destruct s; injection Ei as <-; [injection H1 as <-; reflexivity|].
          discriminate.
        - destruct (Hv l eq_refl).
        - destruct dd; injection Ei as <-; [injection H1 as <-; reflexivity|].
          discriminate. }
      subst existing. rewrite (add_tags_not_list d v Et Hv) in H2. discriminate.
  - cbn [py_iter] in H1. rewrite bind_ok in H1. injection H1 as <-.
    exists []. split; [right; auto|]. split; [reflexivity|].
    split; [reflexivity|].
    change (names_of []) with (@nil yaml). rewrite tags_to_add_nil.
    revert H2. pose proof new_tags_named as Hn. unfold new_tags in *.
    inversion Hn as [|t0 rest H0 Hrest]; subst.
    rewrite foldM_cons. unfold tag at 1.
    rewrite (add_tag_named [] _ _ "admin") by reflexivity.
    cbn [existsb]. unfold append_tag. rewrite Et, bind_ok.
    rewrite (add_tags_some [] _ Hrest _ _ (dict_get_set_same _ _ _)).
    rewrite dict_set_set. intros [= <-]. reflexivity.
Qed.

(** ** A merge that returns *)

Lemma insert_staged_not_dict (missing : dict) (T T' : yaml) :
  (forall d, T <> YDict d) ->
  foldM (fun official entry =>
           setitem_in official "paths" (fst entry) (snd entry)) missing T
  = Ok T' ->
  T' = T.
Proof.
  intros HT. destruct missing as [|e r]; [intros [= <-]; reflexivity|].
  rewrite foldM_cons. unfold setitem_in.
  rewrite not_dict_getitem by exact HT. discriminate.
Qed.

Lemma merge_target_dict (T S R : yaml) :
  merge T S = Ok R -> exists od, T = YDict od.
Proof.
  intros H. destruct (yaml_dict_dec T) as [HT|HT]; [exact HT|exfalso].
  unfold merge in H.
  apply bind_ok_inv in H as (official_paths & _ & H).
  apply bind_ok_inv in H as (sp & _ & H).
  apply bind_ok_inv in H as (items & _ & H).
  apply bind_ok_inv in H as (missing & _ & H).
  apply bind_ok_inv in H as (T' & HT' & H).
  apply (insert_staged_not_dict _ _ _ HT) in HT'. subst T'.
  apply bind_ok_inv in H as (existing & He & _).
  unfold existing_tags in He.
  destruct T; try discriminate. destruct (HT entries eq_refl).
Qed.

Lemma merge_ok_inv (od : dict) (S R : yaml) :
  merge (YDict od) S = Ok R ->
  exists sp items missing d1 existing,
    py_getitem S "paths" = Ok sp /\ py_items sp = Ok items
    /\ ((dict_get "paths" od = None
         /\ foldM (stage []) items [] = Ok [] /\ d1 = od)
        \/ exists tp,
             dict_get "paths" od = Some (YDict tp)
             /\ foldM (stage (keys tp)) items [] = Ok missing
             /\ d1 = dict_set "paths"
                       (YDict (fold_left
                                 (fun acc e => dict_set (fst e) (snd e) acc)
                                 missing tp)) od)
    /\ existing_tags (YDict d1) = Ok existing
    /\ foldM (add_tag existing) new_tags (YDict d1) = Ok R.
Proof.
  unfold merge. intros H.
  apply bind_ok_inv in H as (official_paths & Hp & H).
  apply bind_ok_inv in H as (sp & Hsp & H).
  apply bind_ok_inv in H as (items & Hi & H).
  apply bind_ok_inv in H as (missing & Hm & H).
  apply bind_ok_inv in H as (T' & HT' & H).
  apply bind_ok_inv in H as (existing & He & H).
  destruct (dict_get "paths" od) as [v|] eqn:E.
  - assert (Hv : exists tp, v = YDict tp /\ official_paths = keys tp).
    { unfold get_paths_from_schema in Hp. cbn [py_in py_getitem] in Hp.
      unfold dict_has in Hp. rewrite E, !bind_ok in Hp.
      destruct v; try discriminate. injection Hp as <-. eauto. }
    destruct Hv as (tp & -> & ->).
    rewrite (insert_staged missing od tp E) in HT'. injection HT' as <-.
    exists sp, items, missing. eexists. exists existing.
    split; [exact Hsp|]. split; [exact Hi|].
    split; [right; exists tp; split; [reflexivity|split; [exact Hm|reflexivity]]|].
    split; assumption.
  - rewrite (get_paths_absent od E) in Hp. injection Hp as <-.
    destruct missing as [|e r].
    + injection HT' as <-. exists sp, items, [], od, existing.
      repeat split; try assumption. left. auto.
    + rewrite (insert_staged_no_paths (e :: r) od E) in HT' by discriminate.
      discriminate.
Qed.

(** X16: when a merge returns, the tags of the result are those of the
    target, in their order, followed by the curated tags whose name no
    tag of the target has, in the order of the curated list; a target
    without tags gets the ten curated tags. *)
Theorem merge_tags_result (T S R : yaml) :
  merge T S = Ok R ->
  exists l,
    (node_at [Key "tags"] T = Some (YList l)
     \/ (node_at [Key "tags"] T = None /\ l = []))
    /\ node_at [Key "tags"] R
       = Some (YList (l ++ tags_to_add (names_of l))).
Proof.
  intros H. destruct (merge_target_dict _ _ _ H) as [od ->].
  apply merge_ok_inv in H
    as (sp & items & missing & d1 & existing & _ & _ & Hd1 & He & Hr).
  destruct (merge_tags_inv d1 existing R He Hr) as (l & Hl & _ & _ & ->).
  assert (Ht : dict_get "tags" d1 = dict_get "tags" od).
  { destruct Hd1 as [(_ & _ & ->)|(tp & _ & _ & ->)]; [reflexivity|].
    apply dict_get_set_other. discriminate. }
  exists l. cbn [node_at child]. rewrite dict_get_set_same. split; [|reflexivity].
  rewrite <- Ht. destruct Hl as [->|[-> ->]]; auto.
Qed.

(** X17: a merge changes nothing of the target but its ["paths"] and
    ["tags"] entries, and reads nothing of the source but its ["paths"]
    entry. *)
Theorem merge_frame (T : yaml) (cd : dict) (R : yaml) :
  merge T (YDict cd) = Ok R ->
  (forall k, k <> "paths" -> k <> "tags" ->
             node_at [Key k] R = node_at [Key k] T)
  /\ (forall cd', dict_get "paths" cd' = dict_get "paths" cd ->
                  merge T (YDict cd') = Ok R).
Proof.
  intros H. split.
  - destruct (merge_target_dict _ _ _ H) as [od ->].
    apply merge_ok_inv in H
      as (sp & items & missing & d1 & existing & _ & _ & Hd1 & He & Hr).
    destruct (merge_tags_inv d1 existing R He Hr) as (l & _ & _ & _ & ->).
    intros k Hk1 Hk2. cbn [node_at child].
    rewrite dict_get_set_other by exact Hk2.
    destruct Hd1 as [(_ & _ & ->)|(tp & _ & _ & ->)]; [reflexivity|].
    rewrite dict_get_set_other by exact Hk1. reflexivity.
  - intros cd' Hcd. rewrite <- H. unfold merge. cbn [py_getitem].
    rewrite Hcd. reflexivity.
Qed.

Lemma keys_fold_set (missing : dict) :
  forall tp k,
    In k (keys (fold_left (fun acc e => dict_set (fst e) (snd e) acc) missing tp))
    <-> In k (keys tp) \/ In k (keys missing).
Proof.
  induction missing as [|e r IH]; intros tp k; cbn [fold_left keys map In].
  - tauto.
  - rewrite IH, keys_dict_set. fold (keys r). intuition congruence.
Qed.

Lemma filter_none (A : Type) (f : A -> bool) (l : list A) :
  (forall a, In a l -> f a = false) -> filter f l = [].
Proof.
  induction l as [|a r IH]; intros H; [reflexivity|]. cbn [filter].
  rewrite (H a (or_introl eq_refl)). apply IH. intros b Hb. apply H. right. exact Hb.
Qed.

Lemma named_filter (f : yaml -> bool) (ts : list yaml) :
  Forall (fun t => exists td s, t = YDict td /\ dict_get "name" td = Some (YStr s))
         ts ->
  Forall (fun t => exists td s, t = YDict td /\ dict_get "name" td = Some (YStr s))
         (filter f ts).
Proof.
  rewrite !Forall_forall. intros H t Ht. apply filter_In in Ht as [Ht _].
  apply H, Ht.
Qed.

Lemma names_of_app (a b : list yaml) : names_of (a ++ b) = names_of a ++ names_of b.
Proof. apply map_app. Qed.

(** Every curated tag has its name among those of the merged tags. *)
Lemma curated_all_named (l : list yaml) (t : yaml) :
  In t new_tags ->
  has_name (names_of (l ++ tags_to_add (names_of l))) t = true.
Proof.
  intros Ht. pose proof new_tags_named as Hn. rewrite Forall_forall in Hn.
  destruct (Hn t Ht) as (td & s & -> & Hs).
  rewrite (has_name_named _ _ _ Hs), names_of_app, existsb_app.
  destruct (existsb (is_str s) (names_of l)) eqn:E; [reflexivity|].
  cbn [orb]. apply existsb_exists. exists (YStr s). split.
  - unfold names_of at 1. apply in_map_iff. exists (YDict td). split.
    + cbn [node_at child]. rewrite Hs. reflexivity.
    + unfold tags_to_add. apply filter_In. split; [exact Ht|].
      rewrite (has_name_named _ _ _ Hs), E. reflexivity.
  - cbn [is_str]. apply String.eqb_refl.
Qed.

(** The tags part of a merge, once the tags are merged. *)
Lemma merge_tags_again (d : dict) (l : list yaml) :
  mapM (fun t => name <- py_getitem t "name" ;; py_hashable name) l
  = Ok (names_of l) ->
  dict_get "tags" d = Some (YList (l ++ tags_to_add (names_of l))) ->
  (existing <- existing_tags (YDict d) ;;
   foldM (add_tag existing) new_tags (YDict d)) = Ok (YDict d).
Proof.
  intros Hl Hd. unfold existing_tags. cbn [py_get]. rewrite Hd, bind_ok.
  cbn [py_iter]. rewrite bind_ok.
  rewrite (mapM_app _ _ _ _ _ _ _ Hl
             (names_of_named (tags_to_add (names_of l))
                (named_filter _ _ new_tags_named))).
  rewrite bind_ok, <- names_of_app.
  rewrite (add_tags_some _ _ new_tags_named d _ Hd).
  rewrite filter_none.
  - rewrite app_nil_r, (dict_set_same _ _ _ Hd). reflexivity.
  - intros t Ht. rewrite (curated_all_named l t Ht). reflexivity.
Qed.

(** X18: a merge run again on its own result, with the same source,
    returns that result unchanged: no path is staged, no tag added. *)
Theorem merge_again (T S R : yaml) :
  merge T S = Ok R -> merge R S = Ok R.
Proof.
  intros H. destruct (merge_target_dict _ _ _ H) as [od ->].
  apply merge_ok_inv in H
    as (sp & items & missing & d1 & existing & Hsp & Hi & Hd1 & He & Hr).
  destruct (merge_tags_inv d1 existing R He Hr) as (l & _ & Hl & _ & ->).
  set (L := l ++ tags_to_add (names_of l)).
  assert (Ht : dict_get "tags" (dict_set "tags" (YList L) d1) = Some (YList L))
    by apply dict_get_set_same.
  pose proof (merge_tags_again _ l Hl Ht) as Htags.
  unfold merge.
  destruct Hd1 as [(Hn & Hm & ->)|(tp & Hp & Hm & ->)].
  - rewrite get_paths_absent
      by (rewrite dict_get_set_other by discriminate; exact Hn).
    rewrite bind_ok, Hsp, bind_ok, Hi, bind_ok, Hm, bind_ok. cbn [foldM].
    rewrite bind_ok. exact Htags.
  - erewrite get_paths_present
      by (rewrite dict_get_set_other by discriminate; apply dict_get_set_same).
    rewrite bind_ok, Hsp, bind_ok, Hi, bind_ok, stage_all_skip.
    + rewrite bind_ok. cbn [foldM]. rewrite bind_ok. exact Htags.
    + intros k Hk. apply keys_fold_set.
      destruct (in_dec string_dec (normalize_path k) (keys tp)) as [Hin|Hout];
        [left; exact Hin|right].
      apply (stage_all_keys _ _ _ _ Hm). right. split; [|exact Hout].
      apply in_map, Hk.
Qed.

(** ** What the copy of missing definitions adds *)

Lemma copied_appends (sd : dict) (names : list string) :
  forall td,
    exists added,
      copied sd names td = td ++ added
      /\ forall name v, In (name, v) added ->
                        In name names /\ dict_get name td = None
                        /\ dict_get name sd = Some v.
Proof.
  induction names as [|n names IH]; intros td.
  - exists []. split; [symmetry; apply app_nil_r|]. intros name v [].
  - rewrite copied_cons.
    assert (Hkeep : forall added,
              copied sd names td = td ++ added ->
              (forall name v, In (name, v) added ->
                              In name names /\ dict_get name td = None
                              /\ dict_get name sd = Some v) ->
              exists added,
                copied sd names td = td ++ added
                /\ forall name v, In (name, v) added ->
                                  In name (n :: names) /\ dict_get name td = None
                                  /\ dict_get name sd = Some v).
    { intros added H1 H2. exists added. split; [exact H1|].
      intros name v Hin. destruct (H2 name v Hin) as (Ha & Hb & Hc).
      repeat split; [right; exact Ha|exact Hb|exact Hc]. }
    destruct (dict_has n td) eqn:Eh.
    + destruct (IH td) as (added & H1 & H2). apply (Hkeep added H1 H2).
    + destruct (dict_get n sd) as [x|] eqn:Es.
      * assert (Hn : dict_get n td = None)
          by (unfold dict_has in Eh; destruct (dict_get n td); congruence).
        rewrite dict_set_fresh by (apply dict_get_none, Hn).
        destruct (IH (td ++ [(n, x)])) as (added & H1 & H2).
        exists ((n, x) :: added). split.
        -- rewrite H1, <- app_assoc. reflexivity.
        -- intros name v [[= <- <-]|Hin].
           ++ repeat split; [left; reflexivity|exact Hn|exact Es].
           ++ destruct (H2 name v Hin) as (Ha & Hb & Hc).
              repeat split; [right; exact Ha| |exact Hc].
              rewrite dict_get_app in Hb.
              destruct (dict_get name td); [discriminate|reflexivity].
      * destruct (IH td) as (added & H1 & H2). apply (Hkeep added H1 H2).
Qed.

Section BackfillOnly.

Variable set_order : list string -> list string.
Hypothesis set_order_sub :
  forall refs name, In name (set_order refs) -> In name refs.

(** X19: Fix 7 and Fix 8 add, after the definitions the document has,
    only definitions whose name is referenced from the paths, is not
    defined in the document and is defined in the comprehensive one;
    the other categories and the other top-level entries stay. *)
Theorem backfill_only (category : string) (find : yaml -> list string)
    (comprehensive : yaml) (d td sd : dict) (result : yaml) :
  definitions category (YDict d) = Ok (YDict td) ->
  definitions category comprehensive = Ok (YDict sd) ->
  copy_missing_definitions set_order category find comprehensive (YDict d)
  = Ok result ->
  exists d' added,
    result = YDict d'
    /\ definitions category (YDict d') = Ok (YDict (td ++ added))
    /\ (forall name v,
          In (name, v) added ->
          In name (find (match dict_get "paths" d with
                         | Some paths => paths
                         | None => YDict []
                         end))
          /\ dict_get name td = None /\ dict_get name sd = Some v)
    /\ (forall other, other <> category ->
                      definitions other (YDict d') = definitions other (YDict d))
    /\ (forall k, k <> "components" -> dict_get k d' = dict_get k d).
Proof.
  intros Ht Hs H. unfold copy_missing_definitions in H. cbn [py_get] in H.
  rewrite bind_ok in H.
  destruct (copy_all_missing category comprehensive
              (set_order (find (match dict_get "paths" d with
                                | Some paths => paths
                                | None => YDict []
                                end))) sd Hs d td Ht)
    as (d' & H1 & H2 & H3 & H4).
  rewrite H1 in H. injection H as <-.
  destruct (copied_appends sd (set_order (find (match dict_get "paths" d with
                                                | Some paths => paths
                                                | None => YDict []
                                                end))) td)
    as (added & Ha & Hb).
  exists d', added. rewrite <- Ha. repeat split; try assumption;
    destruct (Hb name v H) as (Hx & Hy & Hz); auto.
Qed.

End BackfillOnly.

(** ** What Fix 1, Fix 2 and Fix 6 write *)

Lemma server_value_ok_inv (v v' : yaml) :
  server_value v = Ok v' ->
  (v' = v /\ node_at [Idx 0] v = None)
  \/ exists sd rest,
       v = YList (YDict sd :: rest)
       /\ v' = YList (YDict (dict_set "description" (YStr "Grist API server")
                               (dict_set "url"
                                  (YStr "https://{subdomain}.getgrist.com/api")
                                  sd)) :: rest).
Proof.
  unfold server_value.
  destruct v as [| | | | s|l|d]; try discriminate.
  - destruct s as [|c r]; [intros [= <-]; left; auto|discriminate].
  - destruct l as [|x r]; [intros [= <-]; left; auto|].
    destruct x as [| | | | | |sd]; try discriminate.
    cbn [py_len List.length Nat.ltb Nat.leb py_index0 py_setitem set_first].
    rewrite !bind_ok. cbn [py_setitem]. rewrite !bind_ok. intros [= <-].
    right. eauto.
  - destruct d as [|kv r]; [intros [= <-]; left; auto|discriminate].
Qed.

(** X20: when Fix 1 returns, the first server, if there is one, has the
    new url and description and its other entries as before; without a
    first server the document is unchanged; the other servers and the
    other top-level entries are never touched. *)
Theorem fix_server_sets (s s' : yaml) :
  fix_server s = Ok s' ->
  (forall server,
     node_at [Key "servers"; Idx 0] s = Some server ->
     node_at [Key "servers"; Idx 0; Key "url"] s'
     = Some (YStr "https://{subdomain}.getgrist.com/api")
     /\ node_at [Key "servers"; Idx 0; Key "description"] s'
        = Some (YStr "Grist API server")
     /\ forall k, k <> "url" -> k <> "description" ->
                  node_at [Key "servers"; Idx 0; Key k] s'
                  = node_at [Key "servers"; Idx 0; Key k] s)
  /\ (node_at [Key "servers"; Idx 0] s = None -> s' = s)
  /\ (forall i, i <> 0 ->
                node_at [Key "servers"; Idx i] s'
                = node_at [Key "servers"; Idx i] s)
  /\ (forall k, k <> "servers" -> node_at [Key k] s' = node_at [Key k] s).
Proof.
  intros H.
  assert (T1 : In fix_server targeted_repairs) by (cbn; tauto).
  assert (Hsame : node_at [Key "servers"; Idx 0] s = None -> s' = s ->
            (forall server,
               node_at [Key "servers"; Idx 0] s = Some server ->
               node_at [Key "servers"; Idx 0; Key "url"] s'
               = Some (YStr "https://{subdomain}.getgrist.com/api")
               /\ node_at [Key "servers"; Idx 0; Key "description"] s'
                  = Some (YStr "Grist API server")
               /\ forall k, k <> "url" -> k <> "description" ->
                            node_at [Key "servers"; Idx 0; Key k] s'
                            = node_at [Key "servers"; Idx 0; Key k] s)
            /\ (node_at [Key "servers"; Idx 0] s = None -> s' = s)
            /\ (forall i, i <> 0 ->
                          node_at [Key "servers"; Idx i] s'
                          = node_at [Key "servers"; Idx i] s)
            /\ (forall k, k <> "servers" ->
                          node_at [Key k] s' = node_at [Key k] s)).
  { intros Hnone ->. split; [intros server Hsome; congruence|].
    split; [reflexivity|]. split; intros; reflexivity. }
  destruct (yaml_dict_dec s) as [[d ->]|Hs].
  2:{ apply Hsame.
      - destruct s; try reflexivity. destruct (Hs entries eq_refl).
      - destruct (ok_is_dict _ _ _ T1 H) as [->|(d & d' & -> & _)];
          [reflexivity|destruct (Hs d eq_refl)]. }
  rewrite fix_server_at in H.
  apply at_key_ok_inv in H as (d0 & [= <-] & [[Hn ->]|(v & v' & Hv & Hf & ->)]).
  { apply Hsame; [|reflexivity]. cbn [node_at child]. rewrite Hn. reflexivity. }
  apply server_value_ok_inv in Hf
    as [[-> Hnone]|(sd & rest & -> & ->)].
  { apply Hsame; [|rewrite (dict_set_same _ _ _ Hv); reflexivity].
    cbn [node_at child] in *. rewrite Hv. exact Hnone. }
  cbn [node_at child]. rewrite Hv, dict_get_set_same. cbn [nth_error].
  repeat split.
  - rewrite dict_get_set_other by discriminate. rewrite dict_get_set_same.
    reflexivity.
  - rewrite dict_get_set_same. reflexivity.
  - intros k Hk1 Hk2. rewrite !dict_get_set_other by congruence. reflexivity.
  - discriminate.
  - intros [|i] Hi; [contradiction|reflexivity].
  - intros k Hk. rewrite dict_get_set_other by exact Hk. reflexivity.
Qed.

Lemma set_post_field_ok_inv (path field : string) (x s s' : yaml) :
  set_post_field path field x s = Ok s' ->
  (s' = s /\ node_at [Key "paths"; Key path; Key "post"] s = None)
  \/ exists d tp ed pd,
       s = YDict d /\ dict_get "paths" d = Some (YDict tp)
       /\ dict_get path tp = Some (YDict ed)
       /\ dict_get "post" ed = Some (YDict pd)
       /\ s' = YDict (dict_set "paths"
                        (YDict (dict_set path
                                  (YDict (dict_set "post"
                                            (YDict (dict_set field x pd)) ed))
                                  tp)) d).
Proof.
  intros H. destruct (set_post_field_dict _ _ _ _ _ H) as [d ->].
  rewrite set_post_field_at in H. cbn [node_at child].
  apply at_key_ok_inv in H as (d0 & [= <-] & [[Hn ->]|(v & v' & Hv & Hf & ->)]).
  { left. rewrite Hn. auto. }
  rewrite Hv. destruct (yaml_dict_dec v) as [[tp ->]|Hnd].
  2:{ left. destruct (post_field_value_other path field x v Hnd) as [H2|[err H2]];
        rewrite H2 in Hf; [|discriminate]. injection Hf as <-.
      rewrite (dict_set_same _ _ _ Hv). split; [reflexivity|].
      destruct v; try reflexivity. destruct (Hnd entries eq_refl). }
  rewrite post_field_value_dict in Hf.
  apply at_key_ok_inv in Hf as (d0 & [= <-] & [[Hn ->]|(e & e' & He & Hf & ->)]).
  { left. rewrite (dict_set_same _ _ _ Hv), Hn. auto. }
  rewrite He. destruct (yaml_dict_dec e) as [[ed ->]|Hnd].
  2:{ left. destruct (endpoint_value_other field x e Hnd) as [H2|[err H2]];
        rewrite H2 in Hf; [|discriminate]. injection Hf as <-.
      rewrite (dict_set_same _ _ _ He), (dict_set_same _ _ _ Hv).
      split; [reflexivity|].
      destruct e; try reflexivity. destruct (Hnd entries eq_refl). }
  rewrite endpoint_value_dict in Hf.
  apply at_key_ok_inv in Hf as (d0 & [= <-] & [[Hn ->]|(pv & pv' & Hp & Hf & ->)]).
  { left. rewrite (dict_set_same _ _ _ He), (dict_set_same _ _ _ Hv), Hn. auto. }
  destruct pv as [| | | | | |pd]; try discriminate. injection Hf as <-.
  right. exists d, tp, ed, pd. auto.
Qed.

Lemma set_post_field_writes (path field : string) (x s s' : yaml) :
  set_post_field path field x s = Ok s' -> writes_post_field path field x s s'.
Proof.
  intros H. unfold writes_post_field.
  apply set_post_field_ok_inv in H
    as [[-> Hnone]|(d & tp & ed & pd & -> & Hd & Ht & He & ->)].
  - split; [intros post Hp; congruence|]. split; [reflexivity|].
    split; [reflexivity|]. split; reflexivity.
  - cbn [node_at child]. rewrite Hd, Ht, He, !dict_get_set_same.
    split; [intros post _; split|].
    + reflexivity.
    + intros k Hk. rewrite dict_get_set_other by exact Hk. reflexivity.
    + split; [discriminate|]. split; [|split].
      * intros m Hm. rewrite dict_get_set_other by exact Hm. reflexivity.
      * intros p Hp. rewrite dict_get_set_other by exact Hp. reflexivity.
      * intros k Hk. rewrite dict_get_set_other by exact Hk. reflexivity.
Qed.

(** X21: when Fix 2 or Fix 6 returns, the [post] operation of its path,
    if the document has it, has the field set ([responses] to the one
    success response, [operationId] to ["createOrImportDoc"]) and its
    other entries as before; without that operation the document is
    unchanged; nothing else in the document differs. *)
Theorem post_fields_written (s s' : yaml) :
  (fix_responses s = Ok s' ->
   writes_post_field "/docs/{docId}/states/remove" "responses"
     (YDict [("200", YDict [("description", YStr "Success")])]) s s')
  /\ (fix_operation_id s = Ok s' ->
      writes_post_field "/docs" "operationId" (YStr "createOrImportDoc") s s').
Proof. split; apply set_post_field_writes. Qed.

(** ** What the conversion of parameter names leaves *)

Lemma rename_param_leaf (p p' : yaml) (r : list step) (v : yaml) :
  rename_param p = Ok p' -> node_at r p = Some v -> not_renamed v ->
  node_at r p' = Some v.
Proof.
  intros H Hn [Hd Hv].
  apply rename_param_cases in H as [->|(d & s & new & -> & Hg & Ha & ->)];
    [exact Hn|].
  destruct r as [|[k|i] r]; cbn [node_at child] in *.
  - injection Hn as <-. discriminate.
  - destruct (String.eqb_spec k "name") as [->|Hk].
    + rewrite Hg in Hn. rewrite dict_get_set_same.
      destruct r as [|st r]; [|rewrite node_at_scalar in Hn;
                                 [discriminate|reflexivity|discriminate]].
      cbn [node_at] in *. injection Hn as <-.
      rewrite (Hv s new eq_refl Ha). reflexivity.
    + rewrite dict_get_set_other by exact Hk. exact Hn.
  - discriminate.
Qed.

Lemma rename_params_leaf (key : string) (val v2 : yaml) (r : list step)
    (v : yaml) :
  rename_params key val = Ok v2 -> node_at r val = Some v -> not_renamed v ->
  node_at r v2 = Some v.
Proof.
  intros H Hn Hv.
  destruct val as [| | | | |params|d]; cbn [rename_params] in H;
    try (injection H as <-; exact Hn).
  destruct (String.eqb key "parameters"); [|injection H as <-; exact Hn].
  apply bind_ok_inv in H as (ps' & Hm & [= <-]).
  destruct r as [|[k|i] r]; cbn [node_at child] in *.
  - injection Hn as <-. destruct Hv as [Hd _]. discriminate.
  - discriminate.
  - pose proof (mapM_nth_error _ _ _ _ _ i Hm) as Hi.
    destruct (nth_error params i) as [p|]; [|discriminate].
    destruct Hi as (p' & Hp & ->). apply (rename_param_leaf p p' r v Hp Hn Hv).
Qed.

(** X22: through [convert_param_names_in_path] every scalar of the
    tree that is not a string the table renames stays where it is; in
    particular a parameter name the table does not list. *)
Theorem param_names_elsewhere (q : list step) :
  forall (t c v : yaml),
    convert_param_names_in_path t = Ok c ->
    node_at q t = Some v -> not_renamed v ->
    node_at q c = Some v.
Proof.
  induction q as [|st r IH]; intros t c v H Hn Hv.
  - cbn [node_at] in *. injection Hn as ->.
    rewrite convert_param_names_scalar in H by apply Hv. congruence.
  - cbn [node_at] in *. destruct (child st t) as [ch|] eqn:Ec; [|discriminate].
    destruct st as [k|i], t as [| | | | |l|d]; try discriminate;
      cbn [child] in Ec.
    + apply convert_dict_inv in H as (d' & -> & Hm).
      pose proof (mapM_dict_get converted_value _ d d' k
                    (fun kv => eq_refl) Hm) as Hk.
      rewrite Ec in Hk. destruct Hk as (v' & Hc & Hk).
      cbn [child]. rewrite Hk. unfold converted_value in Hc.
      apply bind_ok_inv in Hc as (v2 & Hr & Hc).
      apply (IH v2 v' v Hc); [|exact Hv].
      apply (rename_params_leaf k ch v2 r v Hr Hn Hv).
    + apply convert_list_inv in H as (l' & -> & Hm).
      pose proof (mapM_nth_error _ _ _ _ _ i Hm) as Hi.
      rewrite Ec in Hi. destruct Hi as (y & Hy & Hi).
      cbn [child]. rewrite Hi. apply (IH ch y v Hy Hn Hv).
Qed.

(** ** Where the paths of a merged document come from *)

Lemma stage_all_origin (official_paths : list string) (items : dict) :
  forall m0 m,
    foldM (stage official_paths) items m0 = Ok m ->
    forall k v,
      dict_get k m = Some v ->
      dict_get k m0 = Some v
      \/ exists k0 item c,
           In (k0, item) items /\ k = normalize_path k0
           /\ convert_param_names_in_path item = Ok c
           /\ v = convert_param_refs c.
Proof.
  induction items as [|[k0 item] items IH]; intros m0 m H k v Hk.
  - injection H as <-. left. exact Hk.
  - rewrite foldM_cons in H. apply bind_ok_inv in H as (m1 & H1 & H).
    destruct (IH m1 m H k v Hk) as [Hm1|(k1 & it & c & Hin & -> & Hc & ->)].
    + apply stage_cases in H1 as [[_ ->]|(_ & c & Hc & ->)]; [left; exact Hm1|].
      cbn [fst snd] in *.
      destruct (String.eqb_spec k (normalize_path k0)) as [->|Hne].
      * rewrite dict_get_set_same in Hm1. injection Hm1 as <-.
        right. exists k0, item, c. repeat split; [left; reflexivity|exact Hc].
      * rewrite dict_get_set_other in Hm1 by exact Hne. left. exact Hm1.
    + right. exists k1, it, c. repeat split; [right; exact Hin|exact Hc].
Qed.

(** X23: when a merge returns, every path item of the target is in the
    result under its key, unchanged, and every path item of the result
    is either one of the target or the conversion (parameter names,
    then pointers) of an item of the source, under the normalized form
    of its key. *)
Theorem merge_path_origin (T S R : yaml) :
  merge T S = Ok R ->
  exists items,
    node_at [Key "paths"] S = Some (YDict items)
    /\ (forall k v, node_at [Key "paths"; Key k] T = Some v ->
                    node_at [Key "paths"; Key k] R = Some v)
    /\ (forall k v,
          node_at [Key "paths"; Key k] R = Some v ->
          node_at [Key "paths"; Key k] T = Some v
          \/ exists k0 item c,
               In (k0, item) items /\ k = normalize_path k0
               /\ convert_param_names_in_path item = Ok c
               /\ v = convert_param_refs c).
Proof.
  intros H. destruct (merge_target_dict _ _ _ H) as [od ->].
  apply merge_ok_inv in H
    as (sp & items & missing & d1 & existing & Hsp & Hi & Hd1 & He & Hr).
  destruct (merge_tags_inv d1 existing R He Hr) as (l & _ & _ & _ & ->).
  exists items. split.
  { destruct S as [| | | | | |cd]; try discriminate. cbn [py_getitem] in Hsp.
    cbn [node_at child]. destruct (dict_get "paths" cd); [|discriminate].
    injection Hsp as ->. destruct sp; try discriminate.
    injection Hi as ->. reflexivity. }
  cbn [node_at child]. rewrite dict_get_set_other by discriminate.
  destruct Hd1 as [(Hn & _ & ->)|(tp & Hp & Hm & ->)].
  { rewrite Hn. split; intros k v Hk; discriminate. }
  rewrite Hp, dict_get_set_same.
  rewrite fold_dict_set_fresh.
  - split; intros k v; rewrite dict_get_app.
    + intros Hk. destruct (dict_get k tp); [exact Hk|discriminate].
    + destruct (dict_get k tp) as [w|]; [left; assumption|].
      destruct (dict_get k missing) as [w|] eqn:E; [|discriminate].
      intros [= ->]. right.
      destruct (stage_all_origin _ _ _ _ Hm k v E) as [Hnil|Hsrc];
        [discriminate|exact Hsrc].
  - apply (stage_all_nodup _ _ _ _ Hm). constructor.
  - intros k Hk. apply (stage_all_keys _ _ _ _ Hm) in Hk as [[]|[_ Hout]].
    exact Hout.
Qed.

(** ** No SCIM endpoint or tag after the fixes *)

Lemma node_at_via (a : step) (r : list step) (s s' : yaml) :
  node_at [a] s' = node_at [a] s -> node_at (a :: r) s' = node_at (a :: r) s.
Proof.
  cbn [node_at]. destruct (child a s'), (child a s); congruence.
Qed.

Lemma no_scim_same (s s' : yaml) :
  node_at [Key "paths"] s' = node_at [Key "paths"] s ->
  node_at [Key "tags"] s' = node_at [Key "tags"] s ->
  no_scim s -> no_scim s'.
Proof.
  intros Hp Ht [H1 H2]. split.
  - intros k v. rewrite (node_at_via _ _ _ _ Hp). apply H1.
  - intros i t. rewrite (node_at_via _ _ _ _ Ht). apply H2.
Qed.

Lemma fix_scim_clean (s s' : yaml) : fix_scim s = Ok s' -> no_scim s'.
Proof.
  intros H.
  destruct (fix_scim_ok_inv s s' H)
    as (d & d1 & d' & -> & -> & Hf1 & Hf2 & Hp & Ht).
  split; cbn [node_at child].
  - intros k v. rewrite Hf2 by discriminate.
    destruct (dict_get "paths" d) as [paths|];
      [|rewrite Hp; discriminate].
    destruct Hp as (tp & -> & ->). rewrite get_not_scim.
    destruct (Str.startswith k "/scim/"); [discriminate|reflexivity].
  - intros i t.
    destruct (dict_get "tags" d) as [tags|]; [|rewrite Ht; discriminate].
    destruct Ht as (kept & Hk & ->).
    destruct (nth_error kept i) as [t'|] eqn:E; [|discriminate].
    intros [= ->]. apply nth_error_In in E.
    unfold scim_tag_value in Hk.
    apply bind_ok_inv in Hk as (elems & _ & Hk).
    apply bind_ok_inv in Hk as (kept' & Hk & [= <-]).
    apply filterM_filter in Hk as [-> Hall].
    apply filter_In in E as [Hin Hb]. rewrite Forall_forall in Hall.
    destruct (Hall t Hin) as [b Hb']. rewrite Hb' in Hb. subst b.
    apply scim_test_named in Hb'. unfold named_scim in Hb'.
    cbn [node_at child] in Hb'. intros Hname. rewrite Hname in Hb'.
    discriminate.
Qed.

Lemma nth_error_mapped (A B : Type) (f : A -> B) (l : list A) (i : nat) :
  nth_error (map f l) i = option_map f (nth_error l i).
Proof.
  revert i. induction l as [|a r IH]; intros [|i]; cbn; auto.
Qed.

Lemma fix_null_enums_str (x : yaml) (s : string) :
  fix_null_enums x = YStr s -> x = YStr s.
Proof.
  destruct x; try (cbn; congruence);
    rewrite ?fix_null_enums_list, ?fix_null_enums_dict; discriminate.
Qed.

Lemma no_scim_enum (s : yaml) : no_scim s -> no_scim (fix_null_enums s).
Proof.
  intros [H1 H2].
  destruct s as [| | | | |l|d];
    try (split; intros; discriminate).
  rewrite fix_null_enums_dict. unfold no_scim. cbn [node_at child] in *.
  split.
  - intros k v. rewrite get_fix_null_enums by discriminate.
    specialize (H1 k). destruct (dict_get "paths" d) as [[| | | | |l|tp]|];
      try discriminate.
    cbn [option_map]. rewrite fix_null_enums_dict. cbn [child] in *.
    destruct (String.eqb_spec k "enum") as [->|Ke]; [reflexivity|].
    destruct (String.eqb_spec k "nullable") as [->|Kn]; [reflexivity|].
    rewrite get_fix_null_enums by assumption.
    destruct (dict_get k tp) as [w|]; [|discriminate].
    intros _. apply (H1 w). reflexivity.
  - intros i t. rewrite get_fix_null_enums by discriminate.
    specialize (H2 i). destruct (dict_get "tags" d) as [[| | | | |l|tp]|];
      try discriminate.
    cbn [option_map]. rewrite fix_null_enums_list. cbn [child] in *.
    rewrite nth_error_mapped.
    destruct (nth_error l i) as [t0|]; [|discriminate].
    cbn [option_map]. intros [= <-]. specialize (H2 t0 eq_refl).
    destruct t0 as [| | | | |l0|td]; try discriminate.
    rewrite fix_null_enums_dict. cbn [child] in *.
    rewrite get_fix_null_enums by discriminate.
    destruct (dict_get "name" td) as [x|]; [|discriminate].
    cbn [option_map]. intros [= Hx]. apply fix_null_enums_str in Hx.
    subst x. apply H2. reflexivity.
Qed.

Lemma no_scim_operation_id (s s' : yaml) :
  fix_operation_id s = Ok s' -> no_scim s -> no_scim s'.
Proof.
  intros H [H1 H2]. unfold fix_operation_id in H.
  apply set_post_field_ok_inv in H
    as [[-> _]|(d & tp & ed & pd & -> & Hd & Ht & He & ->)]; [split; assumption|].
  unfold no_scim. cbn [node_at child] in *. rewrite Hd in H1. split.
  - intros k v. rewrite dict_get_set_same.
    destruct (String.eqb_spec k "/docs") as [->|Hk]; [reflexivity|].
    rewrite dict_get_set_other by exact Hk. apply H1.
  - intros i t. rewrite dict_get_set_other by discriminate. apply H2.
Qed.

Lemma copy_missing_frame (category : string) (comprehensive schema s' : yaml)
    (name : string) :
  copy_missing category comprehensive schema name = Ok s' ->
  forall k, k <> "components" -> node_at [Key k] s' = node_at [Key k] schema.
Proof.
  unfold copy_missing. intros H.
  apply bind_ok_inv in H as (target & _ & H).
  apply bind_ok_inv in H as (b & _ & H).
  destruct b; [injection H as <-; reflexivity|].
  apply bind_ok_inv in H as (source & _ & H).
  apply bind_ok_inv in H as (b & _ & H).
  destruct b; [|injection H as <-; reflexivity].
  apply bind_ok_inv in H as (components & _ & H).
  apply bind_ok_inv in H as (defs & _ & H).
  apply bind_ok_inv in H as (x & _ & H).
  unfold add_definition in H.
  apply bind_ok_inv in H as (c1 & _ & H).
  apply bind_ok_inv in H as (d1 & _ & H).
  apply bind_ok_inv in H as (d2 & _ & H).
  apply bind_ok_inv in H as (c2 & _ & H).
  destruct schema; try discriminate. injection H as <-.
  intros k Hk. cbn [node_at child]. rewrite dict_get_set_other by exact Hk.
  reflexivity.
Qed.

Lemma copy_all_frame (category : string) (comprehensive : yaml)
    (names : list string) :
  forall schema s',
    foldM (copy_missing category comprehensive) names schema = Ok s' ->
    forall k, k <> "components" -> node_at [Key k] s' = node_at [Key k] schema.
Proof.
  induction names as [|n names IH]; intros schema s' H k Hk.
  - injection H as <-. reflexivity.
  - rewrite foldM_cons in H. apply bind_ok_inv in H as (s1 & H1 & H).
    rewrite (IH _ _ H k Hk). apply (copy_missing_frame _ _ _ _ _ H1 k Hk).
Qed.

Section NoScim.

Variable set_order : list string -> list string.

Lemma copy_definitions_frame (category : string) (find : yaml -> list string)
    (comprehensive schema s' : yaml) :
  copy_missing_definitions set_order category find comprehensive schema = Ok s' ->
  forall k, k <> "components" -> node_at [Key k] s' = node_at [Key k] schema.
Proof.
  unfold copy_missing_definitions. intros H.
  apply bind_ok_inv in H as (paths & _ & H). apply (copy_all_frame _ _ _ _ _ H).
Qed.

(** X24: whatever the two documents, a document [main] of
    fix_merged_schema.py writes has no path whose key starts with
    ["/scim/"] and no tag named ["scim"]. *)
Theorem fix_main_no_scim (schema comprehensive fixed : yaml) :
  fix_main set_order schema comprehensive = Ok fixed -> no_scim fixed.
Proof.
  unfold fix_main, repairs. intros H.
  apply bind_ok_inv in H as (r & Hr & H).
  apply bind_ok_inv in Hr as (s1 & _ & Hr).
  apply bind_ok_inv in Hr as (s2 & _ & Hr).
  apply bind_ok_inv in Hr as (s3 & H3 & Hr).
  rewrite bind_ok in Hr.
  apply bind_ok_inv in H as (c1 & H7 & H8).
  pose proof (no_scim_operation_id _ _ Hr
                (no_scim_enum _ (fix_scim_clean _ _ H3))) as Hn.
  apply (no_scim_same c1).
  - apply (copy_definitions_frame _ _ _ _ _ H8). discriminate.
  - apply (copy_definitions_frame _ _ _ _ _ H8). discriminate.
  - apply (no_scim_same r); [| |exact Hn].
    + apply (copy_definitions_frame _ _ _ _ _ H7). discriminate.
    + apply (copy_definitions_frame _ _ _ _ _ H7). discriminate.
Qed.

End NoScim.

(** ** Documents on which the repairs return *)

Lemma fix_server_total (d : dict) :
  match dict_get "servers" d with
  | None | Some (YList []) | Some (YList (YDict _ :: _)) => true
  | Some _ => false
  end = true ->
  exists d', fix_server (YDict d) = Ok (YDict d')
             /\ forall k, k <> "servers" -> dict_get k d' = dict_get k d.
Proof.
  intros H. rewrite fix_server_at, at_key_dict.
  destruct (dict_get "servers" d) as [v|] eqn:E; [|exists d; auto].
  destruct v as [| | | | |[|[| | | | | |sd] rest]|]; try discriminate;
    (eexists; split; [reflexivity|]; intros k Hk;
     apply dict_get_set_other, Hk).
Qed.

Lemma post_field_total (p field : string) (x paths : yaml) :
  operation_ok p paths = true ->
  exists paths',
    post_field_value p field x paths = Ok paths'
    /\ forall q, q <> p -> operation_ok q paths' = operation_ok q paths.
Proof.
  destruct paths as [| | | | | |tp]; try discriminate. cbn [operation_ok].
  rewrite post_field_value_dict, at_key_dict. intros H.
  destruct (dict_get p tp) as [[| | | | | |ed]|] eqn:E; try discriminate.
  2:{ exists (YDict tp). auto. }
  rewrite endpoint_value_dict, at_key_dict.
  assert (Hq : forall e' q, q <> p ->
                 operation_ok q (YDict (dict_set p e' tp))
                 = operation_ok q (YDict tp)).
  { intros e' q Hq. cbn [operation_ok].
    rewrite dict_get_set_other by exact Hq. reflexivity. }
  destruct (dict_get "post" ed) as [[| | | | | |pd]|]; try discriminate.
  - cbn [py_setitem]. rewrite !bind_ok. eexists. split; [reflexivity|apply Hq].
  - rewrite bind_ok. eexists. split; [reflexivity|apply Hq].
Qed.

Lemma set_post_field_total (p field : string) (x : yaml) (d : dict) :
  operation_ok_in p d = true ->
  exists d',
    set_post_field p field x (YDict d) = Ok (YDict d')
    /\ (forall k, k <> "paths" -> dict_get k d' = dict_get k d)
    /\ forall q, q <> p -> operation_ok_in q d' = operation_ok_in q d.
Proof.
  unfold operation_ok_in. intros H. rewrite set_post_field_at, at_key_dict.
  destruct (dict_get "paths" d) as [paths|] eqn:E.
  - destruct (post_field_total p field x paths H) as (paths' & -> & Hq).
    rewrite bind_ok. eexists. split; [reflexivity|]. split.
    + intros k Hk. apply dict_get_set_other, Hk.
    + intros q Hne. rewrite dict_get_set_same. apply Hq, Hne.
  - exists d. rewrite E. auto.
Qed.

Lemma filterM_total (A : Type) (f : A -> result bool) (l : list A) :
  Forall (fun a => exists b, f a = Ok b) l -> exists kept, filterM f l = Ok kept.
Proof.
  induction 1 as [|a r [b Hb] _ [kept IH]]; [exists []; reflexivity|].
  cbn [filterM]. rewrite Hb, bind_ok, IH, bind_ok. eauto.
Qed.

Lemma fix_scim_total (d : dict) (q : string) :
  Str.startswith q "/scim/" = false ->
  operation_ok_in q d = true ->
  match dict_get "tags" d with
  | None => true
  | Some (YList l) => forallb is_dict l
  | Some _ => false
  end = true ->
  exists d', fix_scim (YDict d) = Ok (YDict d')
             /\ operation_ok_in q d' = true.
Proof.
  unfold operation_ok_in. intros Hq Hp Ht.
  rewrite fix_scim_at. unfold scim_at. rewrite at_key_dict.
  assert (H1 : exists d1,
            match dict_get "paths" d with
            | Some v => v' <- scim_paths_value v ;;
                        Ok (YDict (dict_set "paths" v' d))
            | None => Ok (YDict d)
            end = Ok (YDict d1)
            /\ dict_get "tags" d1 = dict_get "tags" d
            /\ match dict_get "paths" d1 with
               | None => true
               | Some paths => operation_ok q paths
               end = true).
  { destruct (dict_get "paths" d) as [paths|] eqn:E.
    - destruct paths as [| | | | | |tp]; try discriminate.
      cbn [scim_paths_value]. rewrite bind_ok. eexists.
      split; [reflexivity|]. split; [apply dict_get_set_other; discriminate|].
      rewrite dict_get_set_same. cbn [operation_ok] in *.
      rewrite get_not_scim, Hq. exact Hp.
    - exists d. rewrite E. auto. }
  destruct H1 as (d1 & -> & Htags & Hp1). rewrite bind_ok, at_key_dict, Htags.
  destruct (dict_get "tags" d) as [tags|] eqn:E; [|exists d1; auto].
  destruct tags as [| | | | |l|]; try discriminate.
  unfold scim_tag_value. cbn [py_iter]. rewrite bind_ok.
  destruct (filterM_total _ (fun t => name <- py_get t "name" YNull ;;
                                      Ok (negb (is_str "scim" name))) l)
    as [kept Hk].
  { apply Forall_forall. intros t Hin. rewrite forallb_forall in Ht.
    specialize (Ht t Hin). destruct t; try discriminate.
    cbn [py_get]. rewrite bind_ok. eauto. }
  rewrite Hk, !bind_ok. eexists. split; [reflexivity|].
  rewrite dict_get_set_other by discriminate. exact Hp1.
Qed.

Lemma enum_keeps_operation (q : string) (d : dict) :
  q <> "enum" -> q <> "nullable" ->
  operation_ok_in q d = true ->
  exists d4, fix_null_enums (YDict d) = YDict d4
             /\ operation_ok_in q d4 = true.
Proof.
  intros Q1 Q2 H. eexists. split; [apply fix_null_enums_dict|].
  unfold operation_ok_in in *. rewrite get_fix_null_enums by discriminate.
  destruct (dict_get "paths" d) as [paths|]; [|reflexivity].
  cbn [option_map]. destruct paths as [| | | | | |tp]; try discriminate.
  rewrite fix_null_enums_dict. cbn [operation_ok] in *.
  rewrite get_fix_null_enums by assumption.
  destruct (dict_get q tp) as [[| | | | | |ed]|]; try discriminate;
    [|reflexivity].
  cbn [option_map]. rewrite fix_null_enums_dict.
  rewrite get_fix_null_enums by discriminate.
  destruct (dict_get "post" ed) as [[| | | | | |pd]|]; try discriminate;
    [|reflexivity].
  cbn [option_map]. rewrite fix_null_enums_dict. reflexivity.
Qed.

(** X25: on a document of the expected shape (servers, if any, a list
    that is empty or starts with a dict; the two operations written
    into, if any, dicts; tags, if any, a list of dicts) the repairs of
    Fix 1 to Fix 6 return a document and raise nothing. *)
Theorem repairs_total (d : dict) :
  document_ok d = true -> exists r, repairs (YDict d) = Ok (YDict r).
Proof.
  unfold document_ok. intros H.
  apply andb_prop in H as [H Ht]. apply andb_prop in H as [Hs Hp].
  apply andb_prop in Hp as [Hr Ho].
  destruct (fix_server_total d Hs) as (d1 & H1 & F1).
  assert (Hr1 : operation_ok_in "/docs/{docId}/states/remove" d1 = true)
    by (unfold operation_ok_in in *; rewrite F1 by discriminate; exact Hr).
  destruct (set_post_field_total _ "responses"
              (YDict [("200", YDict [("description", YStr "Success")])]) d1 Hr1)
    as (d2 & H2 & F2 & Q2).
  assert (Ho2 : operation_ok_in "/docs" d2 = true).
  { rewrite Q2 by discriminate. unfold operation_ok_in in *.
    rewrite F1 by discriminate. exact Ho. }
  assert (Ht2 : match dict_get "tags" d2 with
                | None => true
                | Some (YList l) => forallb is_dict l
                | Some _ => false
                end = true)
    by (rewrite F2, F1 by discriminate; exact Ht).
  destruct (fix_scim_total d2 "/docs" eq_refl Ho2 Ht2) as (d3 & H3 & Ho3).
  destruct (enum_keeps_operation "/docs" d3 ltac:(discriminate)
              ltac:(discriminate) Ho3) as (d4 & H4 & Ho4).
  destruct (set_post_field_total _ "operationId" (YStr "createOrImportDoc")
              d4 Ho4) as (r & H6 & _).
  exists r. unfold repairs, fix_responses, fix_operation_id.
  rewrite H1, bind_ok, H2, bind_ok, H3, !bind_ok, H4. exact H6.
Qed.

(** ** The references of a converted PathItem *)

Lemma find_refs_dict (pointer : string) (d : dict) :
  find_refs pointer (YDict d) = flat_map (entry_refs pointer) d.
Proof. reflexivity. Qed.

Lemma entry_refs_set (pointer k : string) (x y : yaml) (d : dict) :
  dict_get k d = Some y ->
  entry_refs pointer (k, y) = entry_refs pointer (k, x) ->
  flat_map (entry_refs pointer) (dict_set k x d)
  = flat_map (entry_refs pointer) d.
Proof.
  intros Hg Hq. induction d as [|[k' v] r IH]; [discriminate|].
  cbn [dict_get dict_set] in *. destruct (String.eqb k k') eqn:E.
  - apply String.eqb_eq in E. subst k'. injection Hg as ->.
    cbn [flat_map]. rewrite Hq. reflexivity.
  - cbn [flat_map]. rewrite (IH Hg). reflexivity.
Qed.

Lemma flat_map_forall2 (A B C : Type) (R : A -> B -> Prop)
    (f : B -> list C) (g : A -> list C) (l : list A) (l' : list B) :
  Forall2 R l l' ->
  (forall a b, In a l -> R a b -> f b = g a) ->
  flat_map f l' = flat_map g l.
Proof.
  induction 1 as [|a b l l' Hab _ IH]; intros H; [reflexivity|].
  cbn [flat_map]. rewrite (H a b (or_introl eq_refl) Hab). f_equal.
  apply IH. intros a' b' Hin. apply H. right. exact Hin.
Qed.

Lemma rename_param_refs_same (pointer : string) (p p' : yaml) :
  rename_param p = Ok p' -> find_refs pointer p' = find_refs pointer p.
Proof.
  intros H.
  apply rename_param_cases in H as [->|(d & s & new & -> & Hg & _ & ->)];
    [reflexivity|].
  rewrite !find_refs_dict. apply (entry_refs_set _ _ _ _ _ Hg). reflexivity.
Qed.

Lemma rename_params_refs_same (pointer key : string) (v v2 : yaml) :
  rename_params key v = Ok v2 -> find_refs pointer v2 = find_refs pointer v.
Proof.
  destruct v as [| | | | |l|d]; cbn [rename_params];
    try (intros [= <-]; reflexivity).
  destruct (String.eqb key "parameters"); [|intros [= <-]; reflexivity].
  intros H. apply bind_ok_inv in H as (ps' & Hm & [= <-]).
  cbn [find_refs]. apply (flat_map_forall2 _ _ _ _ _ _ _ _ (mapM_forall2 _ _ _ _ _ Hm)).
  intros a b _ Hab. apply (rename_param_refs_same _ _ _ Hab).
Qed.

Lemma convert_keeps_refs (pointer : string) (t : yaml) :
  forall c, convert_param_names_in_path t = Ok c ->
            find_refs pointer c = find_refs pointer t.
Proof.
  induction t as [t IH] using depth_ind. intros c H.
  destruct t as [| | | | |l|d];
    try (rewrite convert_param_names_scalar in H by reflexivity;
         injection H as <-; reflexivity).
  - apply convert_list_inv in H as (l' & -> & Hm). cbn [find_refs].
    apply (flat_map_forall2 _ _ _ _ _ _ _ _ (mapM_forall2 _ _ _ _ _ Hm)).
    intros a b Hin Hab. apply (IH a (depth_item _ _ Hin) b Hab).
  - apply convert_dict_inv in H as (d' & -> & Hm). rewrite !find_refs_dict.
    apply (flat_map_forall2 _ _ _ _ _ _ _ _ (mapM_forall2 _ _ _ _ _ Hm)).
    intros [k v] [k' v'] Hin Hab. cbn [fst snd] in Hab.
    apply bind_ok_inv in Hab as (w & Hw & [= <- <-]).
    unfold converted_value in Hw. apply bind_ok_inv in Hw as (v2 & Hr & Hc).
    assert (Hv : (exists s, v = YStr s) \/ forall s, v <> YStr s).
    { destruct v; try (right; discriminate). left. eauto. }
    destruct Hv as [[s ->]|Hv].
    + injection Hr as <-.
      rewrite convert_param_names_scalar in Hc by reflexivity.
      injection Hc as <-. reflexivity.
    + assert (Hw : forall s, w <> YStr s).
      { intros s ->. apply convert_param_names_str in Hc. subst v2.
        apply rename_params_str in Hr. exact (Hv s Hr). }
      transitivity (find_refs pointer w);
        [unfold entry_refs; cbn [fst snd]; destruct w; try reflexivity;
         destruct (Hw s eq_refl)|].
      transitivity (find_refs pointer v);
        [|unfold entry_refs; cbn [fst snd]; destruct v; try reflexivity;
          destruct (Hv s eq_refl)].
      rewrite (IH v2); [apply (rename_params_refs_same _ _ _ _ Hr)| |exact Hc].
      pose proof (rename_params_depth _ _ _ Hr).
      pose proof (depth_entry _ _ Hin). cbn [snd] in *. lia.
Qed.

(** X26: the conversion of parameter names changes no reference: the
    converted PathItem refers to the same schemas and parameters, in
    the same order, as the PathItem of the source. *)
Theorem renaming_keeps_refs (t c : yaml) :
  convert_param_names_in_path t = Ok c ->
  find_schema_refs c = find_schema_refs t
  /\ find_param_refs c = find_param_refs t.
Proof. intros H. split; apply convert_keeps_refs, H. Qed.

Lemma subnode_convert_param_refs (d : dict) (t : yaml) :
  subnode (YDict d) t ->
  subnode (convert_param_refs (YDict d)) (convert_param_refs t).
Proof.
  induction 1 as [|x l Hx Hsub IH|k v d0 Hkv Hsub IH].
  - apply sub_here.
  - cbn [convert_param_refs]. fold (convert_param_refs (YDict d)).
    apply (sub_item _ (convert_param_refs x)); [apply in_map, Hx|exact IH].
  - rewrite (convert_param_refs_dict d0).
    apply (sub_entry _ k (convert_param_refs v)); [|exact IH].
    apply in_map_iff. exists (k, v). split; [|exact Hkv]. cbn [fst snd].
    rewrite converted_ref_not_str; [reflexivity|].
    intros s ->. exact (subnode_dict_str _ _ Hsub).
Qed.

(** X27: a pointer to a parameter of the comprehensive naming
    (["#/components/parameters/OrgId"] and the like), anywhere in a
    tree, is found after [convert_param_refs] under its official name
    (["orgIdPathParam"] and the like) by [find_param_refs]. *)
Theorem renamed_pointer_found (t : yaml) (d : dict) (old new : string) :
  subnode (YDict d) t ->
  In ("$ref", YStr ("#/components/parameters/" ++ old)) d ->
  In (old, new) param_map ->
  In new (find_param_refs (convert_param_refs t)).
Proof.
  intros Hsub Hd Hin.
  pose proof (subnode_convert_param_refs d t Hsub) as Hs.
  rewrite convert_param_refs_dict in Hs.
  assert (Hn : Str.contains "#/components/parameters/" new = false).
  { cbn in Hin.
    repeat (destruct Hin as [[= <- <-]|Hin]; [reflexivity|]). destruct Hin. }
  destruct (pointer_name "#" "/components/parameters/" new Hn) as [Hp Hr].
  unfold find_param_refs. rewrite <- Hr.
  apply (find_refs_complete _ _ _ _ Hs); [|exact Hp].
  apply in_map_iff. exists ("$ref", YStr ("#/components/parameters/" ++ old)).
  split; [|exact Hd]. cbn [fst snd converted_ref].
  rewrite String.eqb_refl, (rewrite_ref_exact old new Hin). reflexivity.
Qed.

(** ** The further properties at sample documents *)

Lemma normalize_path_no_short_token_witness :
  Str.contains "{wid}" (normalize_path "/api/workspaces/{wid}") = false.
Proof.
  apply (normalize_path_no_short_token "/api/workspaces/{wid}" "{wid}").
  cbn. tauto.
Defined.

Lemma normalize_path_official_witness :
  normalize_path "/orgs/{orgId}/workspaces" = "/orgs/{orgId}/workspaces"
  /\ normalize_path ("/api" ++ "/orgs/{orgId}/workspaces")
     = "/orgs/{orgId}/workspaces".
Proof.
  destruct (normalize_path_official "/orgs/{orgId}/workspaces") as [H1 H2].
  - reflexivity.
  - intros old H. cbn in H.
    repeat (destruct H as [<-|H]; [reflexivity|]). destruct H.
  - split; [exact H1|apply H2; reflexivity].
Defined.

Lemma convert_param_refs_clean_witness :
  Str.contains "parameters/OrgId" "#/components/parameters/orgIdPathParam"
  = false.
Proof.
  apply (convert_param_refs_clean Sample.refs_item
           [Key "parameters"; Idx 1] _ "OrgId" "orgIdPathParam").
  - reflexivity.
  - left. reflexivity.
Defined.

Lemma pointer_gives_name_witness :
  In "Workspace"
     (find_schema_refs
        (YList [YDict [("$ref", YStr "#/components/schemas/Workspace")]])).
Proof.
  apply (proj1 (pointer_gives_name
                  (YList [YDict [("$ref", YStr "#/components/schemas/Workspace")]])
                  [("$ref", YStr "#/components/schemas/Workspace")] "Workspace"
                  (sub_item _ (YDict [("$ref", YStr "#/components/schemas/Workspace")])
                     [YDict [("$ref", YStr "#/components/schemas/Workspace")]]
                     (or_introl eq_refl) (sub_here _)))).
  - left. reflexivity.
  - reflexivity.
Defined.

Lemma fix_null_enums_clean_witness :
  null_enum [("type", YStr "string"); ("enum", YList [YStr "a"; YStr "b"]);
             ("nullable", YBool true)] = None.
Proof.
  apply (fix_null_enums_clean (YDict Sample.enum_node)).
  exact (sub_here _).
Defined.

Lemma nullable_kept_witness :
  exists n',
    fix_null_enums
      (YDict [("enum", YList [YStr "a"; YNull]); ("nullable", YNull)])
    = YDict n'
    /\ dict_get "enum" n' = Some (YList [YStr "a"])
    /\ dict_get "nullable" n' = Some YNull
    /\ keys n' = ["enum"; "nullable"].
Proof.
  destruct (nullable_kept
              [("enum", YList [YStr "a"; YNull]); ("nullable", YNull)]
              [YStr "a"; YNull] YNull eq_refl eq_refl eq_refl)
    as (n' & H1 & H2 & _ & H3 & H4).
  exists n'. split; [exact H1|]. split; [exact H2|].
  split; [exact (H3 eq_refl)|exact H4].
Defined.

Lemma fix_scim_removes_witness :
  exists s',
    fix_scim (YDict Sample.full_doc) = Ok s'
    /\ node_at [Key "tags"] s' = Some (YList [YDict [("name", YStr "docs")]])
    /\ node_at [Key "components"] s'
       = node_at [Key "components"] (YDict Sample.full_doc).
Proof.
  assert (H : exists s', fix_scim (YDict Sample.full_doc) = Ok s')
    by (eexists; reflexivity).
  destruct H as [s' H]. exists s'. split; [exact H|].
  destruct (fix_scim_removes _ _ H) as (_ & Ht & Hk). split.
  - apply (Ht [YDict [("name", YStr "scim")]; YDict [("name", YStr "docs")]]).
    reflexivity.
  - apply Hk; discriminate.
Defined.

Lemma fix_scim_none_left_witness :
  exists s',
    fix_scim (YDict Sample.full_doc) = Ok s'
    /\ node_at [Key "paths"; Key "/scim/Users"] (YDict Sample.full_doc)
       = Some (YDict [])
    /\ node_at [Key "paths"; Key "/scim/Users"] s' = None
    /\ node_at [Key "tags"; Idx 0] (YDict Sample.full_doc)
       = Some (YDict [("name", YStr "scim")])
    /\ exists t, node_at [Key "tags"; Idx 0] s' = Some t
                 /\ node_at [Key "name"] t <> Some (YStr "scim").
Proof.
  assert (H : exists s', fix_scim (YDict Sample.full_doc) = Ok s'
                         /\ node_at [Key "tags"; Idx 0] s'
                            = Some (YDict [("name", YStr "docs")]))
    by (eexists; split; reflexivity).
  destruct H as (s' & H & Htag). exists s'. split; [exact H|].
  destruct (fix_scim_none_left _ _ H) as [Hp Ht].
  split; [reflexivity|]. split; [|split; [reflexivity|]].
  - destruct (node_at [Key "paths"; Key "/scim/Users"] s') as [v|] eqn:E;
      [|reflexivity].
    destruct (Hp _ _ E) as [Hs _]. discriminate Hs.
  - exists (YDict [("name", YStr "docs")]). split; [exact Htag|].
    apply (Ht 0 _ Htag).
Defined.

Lemma targeted_idempotent_witness :
  exists s', fix_server (YDict Sample.full_doc) = Ok s'
             /\ fix_server s' = Ok s'.
Proof.
  assert (H : exists s', fix_server (YDict Sample.full_doc) = Ok s')
    by (eexists; reflexivity).
  destruct H as [s' H]. exists s'. split; [exact H|].
  apply (targeted_idempotent fix_server _ _ (or_introl eq_refl) H).
Defined.

Lemma repairs_idempotent_witness :
  exists r, repairs (YDict Sample.full_doc) = Ok r /\ repairs r = Ok r.
Proof.
  assert (H : exists r, repairs (YDict Sample.full_doc) = Ok r)
    by (eexists; reflexivity).
  destruct H as [r H]. exists r. split; [exact H|].
  apply (repairs_idempotent _ _ H).
Defined.

Lemma merge_tags_result_witness :
  exists R l,
    merge (YDict Sample.official_doc) (YDict Sample.workspaces_source) = Ok R
    /\ node_at [Key "tags"] R = Some (YList (l ++ tags_to_add (names_of l))).
Proof.
  assert (H : exists R, merge (YDict Sample.official_doc)
                              (YDict Sample.workspaces_source) = Ok R)
    by (eexists; reflexivity).
  destruct H as [R H]. destruct (merge_tags_result _ _ _ H) as (l & _ & Hl).
  exists R, l. split; [exact H|exact Hl].
Defined.

Lemma merge_frame_witness :
  exists R,
    merge (YDict Sample.official_doc) (YDict Sample.workspaces_source) = Ok R
    /\ node_at [Key "components"] R
       = node_at [Key "components"] (YDict Sample.official_doc).
Proof.
  assert (H : exists R, merge (YDict Sample.official_doc)
                              (YDict Sample.workspaces_source) = Ok R)
    by (eexists; reflexivity).
  destruct H as [R H]. exists R. split; [exact H|].
  apply (proj1 (merge_frame _ _ _ H)); discriminate.
Defined.

Lemma merge_again_witness :
  exists R,
    merge (YDict Sample.official_doc) (YDict Sample.workspaces_source) = Ok R
    /\ merge R (YDict Sample.workspaces_source) = Ok R.
Proof.
  assert (H : exists R, merge (YDict Sample.official_doc)
                              (YDict Sample.workspaces_source) = Ok R)
    by (eexists; reflexivity).
  destruct H as [R H]. exists R. split; [exact H|].
  apply (merge_again _ _ _ H).
Defined.

Lemma backfill_only_witness :
  exists d' added,
    copy_missing_definitions (nodup string_dec) "schemas" find_schema_refs
      (YDict Sample.workspaces_source)
      (YDict [("paths",
               YDict [("/orgs/{orgId}/workspaces", Sample.workspaces_item)])])
    = Ok (YDict d')
    /\ definitions "schemas" (YDict d') = Ok (YDict ([] ++ added)).
Proof.
  assert (H : exists result,
            copy_missing_definitions (nodup string_dec) "schemas"
              find_schema_refs (YDict Sample.workspaces_source)
              (YDict [("paths",
                       YDict [("/orgs/{orgId}/workspaces",
                               Sample.workspaces_item)])])
            = Ok result)
    by (eexists; reflexivity).
  destruct H as [result H].
  destruct (backfill_only (nodup string_dec)
              (fun refs name Hin => proj1 (nodup_In string_dec refs name) Hin)
              "schemas" find_schema_refs (YDict Sample.workspaces_source)
              [("paths",
                YDict [("/orgs/{orgId}/workspaces", Sample.workspaces_item)])]
              [] [("Workspace", YDict [("type", YStr "object")])] result
              eq_refl eq_refl H)
    as (d' & added & -> & Hd & _).
  exists d', added. split; [exact H|exact Hd].
Defined.

Lemma fix_server_sets_witness :
  exists s',
    fix_server (YDict Sample.full_doc) = Ok s'
    /\ node_at [Key "servers"; Idx 0; Key "url"] s'
       = Some (YStr "https://{subdomain}.getgrist.com/api").
Proof.
  assert (H : exists s', fix_server (YDict Sample.full_doc) = Ok s')
    by (eexists; reflexivity).
  destruct H as [s' H]. exists s'. split; [exact H|].
  apply (proj1 (fix_server_sets _ _ H)
               (YDict [("url", YStr "https://{gristhost}/api")])).
  reflexivity.
Defined.

Lemma post_fields_written_witness :
  exists s',
    fix_operation_id (YDict Sample.full_doc) = Ok s'
    /\ writes_post_field "/docs" "operationId" (YStr "createOrImportDoc")
         (YDict Sample.full_doc) s'.
Proof.
  assert (H : exists s', fix_operation_id (YDict Sample.full_doc) = Ok s')
    by (eexists; reflexivity).
  destruct H as [s' H]. exists s'. split; [exact H|].
  apply (proj2 (post_fields_written _ _) H).
Defined.

Lemma param_names_elsewhere_witness :
  exists c,
    convert_param_names_in_path Sample.workspaces_item = Ok c
    /\ node_at [Key "get"; Key "parameters"; Idx 0; Key "in"] c
       = Some (YStr "query").
Proof.
  assert (H : exists c, convert_param_names_in_path Sample.workspaces_item = Ok c)
    by (eexists; reflexivity).
  destruct H as [c H]. exists c. split; [exact H|].
  apply (param_names_elsewhere _ _ _ _ H); [reflexivity|].
  split; [reflexivity|]. intros s new [= <-] Ha. discriminate.
Defined.

Lemma merge_path_origin_witness :
  exists R,
    merge (YDict Sample.official_doc) (YDict Sample.workspaces_source) = Ok R
    /\ node_at [Key "paths"; Key "/docs"] R = Some (YDict []).
Proof.
  assert (H : exists R, merge (YDict Sample.official_doc)
                              (YDict Sample.workspaces_source) = Ok R)
    by (eexists; reflexivity).
  destruct H as [R H]. exists R. split; [exact H|].
  destruct (merge_path_origin _ _ _ H) as (items & _ & Hkeep & _).
  apply Hkeep. reflexivity.
Defined.

Lemma fix_main_no_scim_witness :
  exists fixed,
    fix_main (nodup string_dec) (YDict Sample.full_doc)
             (YDict Sample.workspaces_source) = Ok fixed
    /\ no_scim fixed.
Proof.
  assert (H : exists fixed,
            fix_main (nodup string_dec) (YDict Sample.full_doc)
                     (YDict Sample.workspaces_source) = Ok fixed)
    by (eexists; reflexivity).
  destruct H as [fixed H]. exists fixed. split; [exact H|].
  apply (fix_main_no_scim _ _ _ _ H).
Defined.

Lemma repairs_total_witness :
  exists r, repairs (YDict Sample.full_doc) = Ok (YDict r).
Proof. apply (repairs_total Sample.full_doc). reflexivity. Defined.

Lemma renaming_keeps_refs_witness :
  exists c,
    convert_param_names_in_path Sample.workspaces_item = Ok c
    /\ find_schema_refs c = find_schema_refs Sample.workspaces_item.
Proof.
  assert (H : exists c, convert_param_names_in_path Sample.workspaces_item = Ok c)
    by (eexists; reflexivity).
  destruct H as [c H]. exists c. split; [exact H|].
  apply (proj1 (renaming_keeps_refs _ _ H)).
Defined.

Lemma renamed_pointer_found_witness :
  In "orgIdPathParam"
     (find_param_refs
        (convert_param_refs
           (YList [YDict [("$ref", YStr "#/components/parameters/OrgId")]]))).
Proof.
  apply (renamed_pointer_found
           (YList [YDict [("$ref", YStr "#/components/parameters/OrgId")]])
           [("$ref", YStr "#/components/parameters/OrgId")]
           "OrgId" "orgIdPathParam"
           (sub_item _ (YDict [("$ref", YStr "#/components/parameters/OrgId")])
              [YDict [("$ref", YStr "#/components/parameters/OrgId")]]
              (or_introl eq_refl) (sub_here _))).
  - left. reflexivity.
  - left. reflexivity.
Defined.
